(** * Rules and patterns of mathics-core: a shallow embedding

    The embedded code is [mathics/builtin/patterns.py]: the [match] and
    [get_match_count] methods of the pattern classes ([Blank],
    [BlankSequence], [BlankNullSequence], [Pattern], [Optional],
    [Alternatives], [Except], [Verbatim], [HoldPattern], [PatternTest],
    [Condition], [Repeated]), [Repeated.init], [get_default_value], the
    rule normalisation [create_rules] and the drivers [Replace],
    [ReplaceAll], [ReplaceRepeated] and [ReplaceList]; the builtins
    [Rule] and [RuleDelayed], [RepeatedNull.init], and the atom builder
    [DispatchAtom] ([eval_create], [eval_normal]).  Two more files are
    embedded in part: from [mathics/eval/inference.py] the functions
    [remove_duplicated_assumptions] and [logical_expand_assumptions] with
    the loop of [get_assumption_rules_dispatch] that iterates the latter,
    and from [mathics/eval/numbers/numbers.py] the function
    [convert_repeating_decimal].

    The matcher of the source is written in continuation-passing style:
    a [match] method returns nothing and calls [yield_func] once per
    success; a caller that has seen enough raises an exception, and
    diagnostics are emitted on the evaluation object.  It is embedded in a
    state-and-exception monad [M]: the state holds the messages emitted so
    far and the variables shared by the closures of the caller.

    What the file takes from outside [patterns.py]:
    - the expression model (atoms, [head[elements...]], [sameQ] and the
      accessors), with [Integer], [String] and [Symbol] as atom classes;
    - the evaluator, the definitions table, the pattern compiler
      [BasePattern.create] and the traversal [do_apply_rules], as fields
      of the class [Kernel];
    - the classes [AtomPattern], [ExpressionPattern] and [Rule], modelled
      from the specification where they are needed;
    - Python's [sorted] on expressions, as the class [Ordering].
    [OptionsPattern], which rests on the option tables of the
    definitions and keeps its defaults in the pattern object, is left
    out: a statement about every pattern is about the patterns built from
    the other classes.  The functions of [inference.py] and [numbers.py]
    that compute with floats or call sympy and mpmath are left out as
    well. *)

From stdpp Require Import gmap strings list.
From Stdlib Require Import ZArith Lia.
From Stdlib Require DecimalString.

#[local] Set Warnings "-register-all".

(** ** Expression model *)

(** Modelled from the spec: the expression classes of [mathics.core]
    (not in the sources), an immutable tree [head[elements...]] whose
    leaves are atoms carrying a literal value.  [Dispatch] is the atom
    class defined in [patterns.py]: it wraps the list of rule expressions
    it was built from ([src]). *)
Inductive BaseElement : Type :=
| Integer (value : Z)
| String (value : string)
| Symbol (name : string)
| Expression (head : BaseElement) (elements : list BaseElement)
| Dispatch (rulelist : list BaseElement).

Definition SymbolList : BaseElement := Symbol "System`List".
Definition SymbolDispatch : BaseElement := Symbol "System`Dispatch".
Definition SymbolRule : BaseElement := Symbol "System`Rule".
Definition SymbolRuleDelayed : BaseElement := Symbol "System`RuleDelayed".
Definition SymbolSequence : BaseElement := Symbol "System`Sequence".
Definition SymbolBlank : BaseElement := Symbol "System`Blank".
Definition SymbolDefault : BaseElement := Symbol "System`Default".
Definition SymbolTrue : BaseElement := Symbol "System`True".
Definition SymbolInfinity : BaseElement := Symbol "System`Infinity".

Definition ListExpression (elements : list BaseElement) : BaseElement :=
  Expression SymbolList elements.

(** [Sequence[]]: the empty run of sibling elements. *)
Definition empty_sequence : BaseElement := Expression SymbolSequence [].

(** Modelled from the spec: [a.sameQ(b)] of the expression model (not in
    the sources), exact syntactic identity.  The comparisons [==] and
    [!=] of elements and the identity tests [is] of symbols are the same
    relation on this model. *)
Fixpoint sameQ (a b : BaseElement) {struct a} : bool :=
  let fix sameQ_list (l l' : list BaseElement) {struct l} : bool :=
    match l, l' with
    | [], [] => true
    | x :: r, y :: r' => sameQ x y && sameQ_list r r'
    | _, _ => false
    end in
  match a, b with
  | Integer x, Integer y => Z.eqb x y
  | String x, String y => String.eqb x y
  | Symbol x, Symbol y => String.eqb x y
  | Expression h es, Expression h' es' => sameQ h h' && sameQ_list es es'
  | Dispatch l, Dispatch l' => sameQ_list l l'
  | _, _ => false
  end.

(** Modelled from the spec: [e.get_head()] of the expression model (not
    in the sources): the head of a compound expression, the class symbol
    of an atom. *)
Definition get_head (e : BaseElement) : BaseElement :=
  match e with
  | Integer _ => Symbol "System`Integer"
  | String _ => Symbol "System`String"
  | Symbol _ => Symbol "System`Symbol"
  | Expression h _ => h
  | Dispatch _ => SymbolDispatch
  end.

(** Modelled from the spec: [e.get_name()] of the expression model (not
    in the sources): the name of a symbol, the empty string otherwise. *)
Definition get_name (e : BaseElement) : string :=
  match e with
  | Symbol n => n
  | _ => ""
  end.

(** Modelled from the spec: [e.get_head_name()] of the expression model
    (not in the sources). *)
Definition get_head_name (e : BaseElement) : string := get_name (get_head e).

(** Modelled from the spec: [e.elements] and [e.get_elements()] of the
    expression model (not in the sources); atoms have none. *)
Definition get_elements (e : BaseElement) : list BaseElement :=
  match e with
  | Expression _ es => es
  | _ => []
  end.

(** Modelled from the spec: [e.get_int_value()] of the expression model
    (not in the sources): [None] unless [e] is an [Integer]. *)
Definition get_int_value (e : BaseElement) : option Z :=
  match e with
  | Integer v => Some v
  | _ => None
  end.

(** Modelled from the spec: [e.has_form(name, None)] of the expression
    model (not in the sources): a compound expression with that head
    name. *)
Definition has_form_any (e : BaseElement) (name : string) : bool :=
  match e with
  | Expression h _ => String.eqb (get_name h) name
  | _ => false
  end.

(** Modelled from the spec: [e.has_form(name, c1, c2, ...)] of the
    expression model (not in the sources): that head name and one of the
    element counts. *)
Definition has_form (e : BaseElement) (name : string) (counts : list nat) : bool :=
  match e with
  | Expression h es =>
      String.eqb (get_name h) name
      && existsb (Nat.eqb (length es)) counts
  | _ => false
  end.

(** Modelled from the spec: [e.get_sequence()] of the expression model
    (not in the sources): the elements of a [Sequence[...]], else the
    one-element tuple [(e,)]. *)
Definition get_sequence (e : BaseElement) : list BaseElement :=
  match e with
  | Expression h es =>
      if String.eqb (get_name h) "System`Sequence" then es else [e]
  | _ => [e]
  end.

(** ** Python results *)

Inductive exn : Type :=
| PatternError (name tag : string)
| TypeError
| IndexError
| AttributeError
| UnboundLocalError
| InvalidLevelspecError
| StopGeneratorExcept
| StopGenerator_BaseRule.

Inductive pyresult (A : Type) : Type :=
| Return (a : A)
| Raise (e : exn).
Arguments Return {A} a.
Arguments Raise {A} e.

Definition pybind {A B} (r : pyresult A) (f : A -> pyresult B) : pyresult B :=
  match r with
  | Return a => f a
  | Raise e => Raise e
  end.

Notation "'let*' x ':=' r 'in' k" := (pybind r (fun x => k))
  (at level 10, x name, r at level 100, k at level 200).

(** Modelled from the spec: the attribute [e.head] of the expression
    model (not in the sources): the head of a compound expression.  An
    atom has the method [get_head] but no attribute [head]: reading it
    raises [AttributeError]. *)
Definition head_attribute (e : BaseElement) : pyresult BaseElement :=
  match e with
  | Expression h _ => Return h
  | _ => Raise AttributeError
  end.

(** ** Pattern objects *)

(** One constructor per pattern class of [patterns.py], except
    [OptionsPattern].  [AtomPattern] and [ExpressionPattern] are the
    classes of non-pattern heads. *)
Inductive BasePattern : Type :=
| AtomPattern (atom : BaseElement)
| ExpressionPattern (head : BasePattern) (elements : list BasePattern)
| Blank (head : option BaseElement)
| BlankSequence (head : option BaseElement)
| BlankNullSequence (head : option BaseElement)
| Pattern (varname : string) (pattern : BasePattern)
| Optional (pattern : BasePattern) (default : option BaseElement)
| Alternatives (alternatives : list BasePattern)
| Except (c p : BasePattern)
| Verbatim (content : BaseElement)
| HoldPattern (pattern : BasePattern)
| PatternTest (pattern : BasePattern) (test : BaseElement)
| Condition (pattern : BasePattern) (test : BaseElement)
| Repeated (pattern : BasePattern) (min : Z) (max : option Z).

(** Modelled from the spec: the class [Rule] of [mathics.core.rules] (not
    in the sources): a compiled left-hand side and a replacement
    template. *)
Record Rule : Type := mkRule { rule_pattern : BasePattern; rule_replace : BaseElement }.

(** *** Match counts *)

(** Python tuples are immutable: [t[i] = v] raises [TypeError]. *)
Definition tuple_setitem (t : Z * option Z) (i : nat) (v : option Z)
  : pyresult (Z * option Z) := Raise TypeError.

(** [a > b] where [a] may be [None]: comparing [None] with an [int] raises. *)
Definition py_gt (a : option Z) (b : Z) : pyresult bool :=
  match a with
  | Some x => Return (Z.ltb b x)
  | None => Raise TypeError
  end.

(** Modelled from the spec: [PatternObject.get_match_count] of the base
    class (not in the sources): a variant that does not override it
    matches exactly one element. *)
Definition default_match_count : Z * option Z := (1%Z, Some 1%Z).

(** [get_match_count] of each class.  The [Alternatives] case is the loop
    of [Alternatives.get_match_count], [range_lst] starting at [None]. *)
Fixpoint get_match_count (p : BasePattern) : pyresult (Z * option Z) :=
  match p with
  | BlankSequence _ => Return (1%Z, None)
  | BlankNullSequence _ => Return (0%Z, None)
  | Pattern _ q => get_match_count q
  | Optional _ _ => Return (0%Z, Some 1%Z)
  | PatternTest q _ => get_match_count q
  | Repeated _ mn mx => Return (mn, mx)
  | Alternatives alts =>
      (fix loop (range_lst : option (Z * option Z)) (l : list BasePattern)
         {struct l} : pyresult (Z * option Z) :=
         match l with
         | [] =>
             match range_lst with
             | None => Raise TypeError
             | Some r => Return r
             end
         | alternative :: rest =>
             let* sub := get_match_count alternative in
             match range_lst with
             | None => loop (Some sub) rest
             | Some r =>
                 let* r1 := (if Z.ltb (fst sub) (fst r)
                             then tuple_setitem r 0 (Some (fst sub))
                             else Return r) in
                 let* c := match snd r1 with
                           | None => Return true
                           | Some m => py_gt (snd sub) m
                           end in
                 let* r2 := (if c then tuple_setitem r1 1 (snd sub)
                             else Return r1) in
                 loop (Some r2) rest
             end
         end) None alts
  | _ => Return default_match_count
  end.

(** ** The evaluation object and the matcher monad *)

(** An argument of [evaluation.message]. *)
Inductive msgarg : Type :=
| ArgNone
| ArgInt (z : Z)
| ArgStr (s : string)
| ArgExpr (e : BaseElement).

Record message : Type :=
  mkMessage { msg_symbol : string; msg_tag : string; msg_args : list msgarg }.

(** The state threaded through a call: the messages emitted on the
    evaluation object ([out], oldest first) and the variables [locals]
    that the caller's closures share (the [result_list] of a collecting
    caller). *)
Record Evaluation (U : Type) : Type :=
  mkEvaluation { out : list message; locals : U }.
Arguments mkEvaluation {U} out locals.
Arguments out {U} e.
Arguments locals {U} e.

Definition M (U A : Type) : Type := Evaluation U -> Evaluation U * pyresult A.

Definition ret {U A} (a : A) : M U A := fun ev => (ev, Return a).

Definition raise {U A} (e : exn) : M U A := fun ev => (ev, Raise e).

Definition bind {U A B} (m : M U A) (f : A -> M U B) : M U B :=
  fun ev =>
    match m ev with
    | (ev', Return a) => f a ev'
    | (ev', Raise e) => (ev', Raise e)
    end.

Definition lift {U A} (r : pyresult A) : M U A := fun ev => (ev, r).

Notation "m1 ;; m2" := (bind m1 (fun _ => m2))
  (at level 100, m2 at level 200, right associativity).

(** [evaluation.message(symbol, tag, *args)] *)
Definition evaluation_message {U} (symbol tag : string) (args : list msgarg)
  : M U unit :=
  fun ev => (mkEvaluation (out ev ++ [mkMessage symbol tag args]) (locals ev),
             Return tt).

(** [try: m except E: pass] for one exception class. *)
Definition try_except {U} (m : M U unit) (catches : exn -> bool)
  (orelse : M U unit) : M U unit :=
  fun ev =>
    match m ev with
    | (ev', Return _) => orelse ev'
    | (ev', Raise e) => if catches e then (ev', Return tt) else (ev', Raise e)
    end.

(** The [pattern_context] dictionary.  The key ["evaluation"] is the
    threaded state; a key that a dictionary does not hold reads as [None]
    ([pattern_context.get(key, None)]). *)
Record pattern_context (U : Type) : Type := mkContext {
  yield_func : gmap string BaseElement -> option BaseElement -> M U unit;
  vars_dict : gmap string BaseElement;
  ctx_head : option BaseElement;
  element_index : option Z;
  element_count : option Z }.
Arguments mkContext {U}.
Arguments yield_func {U} p.
Arguments vars_dict {U} p.
Arguments ctx_head {U} p.
Arguments element_index {U} p.
Arguments element_count {U} p.

(** [pattern_context.copy()] followed by one assignment. *)
Definition with_yield_func {U} (ctx : pattern_context U)
  (y : gmap string BaseElement -> option BaseElement -> M U unit) : pattern_context U :=
  mkContext y (vars_dict ctx) (ctx_head ctx) (element_index ctx)
    (element_count ctx).

Definition with_vars_dict {U} (ctx : pattern_context U)
  (v : gmap string BaseElement) : pattern_context U :=
  mkContext (yield_func ctx) v (ctx_head ctx) (element_index ctx)
    (element_count ctx).

(** The continuation [except_yield_func] of [Except.match]. *)
Definition except_yield_func {U} (vars_dict : gmap string BaseElement)
  (rest : option BaseElement) : M U unit := raise StopGeneratorExcept.

(** The literal [{"yield_func": y, "vars_dict": v, "evaluation": ev}]. *)
Definition fresh_context {U} (y : gmap string BaseElement -> option BaseElement -> M U unit)
  (v : gmap string BaseElement) : pattern_context U :=
  mkContext y v None None None.

(** ** External collaborators *)

(** What the matcher consumes from the evaluator, the definitions table
    and the pattern compiler; none of it is in [patterns.py]. *)
Class Kernel : Type := {
  (** [expression.evaluate(evaluation)] *)
  evaluate : BaseElement -> BaseElement;
  (** [expression.is_numeric(evaluation)] *)
  is_numeric : BaseElement -> bool;
  (** [expression.replace_vars(vars_dict)] *)
  replace_vars : BaseElement -> gmap string BaseElement -> BaseElement;
  (** [evaluation.definitions.get_value(name, "System`DefaultValues",
      defaultexpr, evaluation)] *)
  get_value : string -> BaseElement -> option BaseElement;
  (** [evaluation.definitions.get_definition(test).builtin.test] when the
      builtin is a [Test] *)
  builtin_test : string -> option (BaseElement -> bool);
  (** [BasePattern.create(expr, evaluation=evaluation)] *)
  create : BaseElement -> pyresult BasePattern;
  (** [expr.do_apply_rules(rules, evaluation)]: the result and whether a
      rule was applied *)
  do_apply_rules : BaseElement -> list Rule -> BaseElement * bool;
  (** [python_levelspec(ls)] *)
  python_levelspec : BaseElement -> pyresult (Z * option Z);
  (** [expr.do_apply_rules(rules, evaluation, level=0,
      options={"levelspec": ls, "heads": heads})] *)
  do_apply_rules_levels : BaseElement -> list Rule -> Z * option Z -> bool -> BaseElement * bool
}.

(** ** The matcher *)

Section Matcher.
Context {U : Type} {K : Kernel}.

(** [get_default_value(name, evaluation, k, n)]: the positions are tried
    from the most specific [Default[name, k, n]] to [Default[name]]. *)
Definition get_default_value (name : string) (k n : option Z) : option BaseElement :=
  let pos := from_option (fun k => [k]) [] k ++ from_option (fun n => [n]) [] n in
  (fix loop (lens : list nat) : option BaseElement :=
     match lens with
     | [] => None
     | pos_len :: rest =>
         let defaultexpr :=
           Expression SymbolDefault (Symbol name :: map Integer (take pos_len pos)) in
         match get_value name defaultexpr with
         | Some result =>
             Some (if sameQ result defaultexpr then evaluate result else result)
         | None => loop rest
         end
     end) (rev (seq 0 (length pos + 1))).

(** The value of [default] in [Optional.match] when the pattern has no
    default of its own: [None] without an enclosing head, else what
    [get_default_value] finds for the head's name, the position and the
    number of elements. *)
Definition declared_default (ctx : pattern_context U) : option BaseElement :=
  match ctx_head ctx with
  | None => None
  | Some head =>
      get_default_value (get_name head) (element_index ctx) (element_count ctx)
  end.

(** [isinstance(item, (Integer, Rational, Real))] with a test on
    [item.value]; [Integer] is the only number class of this model. *)
Definition real_number_with (f : Z -> bool) (item : BaseElement) : bool :=
  match item with
  | Integer v => f v
  | _ => false
  end.

Definition is_Atom (item : BaseElement) : bool :=
  match item with
  | Expression _ _ => false
  | _ => true
  end.

Definition is_String (item : BaseElement) : bool :=
  match item with
  | String _ => true
  | _ => false
  end.

(** The dictionary [match_functions] of [PatternTest.init], each fast
    matcher given by the test it applies to every item. *)
Definition match_functions (testname : string) : option (BaseElement -> bool) :=
  if String.eqb testname "System`AtomQ" then Some is_Atom
  else if String.eqb testname "System`StringQ" then Some is_String
  else if String.eqb testname "System`NumericQ"
  then Some (fun item => real_number_with (fun _ => true) item || is_numeric item)
  else if String.eqb testname "System`NumberQ"
  then Some (real_number_with (fun _ => true))
  else if String.eqb testname "System`RealValuedNumberQ"
  then Some (real_number_with (fun _ => true))
  else if String.eqb testname "Internal`RealValuedNumberQ"
  then Some (real_number_with (fun _ => true))
  else if String.eqb testname "System`Posive"
  then Some (real_number_with (fun v => Z.ltb 0 v))
  else if String.eqb testname "System`Negative"
  then Some (real_number_with (fun v => Z.ltb v 0))
  else if String.eqb testname "System`NonPositive"
  then Some (real_number_with (fun v => Z.leb v 0))
  else if String.eqb testname "System`NonNegative"
  then Some (real_number_with (fun v => Z.leb 0 v))
  else None.

Definition negative_power (candidate : BaseElement) : bool :=
  has_form candidate "System`Power" [2]
  && match get_elements candidate with
     | [_; e1] => real_number_with (fun v => Z.ltb v 0) e1
     | _ => false
     end.

(** [PatternTest.quick_pattern_test] *)
Definition quick_pattern_test (candidate : BaseElement) (test : string) : option bool :=
  if String.eqb test "System`NegativePowerQ" then Some (negative_power candidate)
  else if String.eqb test "System`NotNegativePowerQ"
  then Some (negb (negative_power candidate))
  else match builtin_test test with
       | Some t => Some (t candidate)
       | None => None
       end.

(** The body of the [for item in items] loop of [PatternTest.match]:
    [true] when the loop goes on to the next item, [false] on [break]. *)
Definition pattern_test_item (test : BaseElement) (item : BaseElement) : bool :=
  let item := evaluate item in
  match quick_pattern_test item (get_name test) with
  | Some false => false
  | Some true => true
  | None => sameQ (evaluate (Expression test [item])) SymbolTrue
  end.

(** Modelled from the spec: the positional matcher of
    [mathics.core.pattern.ExpressionPattern] (not in the sources) hands a
    run of one element over as that element and any other run as
    [Sequence[run]], which is what [get_sequence] and
    [has_form("Sequence", 0)] of the pattern classes take apart. *)
Definition wrap_run (items : list BaseElement) : BaseElement :=
  match items with
  | [item] => item
  | _ => Expression SymbolSequence items
  end.

(** Modelled from the spec: the admissible widths of a sub-pattern with
    match count [(mn, mx)] over [len] remaining elements, the minimum
    first. *)
Definition widths (mn : Z) (mx : option Z) (len : nat) : list nat :=
  List.filter
    (fun w => Z.leb mn (Z.of_nat w)
              && from_option (fun m => Z.leb (Z.of_nat w) m) true mx)
    (seq 0 (S len)).

(** A [for] loop whose body has no [break]. *)
Definition for_each {A : Type} (body : A -> M U unit) : list A -> M U unit :=
  fix loop (l : list A) : M U unit :=
    match l with
    | [] => ret tt
    | x :: rest => body x ;; loop rest
    end.

Section Positional.
(** [match_q] is the matcher of the sub-patterns, [yield_func] the
    continuation of the whole expression pattern, [head] the head of the
    candidate and [count] the number of sub-patterns. *)
Variable match_q : BasePattern -> BaseElement -> pattern_context U -> M U unit.
Variable yield_func : gmap string BaseElement -> option BaseElement -> M U unit.
Variable head : BaseElement.
Variable count : Z.

(** Modelled from the spec: the positional matcher of
    [mathics.core.pattern.ExpressionPattern] (not in the sources).  The
    candidate's elements [rest] are partitioned among the sub-patterns
    [ps] from left to right; every sub-pattern is tried with its minimum
    admissible width first and wider runs afterwards, and matches its run
    under the bindings made so far, with the enclosing head, its position
    and the number of sub-patterns in the context. *)
Fixpoint match_elements (ps : list BasePattern) (index : Z)
  (rest : list BaseElement) (vars : gmap string BaseElement) {struct ps}
  : M U unit :=
  match ps with
  | [] =>
      match rest with
      | [] => yield_func vars None
      | _ => ret tt
      end
  | q :: qs =>
      bind (lift (get_match_count q)) (fun mc =>
      for_each (fun w =>
        match_q q (wrap_run (take w rest))
          (mkContext
             (fun vars' _ => match_elements qs (index + 1)%Z (drop w rest) vars')
             vars (Some head) (Some index) (Some count)))
        (widths (fst mc) (snd mc) (length rest)))
  end.
End Positional.

Section Repeated_iteration.
(** [match_pattern] is [self.pattern.match], [yield_iter] the
    continuation of the [Repeated] pattern. *)
Variable match_pattern : BaseElement -> pattern_context U -> M U unit.
Variable yield_iter : gmap string BaseElement -> option BaseElement -> M U unit.

(** The local function [iter_fn] of [Repeated.match]. *)
Fixpoint iter_fn (rest_elements : list BaseElement)
  (vars_dict : gmap string BaseElement) {struct rest_elements} : M U unit :=
  match rest_elements with
  | first :: others =>
      match_pattern first
        (fresh_context (fun new_vars_dict _ => iter_fn others new_vars_dict)
           vars_dict)
  | [] => yield_iter vars_dict None
  end.
End Repeated_iteration.

(** [p.match(expression, pattern_context)], one case per class.  A head
    argument that is given counts as true in [if self.head:].

    Modelled from the spec: the cases [AtomPattern] and
    [ExpressionPattern] (classes of [mathics.core.pattern], not in the
    sources): an atom matches itself by structural equality; an expression
    pattern matches the head and then the elements, by [match_elements]. *)
Fixpoint match_ (p : BasePattern) (expression : BaseElement)
  (ctx : pattern_context U) {struct p} : M U unit :=
  match p with
  | AtomPattern atom =>
      if sameQ atom expression then yield_func ctx (vars_dict ctx) None
      else ret tt
  | ExpressionPattern hp eps =>
      match expression with
      | Expression h es =>
          match_ hp h
            (fresh_context
               (fun vars _ =>
                  match_elements match_ (yield_func ctx) h
                    (Z.of_nat (length eps)) eps 1%Z es vars)
               (vars_dict ctx))
      | _ => ret tt
      end
  | Blank head =>
      if negb (has_form expression "System`Sequence" [0]) then
        match head with
        | Some h =>
            if sameQ (get_head expression) h
            then yield_func ctx (vars_dict ctx) None
            else ret tt
        | None => yield_func ctx (vars_dict ctx) None
        end
      else ret tt
  | BlankSequence head =>
      let elements := get_sequence expression in
      match elements with
      | [] => ret tt
      | _ =>
          match head with
          | Some h =>
              if forallb (fun element => sameQ (get_head element) h) elements
              then yield_func ctx (vars_dict ctx) None
              else ret tt
          | None => yield_func ctx (vars_dict ctx) None
          end
      end
  | BlankNullSequence head =>
      let elements := get_sequence expression in
      match head with
      | Some h =>
          if forallb (fun element => sameQ (get_head element) h) elements
          then yield_func ctx (vars_dict ctx) None
          else ret tt
      | None => yield_func ctx (vars_dict ctx) None
      end
  | Pattern varname q =>
      match vars_dict ctx !! varname with
      | None =>
          let new_vars_dict := <[varname := expression]> (vars_dict ctx) in
          match_ q expression (with_vars_dict ctx new_vars_dict)
      | Some existing =>
          if sameQ existing expression
          then yield_func ctx (vars_dict ctx) None
          else ret tt
      end
  | Optional q default =>
      if has_form expression "System`Sequence" [0] then
        match default with
        | None =>
            match declared_default ctx with
            | None =>
                evaluation_message "Pattern" "nodef"
                  [from_option ArgExpr ArgNone (ctx_head ctx);
                   from_option ArgInt ArgNone (element_index ctx);
                   from_option ArgInt ArgNone (element_count ctx)]
            | Some d =>
                match_ q d (fresh_context (yield_func ctx) (vars_dict ctx))
            end
        | Some d => match_ q d (fresh_context (yield_func ctx) (vars_dict ctx))
        end
      else match_ q expression (fresh_context (yield_func ctx) (vars_dict ctx))
  | Alternatives alts =>
      for_each (fun alternative => match_ alternative expression ctx) alts
  | Except c q =>
      try_except (match_ c expression (with_yield_func ctx except_yield_func))
        (fun e => match e with StopGeneratorExcept => true | _ => false end)
        (match_ q expression ctx)
  | Verbatim content =>
      if sameQ content expression then yield_func ctx (vars_dict ctx) None
      else ret tt
  | HoldPattern q => match_ q expression ctx
  | PatternTest q test =>
      match match_functions (get_name test) with
      | Some item_ok =>
          match_ q expression
            (with_yield_func ctx (fun vars_2 _ =>
               if forallb item_ok (get_sequence expression)
               then yield_func ctx vars_2 None else ret tt))
      | None =>
          match_ q expression
            (fresh_context (fun vars_2 _ =>
               if forallb (pattern_test_item test) (get_sequence expression)
               then yield_func ctx vars_2 None else ret tt)
               (vars_dict ctx))
      end
  | Condition q test =>
      match_ q expression
        (with_yield_func ctx (fun new_vars_dict rest =>
           if sameQ (evaluate (replace_vars test new_vars_dict)) SymbolTrue
           then yield_func ctx new_vars_dict rest else ret tt))
  | Repeated q mn mx =>
      let elements := get_sequence expression in
      if Z.ltb (Z.of_nat (length elements)) mn then ret tt
      else if from_option (fun m => Z.ltb m (Z.of_nat (length elements))) false mx
      then ret tt
      else iter_fn (match_ q) (yield_func ctx) elements (vars_dict ctx)
  end.

End Matcher.

(** ** Pattern compilation: [Repeated.init] *)

Section Compiler.
Context {K : Kernel}.

(** Truth value of [element_1.get_int_value()]: [None] and [0] are false. *)
Definition truthy_int (v : option Z) : bool :=
  match v with
  | Some z => negb (Z.eqb z 0)
  | None => false
  end.

(** [Repeated.init(expr, min_idx)]; [RepeatedNull.init] passes
    [min_idx = 0].  The result is the compiled object with its
    [pattern], [min] and [max]. *)
Definition Repeated_init (expr : BaseElement) (min_idx : Z) : pyresult BasePattern :=
  match get_elements expr with
  | [] => Raise IndexError
  | element_0 :: others =>
      let* pattern := create element_0 in
      if Nat.eqb (length (get_elements expr)) 2 then
        match others with
        | element_1 :: _ =>
            let allnumbers :=
              negb (existsb (fun element =>
                               match get_int_value element with
                               | None => true
                               | Some _ => false
                               end)
                      (get_elements element_1)) in
            if has_form element_1 "System`List" [1; 2] && allnumbers then
              match get_int_value (List.last (get_elements element_1) element_1),
                    get_int_value (List.hd element_1 (get_elements element_1)) with
              | Some mx, Some mn => Return (Repeated pattern mn (Some mx))
              | _, _ => Raise TypeError (* not reached: [allnumbers] holds *)
              end
            else if truthy_int (get_int_value element_1) then
              Return (Repeated pattern min_idx (get_int_value element_1))
            else Raise (PatternError "Repeated" "range")
        | [] => Raise IndexError
        end
      else Return (Repeated pattern min_idx None)
  end.

(** Modelled from the spec: the constructor [Rule(lhs, rhs)] (not in the
    sources) compiles its left-hand side. *)
Definition Rule_new (lhs rhs : BaseElement) : pyresult Rule :=
  let* pattern := create lhs in Return (mkRule pattern rhs).

End Compiler.

(** ** Rule normalisation and the rewrite drivers *)

(** What [create_rules] returns: the pair [(rules, False)], the pair
    [(result, True)] whose result is [None] after a diagnostic, or (from
    its second [return], which builds no pair) a bare [Dispatch] object. *)
Inductive create_rules_result : Type :=
| RulesList (rules : list Rule)
| FinalResult (result : option BaseElement)
| DispatchObject (rulelist : list BaseElement).

Section Drivers.
Context {U : Type} {K : Kernel}.

(** [try: m except E1: h1 except E2: h2]: [handler e] is the clause that
    catches [e], if any. *)
Definition try_catch {A} (m : M U A) (handler : exn -> option (M U A)) : M U A :=
  fun ev =>
    match m ev with
    | (ev', Return a) => (ev', Return a)
    | (ev', Raise e) =>
        match handler e with
        | Some h => h ev'
        | None => (ev', Raise e)
        end
    end.

(** The attribute [rules] that [Dispatch.__init__] computes. *)
Fixpoint Dispatch_rules (rulelist : list BaseElement) : pyresult (list Rule) :=
  match rulelist with
  | [] => Return []
  | rule :: rest =>
      match get_elements rule with
      | e0 :: e1 :: _ =>
          let* r := Rule_new e0 e1 in
          let* rs := Dispatch_rules rest in
          Return (r :: rs)
      | _ => Raise IndexError
      end
  end.

(** [item.get_head() in symbols] *)
Definition head_in (item : BaseElement) (symbols : list BaseElement) : bool :=
  existsb (sameQ (get_head item)) symbols.

(** The last loop of [create_rules], [result] being the list built so
    far.  Its first test reads the attribute [rule.head], not
    [rule.get_head()] as the loops before it do. *)
Fixpoint create_rules_loop (name : string) (rules : list BaseElement)
  (result : list Rule) : M U create_rules_result :=
  match rules with
  | [] => ret (RulesList result)
  | rule :: rest =>
      bind (lift (head_attribute rule)) (fun rule_head =>
      if negb (existsb (sameQ rule_head) [SymbolRule; SymbolRuleDelayed]) then
        evaluation_message name "reps" [ArgExpr rule] ;;
        ret (FinalResult None)
      else
        match get_elements rule with
        | [lhs; rhs] =>
            bind (lift (Rule_new lhs rhs)) (fun r =>
            create_rules_loop name rest (result ++ [r]))
        | _ =>
            evaluation_message (get_head_name rule) "argrx"
              [ArgStr (get_head_name rule); ArgInt 3; ArgInt 2] ;;
            ret (FinalResult None)
        end)
  end.

(** [create_rules(rules_expr, expr, name, evaluation, extra_args)] *)
Definition create_rules (rules_expr expr : BaseElement) (name : string)
  (extra_args : option (list BaseElement)) : M U create_rules_result :=
  match rules_expr with
  | Dispatch rulelist =>
      bind (lift (Dispatch_rules rulelist)) (fun rs => ret (RulesList rs))
  | _ =>
      if has_form_any rules_expr "System`Dispatch" then
        bind (lift (Dispatch_rules (get_elements rules_expr))) (fun _ =>
        ret (DispatchObject (get_elements rules_expr)))
      else
        let rules :=
          if has_form_any rules_expr "System`List"
          then get_elements rules_expr else [rules_expr] in
        let any_lists :=
          existsb (fun item => head_in item [SymbolList; SymbolDispatch]) rules in
        if any_lists then
          let all_lists :=
            forallb (fun item => sameQ (get_head item) SymbolList) rules in
          if all_lists then
            let extra_args := from_option id [] extra_args in
            ret (FinalResult (Some (ListExpression
              (map (fun item => Expression (Symbol name) (expr :: item :: extra_args))
                 rules))))
          else
            evaluation_message name "rmix" [ArgExpr rules_expr] ;;
            ret (FinalResult None)
        else create_rules_loop name rules []
  end.

(** [rules, ret = create_rules(...)]; [if ret: return rules]; otherwise the
    body [k] runs on the rule list.  A result that is no pair cannot be
    unpacked. *)
Definition unpack_rules (r : create_rules_result)
  (k : list Rule -> M U (option BaseElement)) : M U (option BaseElement) :=
  match r with
  | RulesList rules => k rules
  | FinalResult result => ret result
  | DispatchObject _ => raise TypeError
  end.

(** The clause [except PatternError: evaluation.message("Replace", "reps",
    rules); return None]. *)
Definition except_PatternError (rules : BaseElement) (e : exn)
  : option (M U (option BaseElement)) :=
  match e with
  | PatternError _ _ =>
      Some (evaluation_message "Replace" "reps" [ArgExpr rules] ;; ret None)
  | _ => None
  end.

(** [Replace.eval_levelspec]; [heads] is the value of the option [Heads]. *)
Definition Replace_eval_levelspec (expr rules ls heads : BaseElement)
  : M U (option BaseElement) :=
  try_catch
    (bind (create_rules rules expr "Replace" None) (fun r =>
     unpack_rules r (fun rules =>
       let heads := sameQ heads SymbolTrue in
       bind (lift (python_levelspec ls)) (fun levelspec =>
       ret (Some (fst (do_apply_rules_levels expr rules levelspec heads)))))))
    (fun e =>
       match e with
       | InvalidLevelspecError =>
           Some (evaluation_message "General" "level" [ArgExpr ls] ;; ret None)
       | _ => except_PatternError rules e
       end).

(** [ReplaceAll.eval] *)
Definition ReplaceAll_eval (expr rules : BaseElement) : M U (option BaseElement) :=
  try_catch
    (bind (create_rules rules expr "ReplaceAll" None) (fun r =>
     unpack_rules r (fun rules =>
       ret (Some (fst (do_apply_rules expr rules))))))
    (except_PatternError rules).

(** The [while True] loop of [ReplaceRepeated.eval_list] and its
    [return result].  [result] is [None] while the local variable is
    unbound; [maxit] is [None] when [get_int_value()] gave [None].  The
    second component counts the calls of [do_apply_rules].  The loop need
    not terminate: [fuel] bounds the number of iterations modelled, and
    the answer is [None] when it is used up.  (The cooperative
    [check_stopped()] is not modelled.) *)
Fixpoint ReplaceRepeated_loop (fuel : nat) (rules : list Rule)
  (maxit : option Z) (expr : BaseElement) (result : option BaseElement) (calls : nat)
  : option (pyresult BaseElement * nat) :=
  match fuel with
  | O => None
  | S fuel' =>
      match maxit with
      | Some 0%Z =>
          Some (from_option Return (Raise UnboundLocalError) result, calls)
      | None => Some (Raise TypeError, calls)
      | Some m =>
          let maxit := (m - 1)%Z in
          let '(result, applied) := do_apply_rules expr rules in
          let result := if applied then evaluate result else result in
          if applied && negb (sameQ result expr)
          then ReplaceRepeated_loop fuel' rules (Some maxit) result
                 (Some result) (S calls)
          else Some (Return result, S calls)
      end
  end.

(** The iteration limit read from the option [MaxIterations]. *)
Definition max_iterations (maxit : BaseElement) : option Z :=
  if is_numeric maxit then get_int_value maxit else Some (-1)%Z.

(** [ReplaceRepeated.eval_list]; [maxit] is the value of the option
    [MaxIterations].  [None]: the loop outlives [fuel]. *)
Definition ReplaceRepeated_eval_list (fuel : nat) (expr rules maxit : BaseElement)
  (ev : Evaluation U) : option (Evaluation U * pyresult (option BaseElement)) :=
  match try_catch
          (bind (create_rules rules expr "ReplaceRepeated" None)
             (fun r => ret (inl r)))
          (fun e => option_map (fun h => bind h (fun v => ret (inr v)))
                      (except_PatternError rules e)) ev with
  | (ev', Raise e) => Some (ev', Raise e)
  | (ev', Return (inr v)) => Some (ev', Return v)
  | (ev', Return (inl (FinalResult result))) => Some (ev', Return result)
  | (ev', Return (inl (DispatchObject _))) => Some (ev', Raise TypeError)
  | (ev', Return (inl (RulesList rules))) =>
      match ReplaceRepeated_loop fuel rules (max_iterations maxit) expr None 0 with
      | None => None
      | Some (Return result, _) => Some (ev', Return (Some result))
      | Some (Raise e, _) => Some (ev', Raise e)
      end
  end.

(** Modelled from the spec: the continuation [yield_match] of
    [Rule.apply] with [return_list=True]: the bindings are substituted
    into the replacement template, the outcome is evaluated and appended
    to [result_list], and the search is stopped once [max_list] results
    are there. *)
Definition Rule_yield_match (rule : Rule) (max_list : option Z)
  (vars : gmap string BaseElement) (rest : option BaseElement)
  : M (list BaseElement) unit :=
  fun ev =>
    let new_expression := evaluate (replace_vars (rule_replace rule) vars) in
    let result_list := locals ev ++ [new_expression] in
    (mkEvaluation (out ev) result_list,
     if from_option (fun m => Z.leb m (Z.of_nat (length result_list)))
          false max_list
     then Raise StopGenerator_BaseRule else Return tt).

(** Modelled from the spec: [Rule.apply(expression, evaluation,
    return_list=True, max_list=max_list)] of [mathics.core.rules] (not in
    the sources): it matches the rule's pattern against the expression
    and, for each success, substitutes the bindings into the replacement
    template, evaluates it and collects it, stopping the search once
    [max_list] results are collected. *)
Definition Rule_apply (rule : Rule) (expression : BaseElement)
  (max_list : option Z) : M U (list BaseElement) :=
  fun ev =>
    if from_option (fun m => Z.leb m 0) false max_list then (ev, Return [])
    else
      match match_ (rule_pattern rule) expression
              (fresh_context (Rule_yield_match rule max_list) ∅)
              (mkEvaluation (out ev) []) with
      | (ev', Return _) | (ev', Raise StopGenerator_BaseRule) =>
          (mkEvaluation (out ev') (locals ev), Return (locals ev'))
      | (ev', Raise e) => (mkEvaluation (out ev') (locals ev), Raise e)
      end.

(** The loop [for rule in rules: list_result.extend(rule.apply(...))]. *)
Fixpoint ReplaceList_loop (rules : list Rule) (expr : BaseElement)
  (max_count : option Z) (list_result : list BaseElement) : M U (list BaseElement) :=
  match rules with
  | [] => ret list_result
  | rule :: rest =>
      bind (Rule_apply rule expr max_count) (fun result =>
      ReplaceList_loop rest expr max_count (list_result ++ result))
  end.

(** [ReplaceList.eval] *)
Definition ReplaceList_eval (expr rules maxidx : BaseElement) : M U (option BaseElement) :=
  let checked :=
    if sameQ maxidx SymbolInfinity then Some None
    else match get_int_value maxidx with
         | None => None
         | Some max_count => if Z.ltb max_count 0 then None else Some (Some max_count)
         end in
  match checked with
  | None => evaluation_message "ReplaceList" "innf" [ArgInt 3] ;; ret None
  | Some max_count =>
      bind (try_catch
              (bind (create_rules rules expr "ReplaceList" (Some [maxidx]))
                 (fun r => ret (inl r)))
              (fun e => option_map (fun h => bind h (fun v => ret (inr v)))
                          (except_PatternError rules e)))
        (fun r =>
           match r with
           | inr v => ret v
           | inl r =>
               unpack_rules r (fun rules =>
                 bind (ReplaceList_loop rules expr max_count []) (fun list_result =>
                 ret (Some (ListExpression list_result))))
           end)
  end.

End Drivers.

(** ** The builtins [Rule], [RuleDelayed], [RepeatedNull] and [Dispatch] *)

Section Rule_builtins.
Context {U : Type}.

(** [Rule_.eval_rule]; [elems] is what the pattern variable [elems___]
    is bound to. *)
Definition eval_rule (elems : BaseElement) : M U (option BaseElement) :=
  let num_parms := length (get_sequence elems) in
  (if negb (Nat.eqb num_parms 2)
   then evaluation_message "Rule" "argrx"
          [ArgStr "Rule"; ArgExpr (Integer (Z.of_nat num_parms));
           ArgExpr (Integer 2)]
   else ret tt) ;;
  ret None.

(** [RuleDelayed.eval_rule_delayed] *)
Definition eval_rule_delayed (elems : BaseElement) : M U (option BaseElement) :=
  let num_parms := length (get_sequence elems) in
  (if negb (Nat.eqb num_parms 2)
   then evaluation_message "RuleDelayed" "argrx"
          [ArgStr "RuleDelayed"; ArgExpr (Integer (Z.of_nat num_parms));
           ArgExpr (Integer 2)]
   else ret tt) ;;
  ret None.

End Rule_builtins.

(** [RepeatedNull.init]: [Repeated.init] with [min_idx=0]. *)
Definition RepeatedNull_init {K : Kernel} (expr : BaseElement)
  : pyresult BasePattern :=
  Repeated_init expr 0.

(** What [DispatchAtom.eval_create] returns: [None], an element, or the
    [ListExpression] that it builds from the results of its recursive
    calls. *)
Inductive created : Type :=
| CreatedNone
| CreatedElement (element : BaseElement)
| CreatedList (elements : list created).

Definition is_CreatedNone (element : created) : bool :=
  match element with
  | CreatedNone => true
  | _ => false
  end.

(** Modelled from the spec: the constructor of [ListExpression] (not in
    the sources) on the results of [eval_create].  It reads the
    properties of every element when the list is built; a result [None]
    has none, and the constructor raises [AttributeError]. *)
Definition ListExpression_created (elements : list created) : pyresult created :=
  if existsb is_CreatedNone elements then Raise AttributeError
  else Return (CreatedList elements).

Section DispatchAtom.
Context {U : Type} {K : Kernel}.

(** [rule = rule.evaluate(evaluation)] under [if isinstance(rule,
    Symbol)]. *)
Definition evaluate_if_Symbol (rule : BaseElement) : BaseElement :=
  match rule with
  | Symbol _ => evaluate rule
  | _ => rule
  end.

(** [try: return Dispatch(flatten_list, evaluation)]
    [except Exception: return None] *)
Definition try_Dispatch (flatten_list : list BaseElement) : created :=
  match Dispatch_rules flatten_list with
  | Return _ => CreatedElement (Dispatch flatten_list)
  | Raise _ => CreatedNone
  end.

(** The loop of [eval_create] that fills [flatten_list], and the
    construction of the atom after it. *)
Fixpoint flatten_rules (rules : list BaseElement) (flatten_list : list BaseElement)
  : M U created :=
  match rules with
  | [] => ret (try_Dispatch flatten_list)
  | rule :: rest =>
      let rule := evaluate_if_Symbol rule in
      if has_form_any rule "System`List"
      then flatten_rules rest (flatten_list ++ get_elements rule)
      else if has_form rule "System`Rule" [2] || has_form rule "System`RuleDelayed" [2]
      then flatten_rules rest (flatten_list ++ [rule])
      else match rule with
           | Dispatch rulelist => flatten_rules rest (flatten_list ++ rulelist)
           | _ =>
               evaluation_message "Dispatch" "invrpl" [ArgExpr rule] ;;
               ret CreatedNone
           end
  end.

(** [DispatchAtom.eval_create] from the test [rules.has_form("List",
    None)] on.  The recursive calls are made on the elements of a list
    that are lists themselves, which are neither [Dispatch] atoms nor
    symbols; a [rules] that is no list becomes the one-element list
    [[rules]], for which [all_list] is false. *)
Fixpoint eval_create_list (rules : BaseElement) {struct rules} : M U created :=
  let fix each (l : list BaseElement) {struct l} : M U (list created) :=
    match l with
    | [] => ret []
    | rule :: rest =>
        bind (eval_create_list rule) (fun element =>
        bind (each rest) (fun elements => ret (element :: elements)))
    end in
  match rules with
  | Expression h es =>
      if String.eqb (get_name h) "System`List" then
        if forallb (fun rule => has_form_any rule "System`List") es
        then bind (each es) (fun elements => lift (ListExpression_created elements))
        else flatten_rules es []
      else flatten_rules [rules] []
  | _ => flatten_rules [rules] []
  end.

(** The list of the results of the recursive calls,
    [[self.eval_create(rule, evaluation) for rule in rules]]. *)
Definition eval_create_each : list BaseElement -> M U (list created) :=
  fix each (l : list BaseElement) {struct l} : M U (list created) :=
    match l with
    | [] => ret []
    | rule :: rest =>
        bind (eval_create_list rule) (fun element =>
        bind (each rest) (fun elements => ret (element :: elements)))
    end.

(** [DispatchAtom.eval_create] *)
Definition eval_create (rules : BaseElement) : M U created :=
  match rules with
  | Dispatch _ => ret (CreatedElement rules)
  | _ => eval_create_list (evaluate_if_Symbol rules)
  end.

End DispatchAtom.

(** [DispatchAtom.eval_normal]; [dispatch.src] is the list of the rules
    the atom was built from. *)
Definition eval_normal (dispatch : BaseElement) : pyresult BaseElement :=
  match dispatch with
  | Dispatch rulelist => Return (ListExpression rulelist)
  | _ =>
      match get_elements dispatch with
      | element_0 :: _ => Return element_0
      | [] => Raise IndexError
      end
  end.

(** ** Assumptions: [mathics/eval/inference.py] *)

Definition SymbolFalse : BaseElement := Symbol "System`False".
Definition SymbolNot : BaseElement := Symbol "System`Not".
Definition SymbolOr : BaseElement := Symbol "System`Or".

(** Python's [sorted] on a list of elements; the order of the expression
    classes (their sort keys) is not in the sources. *)
Class Ordering : Type := { sorted : list BaseElement -> list BaseElement }.

Section Inference.
Context {U : Type} {K : Kernel} {Ord : Ordering}.

(** The loop of [remove_duplicated_assumptions]; [unique_assumptions[-1]]
    is the last element kept. *)
Fixpoint unique_loop (assumptions_list unique_assumptions : list BaseElement)
  : pyresult (list BaseElement) :=
  match assumptions_list with
  | [] => Return unique_assumptions
  | assumption :: rest =>
      match last unique_assumptions with
      | None => Raise IndexError
      | Some kept =>
          if negb (sameQ assumption kept)
          then unique_loop rest (unique_assumptions ++ [assumption])
          else unique_loop rest unique_assumptions
      end
  end.

(** [remove_duplicated_assumptions] *)
Definition remove_duplicated_assumptions (assumptions_list : list BaseElement)
  : pyresult (list BaseElement) :=
  if Nat.eqb (length assumptions_list) 0 then Return assumptions_list
  else
    let assumptions_list := sorted assumptions_list in
    match assumptions_list with
    | first :: _ => unique_loop assumptions_list [first]
    | [] => Raise IndexError
    end.

(** [Expression(SymbolNot, element)] *)
Definition Not_ (element : BaseElement) : BaseElement :=
  Expression SymbolNot [element].

(** The block under [if assumption.has_form("Not", 1)] in
    [logical_expand_assumptions], from the new list and the flag so far:
    [inl] when the block ends with [continue], [inr] when control goes on
    to the test for [Nor]. *)
Definition expand_Not (assumption : BaseElement)
  (new_assumptions_list : list BaseElement) (changed : bool)
  : (list BaseElement * bool) + (list BaseElement * bool) :=
  match get_elements assumption with
  | sentence :: _ =>
      if has_form_any sentence "System`Or"
      then inl (new_assumptions_list ++ map Not_ (get_elements sentence), true)
      else if has_form_any sentence "System`And"
      then inl (new_assumptions_list
                ++ [Expression SymbolOr (map Not_ (get_elements sentence))],
                changed)
      else if has_form sentence "System`Implies" [2]
      then match get_elements sentence with
           | element_0 :: element_1 :: _ =>
               inr (new_assumptions_list ++ [element_0; Not_ element_1], true)
           | _ => inr (new_assumptions_list, changed)
           end
      else inr (new_assumptions_list, changed)
  | [] => inr (new_assumptions_list, changed)
  end.

(** The loop [for assumption in assumptions_list] of
    [logical_expand_assumptions]. *)
Fixpoint expand_loop (assumptions_list new_assumptions_list : list BaseElement)
  (changed : bool) : M U (list BaseElement * bool) :=
  match assumptions_list with
  | [] => ret (new_assumptions_list, changed)
  | assumption :: rest =>
      match assumption with
      | Symbol _ =>
          if sameQ assumption SymbolTrue
          then expand_loop rest new_assumptions_list true
          else if sameQ assumption SymbolFalse
          then evaluation_message "$Assumptions" "faas" [] ;;
               expand_loop rest new_assumptions_list true
          else if is_numeric assumption
          then evaluation_message "$Assumptions" "baas" [] ;;
               expand_loop rest new_assumptions_list true
          else expand_loop rest (new_assumptions_list ++ [assumption]) changed
      | _ =>
          if has_form_any assumption "System`And"
          then expand_loop rest
                 (new_assumptions_list ++ get_elements assumption) true
          else
            match (if has_form assumption "System`Not" [1]
                   then expand_Not assumption new_assumptions_list changed
                   else inr (new_assumptions_list, changed)) with
            | inl (new_assumptions_list, changed) =>
                expand_loop rest new_assumptions_list changed
            | inr (new_assumptions_list, changed) =>
                if has_form_any assumption "System`Nor"
                then expand_loop rest
                       (new_assumptions_list
                        ++ map Not_ (get_elements assumption)) true
                else expand_loop rest (new_assumptions_list ++ [assumption])
                       changed
            end
      end
  end.

(** [logical_expand_assumptions] *)
Definition logical_expand_assumptions (assumptions_list : list BaseElement)
  : M U (list BaseElement * bool) :=
  bind (expand_loop assumptions_list [] false) (fun '(new_assumptions_list, changed) =>
  if changed
  then bind (lift (remove_duplicated_assumptions new_assumptions_list))
         (fun new_assumptions_list => ret (new_assumptions_list, changed))
  else ret (new_assumptions_list, changed)).

(** The logical expansion in [get_assumption_rules_dispatch]: one call
    of [logical_expand_assumptions] and the loop [while cont].  [fuel]
    bounds the number of calls modelled; the answer is [None] when it is
    used up. *)
Fixpoint expand_logically (fuel : nat) (assumptions_list : list BaseElement)
  (ev : Evaluation U) : option (Evaluation U * pyresult (list BaseElement)) :=
  match fuel with
  | O => None
  | S fuel' =>
      match logical_expand_assumptions assumptions_list ev with
      | (ev', Return (assumptions_list, cont)) =>
          if cont then expand_logically fuel' assumptions_list ev'
          else Some (ev', Return assumptions_list)
      | (ev', Raise e) => Some (ev', Raise e)
      end
  end.

End Inference.

(** ** Repeating decimals: [mathics/eval/numbers/numbers.py] *)

(** Python's [str] on an [int]: its decimal numeral. *)
Definition str (z : Z) : string := DecimalString.NilZero.string_of_int (Z.to_int z).

(** [[x for x in s]]: the characters of a string, each a string. *)
Fixpoint characters (s : string) : list string :=
  match s with
  | String.EmptyString => []
  | String.String c rest => String.String c String.EmptyString :: characters rest
  end.

(** What [convert_repeating_decimal] raises: [ZeroDivisionError] from
    [//] and [%], [IndexError] from [tails[j]]. *)
Inductive conversion_error : Type :=
| ZeroDivisionError
| TailsIndexError.

(** The outcome of [convert_repeating_decimal]: the pair [(head, tails)]
    or an exception. *)
Inductive conversion : Type :=
| Digits (head tails : list string)
| Failed (e : conversion_error).

(** The loop [while numerator != 0] of [convert_repeating_decimal]: the
    final [tails] and [subresults].  [fuel] bounds the number of tests of
    the loop condition; [None] when it is used up. *)
Fixpoint digits_loop (fuel : nat) (numerator denominator base : Z)
  (tails : list string) (subresults : list Z)
  : option (list string * list Z) :=
  match fuel with
  | O => None
  | S fuel' =>
      if Z.eqb numerator 0 then Some (tails, subresults)
      else
        let numerator := (numerator * base)%Z in
        let result_digit := (numerator / denominator)%Z in
        let numerator := (numerator mod denominator)%Z in
        let tails := tails ++ [str result_digit] in
        if negb (existsb (Z.eqb numerator) subresults)
        then digits_loop fuel' numerator denominator base tails
               (subresults ++ [numerator])
        else Some (tails, subresults)
  end.

(** The loop [for i in range(len(head) - 1, -1, -1)]: [rev_head] holds
    the elements of [head] not visited yet, the last one first.  The
    length of [tails] does not change, so [j] is the index of its last
    element, and [tails[j]] raises [IndexError] when [tails] is empty. *)
Fixpoint rotate (rev_head : list string) (tails : list string)
  : conversion :=
  match rev_head with
  | [] => Digits [] tails
  | head_i :: others =>
      match last tails with
      | None => Failed TailsIndexError
      | Some tails_j =>
          if negb (String.eqb head_i tails_j) then Digits (rev rev_head) tails
          else rotate others (head_i :: removelast tails)
      end
  end.

(** The loop [for i in range(0, len(tails))] that moves leading zeros to
    the end; [n] counts the iterations left. *)
Fixpoint truncate_zeros (n : nat) (tails : list string) : list string :=
  match n with
  | O => tails
  | S n' =>
      match tails with
      | tails_0 :: others =>
          if String.eqb tails_0 "0" then truncate_zeros n' (others ++ [str 0])
          else tails
      | [] => tails
      end
  end.

(** [convert_repeating_decimal(numerator, denominator, base)] on Python
    integers. *)
Definition convert_repeating_decimal (fuel : nat) (numerator denominator base : Z)
  : option conversion :=
  if Z.eqb denominator 0 then Some (Failed ZeroDivisionError)
  else
    let head := characters (str (numerator / denominator)) in
    let numerator := (numerator mod denominator)%Z in
    match digits_loop fuel numerator denominator base [] [numerator] with
    | None => None
    | Some (tails, _) =>
        match rotate (rev head) tails with
        | Failed e => Some (Failed e)
        | Digits head tails =>
            if forallb (fun elem => String.eqb elem "0") head
            then Some (Digits head (truncate_zeros (length tails) tails))
            else Some (Digits head tails)
        end
    end.

(** ** Observing a match *)

Section Observers.
Context {U : Type} {K : Kernel}.

(** The outcome of a match for a caller that stops at the first success,
    as [Except.match] does: the stop signal when the continuation is
    reached, a plain return when it never is. *)
Definition first_success (p : BasePattern) (expression : BaseElement)
  (ctx : pattern_context U) (ev : Evaluation U) : pyresult unit :=
  snd (match_ p expression (with_yield_func ctx except_yield_func) ev).

Definition match_succeeds (p : BasePattern) (expression : BaseElement)
  (ctx : pattern_context U) (ev : Evaluation U) : Prop :=
  first_success p expression ctx ev = Raise StopGeneratorExcept.

Definition match_fails (p : BasePattern) (expression : BaseElement)
  (ctx : pattern_context U) (ev : Evaluation U) : Prop :=
  first_success p expression ctx ev = Return tt.

End Observers.

(** A continuation that records every binding environment it is given
    and lets the search go on. *)
Definition collect_yield (vars : gmap string BaseElement)
  (rest : option BaseElement) : M (list (gmap string BaseElement)) unit :=
  fun ev => (mkEvaluation (out ev) (locals ev ++ [vars]), Return tt).

(** All the binding environments under which [p] matches [expression],
    in the order of the search, starting from no binding. *)
Definition all_matches {K : Kernel} (p : BasePattern)
  (expression : BaseElement) : list (gmap string BaseElement) :=
  locals (fst (match_ p expression (fresh_context collect_yield ∅)
                 (mkEvaluation [] []))).

(** The binding environments that [p] hands to its continuation, in the
    order of the search, when the match starts from the environment
    [vars] under the head [hd], at position [idx] of [cnt]. *)
Definition matches_in {K : Kernel} (p : BasePattern) (expression : BaseElement)
  (vars : gmap string BaseElement) (hd : option BaseElement) (idx cnt : option Z)
  : list (gmap string BaseElement) :=
  locals (fst (match_ p expression (mkContext collect_yield vars hd idx cnt)
                 (mkEvaluation [] []))).

(** How that search ends: a plain return, or the exception that the
    matcher raised. *)
Definition search_result {K : Kernel} (p : BasePattern) (expression : BaseElement)
  (vars : gmap string BaseElement) (hd : option BaseElement) (idx cnt : option Z)
  : pyresult unit :=
  snd (match_ p expression (mkContext collect_yield vars hd idx cnt)
         (mkEvaluation [] [])).

(** [v] holds every binding of [vars]. *)
Definition extends_b (vars v : gmap string BaseElement) : bool :=
  bool_decide
    (map_Forall (fun i x => from_option (sameQ x) false (v !! i) = true) vars).

(** The environments appended to a collected list all satisfy [P]. *)
Definition appends_only (P : gmap string BaseElement -> Prop)
  (l l' : list (gmap string BaseElement)) : Prop :=
  exists t, l' = l ++ t /\ Forall P t.

(** ** A kernel to run the code on *)

(** Modelled from the spec: the pattern compiler [BasePattern.create]
    (not in the sources) on expressions without pattern heads: atoms and
    ordinary expressions match themselves. *)
Fixpoint literal_pattern (e : BaseElement) : BasePattern :=
  match e with
  | Expression h es =>
      ExpressionPattern (literal_pattern h) (map literal_pattern es)
  | _ => AtomPattern e
  end.

(** Modelled from the spec: [replace_vars] of the expression model (not
    in the sources): the bound names of a template are replaced by their
    values, the other names are left as they are. *)
Fixpoint substitute (e : BaseElement) (vars : gmap string BaseElement)
  : BaseElement :=
  match e with
  | Symbol n => default e (vars !! n)
  | Expression h es =>
      Expression (substitute h vars) (map (fun x => substitute x vars) es)
  | _ => e
  end.

(** A kernel without definitions: evaluation changes nothing, no
    default value is declared, rules have literal left-hand sides, and
    [do_apply_rules] applies none. *)
Definition plain_kernel : Kernel := {|
  evaluate := fun e => e;
  is_numeric := fun e => match e with Integer _ => true | _ => false end;
  replace_vars := substitute;
  get_value := fun _ _ => None;
  builtin_test := fun _ => None;
  create := fun e => Return (literal_pattern e);
  do_apply_rules := fun e _ => (e, false);
  python_levelspec := fun _ => Return (0%Z, Some 0%Z);
  do_apply_rules_levels := fun e _ _ _ => (e, false) |}.

(** The kernel of the documentation of [Optional]: like [plain_kernel],
    with the one definition [Default[h, k_] := k]. *)
Definition default_kernel : Kernel := {|
  evaluate := fun e => e;
  is_numeric := fun e => match e with Integer _ => true | _ => false end;
  replace_vars := substitute;
  get_value := fun name defaultexpr =>
    if String.eqb name "h" && has_form defaultexpr "System`Default" [2]
    then get_elements defaultexpr !! 1%nat else None;
  builtin_test := fun _ => None;
  create := fun e => Return (literal_pattern e);
  do_apply_rules := fun e _ => (e, false);
  python_levelspec := fun _ => Return (0%Z, Some 0%Z);
  do_apply_rules_levels := fun e _ _ _ => (e, false) |}.

(** [Rule[lhs, rhs]] *)
Definition rule_expr (lhs rhs : BaseElement) : BaseElement :=
  Expression SymbolRule [lhs; rhs].

(** The pattern [f[x_, x_]]. *)
Definition f_x_x (f x : string) : BasePattern :=
  ExpressionPattern (AtomPattern (Symbol f))
    [Pattern x (Blank None); Pattern x (Blank None)].

(** The merge of match counts in the words of the specification: the
    minimum of the minimums and the maximum of the maximums, [None]
    being the unbounded maximum. *)
Definition spec_merge_counts (r sub : Z * option Z) : Z * option Z :=
  (Z.min (fst r) (fst sub),
   match snd r, snd sub with
   | Some m, Some m' => Some (Z.max m m')
   | _, _ => None
   end).

Definition spec_alternatives_match_count (counts : list (Z * option Z))
  : option (Z * option Z) :=
  match counts with
  | [] => None
  | first :: others => Some (fold_left spec_merge_counts others first)
  end.

(** The range specifications that the specification admits for
    [Repeated]: one non-negative integer, or a list of one or two
    non-negative integers. *)
Definition spec_range_ok (element_1 : BaseElement) : bool :=
  match element_1 with
  | Integer n => Z.leb 0 n
  | Expression (Symbol "System`List") [Integer a] => Z.leb 0 a
  | Expression (Symbol "System`List") [Integer a; Integer b] =>
      Z.leb 0 a && Z.leb 0 b
  | _ => false
  end.

(** ** Diagnostics *)

(** The message of [Optional.match] when no default is found. *)
Definition nodef_message {U : Type} (ctx : pattern_context U) : message :=
  mkMessage "Pattern" "nodef"
    [from_option ArgExpr ArgNone (ctx_head ctx);
     from_option ArgInt ArgNone (element_index ctx);
     from_option ArgInt ArgNone (element_count ctx)].

(** What a declared default is worth: evaluated when the definitions
    return the [Default[...]] expression itself. *)
Definition default_result {K : Kernel} (defaultexpr result : BaseElement) : BaseElement :=
  if sameQ result defaultexpr then evaluate result else result.

(** The elements of the rule argument: those of a list, else the
    argument itself. *)
Definition rule_items (rules_expr : BaseElement) : list BaseElement :=
  if has_form_any rules_expr "System`List"
  then get_elements rules_expr else [rules_expr].

(** A [Rule] or [RuleDelayed] of arity 2. *)
Definition is_rule (item : BaseElement) : bool :=
  head_in item [SymbolRule; SymbolRuleDelayed]
  && Nat.eqb (length (get_elements item)) 2.





(** The rule argument is neither a [Dispatch] atom nor a [Dispatch[...]]
    expression. *)
Definition not_Dispatch (rules_expr : BaseElement) : bool :=
  match rules_expr with
  | Dispatch _ => false
  | _ => negb (has_form_any rules_expr "System`Dispatch")
  end.

(** [evaluation.message] as a change of the evaluation object. *)
Definition add_message {U : Type} (ev : Evaluation U) (m : message)
  : Evaluation U :=
  mkEvaluation (out ev ++ [m]) (locals ev).




(** The third argument of [ReplaceList] that passes its check:
    [Infinity] or a non-negative integer. *)
Definition valid_maxidx (maxidx : BaseElement) : bool :=
  sameQ maxidx SymbolInfinity
  || match get_int_value maxidx with
     | Some n => Z.leb 0 n
     | None => false
     end.


(** The loop of [Alternatives.get_match_count] from a given
    [range_lst]: [get_match_count (Alternatives alts)] is
    [merge_match_counts None alts]. *)
Fixpoint merge_match_counts (range_lst : option (Z * option Z))
  (alternatives : list BasePattern) {struct alternatives}
  : pyresult (Z * option Z) :=
  match alternatives with
  | [] =>
      match range_lst with
      | None => Raise TypeError
      | Some r => Return r
      end
  | alternative :: rest =>
      let* sub := get_match_count alternative in
      match range_lst with
      | None => merge_match_counts (Some sub) rest
      | Some r =>
          let* r1 := (if Z.ltb (fst sub) (fst r)
                      then tuple_setitem r 0 (Some (fst sub))
                      else Return r) in
          let* c := match snd r1 with
                    | None => Return true
                    | Some m => py_gt (snd sub) m
                    end in
          let* r2 := (if c then tuple_setitem r1 1 (snd sub)
                      else Return r1) in
          merge_match_counts (Some r2) rest
      end
  end.

(** An alternative whose count lies within the bounded range [r]. *)
Definition within_count (r : Z * option Z) (q : BasePattern) : Prop :=
  exists mn' m' m,
    get_match_count q = Return (mn', Some m') /\ snd r = Some m
    /\ (fst r <= mn')%Z /\ (m' <= m)%Z.

(** What an element of the rule list of [Dispatch] contributes to
    [flatten_list]. *)
Definition spliced (rule : BaseElement) : list BaseElement :=
  if has_form_any rule "System`List" then get_elements rule
  else match rule with
       | Dispatch rulelist => rulelist
       | _ => [rule]
       end.

(** An element that the loop of [eval_create] takes: a list, a rule of
    arity 2 or a [Dispatch] atom. *)
Definition accepted (rule : BaseElement) : bool :=
  has_form_any rule "System`List"
  || is_rule rule
  || match rule with Dispatch _ => true | _ => false end.

(** A non-empty list of rules of arity 2 whose left-hand sides compile. *)
Definition compilable_rules {K : Kernel} (items : list BaseElement) : Prop :=
  items <> [] /\ forallb is_rule items = true
  /\ exists rs, Dispatch_rules items = Return rs.

(** The arguments [es] are not one [Sequence[...]] expression. *)
Definition no_lone_sequence (es : list BaseElement) : bool :=
  match es with
  | [e] => negb (has_form_any e "System`Sequence")
  | _ => true
  end.

(** The rule argument is a non-empty list of lists. *)
Definition is_list_of_lists (rules_expr : BaseElement) : bool :=
  not_Dispatch rules_expr
  && negb (Nat.eqb (length (rule_items rules_expr)) 0)
  && forallb (fun item => sameQ (get_head item) SymbolList) (rule_items rules_expr).

(** [name[expr, item, extra_args...]] for every element of the rule
    argument. *)
Definition threaded (name : string) (expr rules_expr : BaseElement)
  (extra_args : list BaseElement) : BaseElement :=
  ListExpression
    (map (fun item => Expression (Symbol name) (expr :: item :: extra_args))
       (rule_items rules_expr)).

(** No two neighbours of the list are the same. *)
Fixpoint no_repeat (l : list BaseElement) : bool :=
  match l with
  | x :: (y :: _) as rest => negb (sameQ x y) && no_repeat rest
  | _ => true
  end.

(** The truth value of an assumption under a valuation [atom] of the
    sentences that are no connective: [True], [False], [And], [Or],
    [Not], [Nor] and [Implies] have their usual meaning. *)
Fixpoint truth (atom : BaseElement -> bool) (e : BaseElement) {struct e} : bool :=
  match e with
  | Symbol n =>
      if String.eqb n "System`True" then true
      else if String.eqb n "System`False" then false
      else atom e
  | Expression h es =>
      if String.eqb (get_name h) "System`And" then forallb (truth atom) es
      else if String.eqb (get_name h) "System`Or" then existsb (truth atom) es
      else if String.eqb (get_name h) "System`Nor"
      then negb (existsb (truth atom) es)
      else if String.eqb (get_name h) "System`Not" then
        match es with
        | [x] => negb (truth atom x)
        | _ => atom e
        end
      else if String.eqb (get_name h) "System`Implies" then
        match es with
        | [a; b] => implb (truth atom a) (truth atom b)
        | _ => atom e
        end
      else atom e
  | _ => atom e
  end.

(** An ordering that leaves a list as it is. *)
Definition plain_ordering : Ordering := {| sorted := fun l => l |}.

(** A value of [x % denominator]. *)
Definition is_remainder (denominator x : Z) : Prop :=
  (0 <= x < denominator)%Z \/ (denominator < x <= 0)%Z.

(** The number that the digits [ds] denote in base [base]. *)
Definition numeral (base : Z) (ds : list Z) : Z :=
  fold_left (fun acc d => (acc * base + d)%Z) ds 0%Z.

(** ** The binding invariant *)

Section Binding_invariant_def.
Context {U : Type} {K : Kernel}.

(** Two continuations that cannot be told apart by binding environments
    that extend [vars]. *)
Definition agree_above (vars : gmap string BaseElement)
  (k k' : gmap string BaseElement -> option BaseElement -> M U unit) : Prop :=
  forall v r ev, vars ⊆ v -> k v r ev = k' v r ev.

(** [p] calls its continuation only with environments that extend the
    environment it was given: replacing the continuation elsewhere
    changes nothing. *)
Definition extends_only (p : BasePattern) : Prop :=
  forall expression (ctx : pattern_context U) k',
    agree_above (vars_dict ctx) (yield_func ctx) k' ->
    forall ev,
      match_ p expression ctx ev = match_ p expression (with_yield_func ctx k') ev.

End Binding_invariant_def.

(** ** Relations between runs of the matcher *)

Section Run_relations.
Context {U : Type} {K : Kernel}.

(** [Q] relates the caller's variables before and after a run. *)
Variable Q : U -> U -> Prop.

(** A computation changes the variables of the caller by [Q] only. *)
Definition preserves {A : Type} (m : M U A) : Prop :=
  forall ev, Q (locals ev) (locals (fst (m ev))).

(** A continuation that does so at every call. *)
Definition preserving_yield
  (k : gmap string BaseElement -> option BaseElement -> M U unit) : Prop :=
  forall v r, preserves (k v r).

(** [p] does so when its continuation does. *)
Definition match_preserves (p : BasePattern) : Prop :=
  forall expression (ctx : pattern_context U),
    preserving_yield (yield_func ctx) -> preserves (match_ p expression ctx).

(** [I] holds of the variables while two runs go on alike; [F] once the
    first run was stopped by the exception [stop]. *)
Variable I : U -> Prop.
Variable F : U -> Prop.
Variable stop : exn.

(** The first run is a truncation of the second: either the two end
    alike, or the first was stopped and the second went on, changing the
    variables by [Q]. *)
Definition truncates (o1 o2 : Evaluation U * pyresult unit) : Prop :=
  (o1 = o2 /\ I (locals (fst o1)))
  \/ (snd o1 = Raise stop /\ F (locals (fst o1))
      /\ Q (locals (fst o1)) (locals (fst o2))).

(** Two computations of which the first truncates the second, from any
    state in which [I] holds. *)
Definition related (m1 m2 : M U unit) : Prop :=
  forall ev, I (locals ev) -> truncates (m1 ev) (m2 ev).

(** Two continuations so related at every call. *)
Definition related_yield
  (k1 k2 : gmap string BaseElement -> option BaseElement -> M U unit) : Prop :=
  forall v r, related (k1 v r) (k2 v r).

(** [p] run with related continuations gives related runs. *)
Definition match_related (p : BasePattern) : Prop :=
  forall expression y1 y2 vars hd idx cnt,
    related_yield y1 y2 -> preserving_yield y2 ->
    related (match_ p expression (mkContext y1 vars hd idx cnt))
            (match_ p expression (mkContext y2 vars hd idx cnt)).

End Run_relations.

Section Simulation_def.
Context {U1 U2 : Type} {K : Kernel}.

(** [R] relates the states of two runs, which may keep variables of
    different types. *)
Variable R : Evaluation U1 -> Evaluation U2 -> Prop.

(** Two computations that, from related states, end alike in related
    states. *)
Definition simulates {A : Type} (m1 : M U1 A) (m2 : M U2 A) : Prop :=
  forall ev1 ev2, R ev1 ev2 ->
    snd (m1 ev1) = snd (m2 ev2) /\ R (fst (m1 ev1)) (fst (m2 ev2)).

(** Two continuations so related at every call. *)
Definition simulating_yield
  (k1 : gmap string BaseElement -> option BaseElement -> M U1 unit)
  (k2 : gmap string BaseElement -> option BaseElement -> M U2 unit) : Prop :=
  forall v r, simulates (k1 v r) (k2 v r).

(** [p] run with such continuations gives such runs. *)
Definition match_simulates (p : BasePattern) : Prop :=
  forall expression y1 y2 vars hd idx cnt,
    simulating_yield y1 y2 ->
    simulates (match_ p expression (mkContext y1 vars hd idx cnt))
              (match_ p expression (mkContext y2 vars hd idx cnt)).

End Simulation_def.

(** ** Induction over nested lists *)

Section BaseElement_induction.
Variable P : BaseElement -> Prop.
Hypothesis HInteger : forall v, P (Integer v).
Hypothesis HString : forall v, P (String v).
Hypothesis HSymbol : forall n, P (Symbol n).
Hypothesis HExpression :
  forall h es, P h -> Forall P es -> P (Expression h es).
Hypothesis HDispatch : forall l, Forall P l -> P (Dispatch l).

Fixpoint BaseElement_nested_ind (e : BaseElement) : P e :=
  let fix all (l : list BaseElement) : Forall P l :=
    match l with
    | [] => List.Forall_nil P
    | x :: r => List.Forall_cons P x r (BaseElement_nested_ind x) (all r)
    end in
  match e with
  | Integer v => HInteger v
  | String v => HString v
  | Symbol n => HSymbol n
  | Expression h es => HExpression h es (BaseElement_nested_ind h) (all es)
  | Dispatch l => HDispatch l (all l)
  end.
End BaseElement_induction.

Section BasePattern_induction.
Variable P : BasePattern -> Prop.
Hypothesis HAtomPattern : forall atom, P (AtomPattern atom).
Hypothesis HExpressionPattern :
  forall hp eps, P hp -> Forall P eps -> P (ExpressionPattern hp eps).
Hypothesis HBlank : forall head, P (Blank head).
Hypothesis HBlankSequence : forall head, P (BlankSequence head).
Hypothesis HBlankNullSequence : forall head, P (BlankNullSequence head).
Hypothesis HPattern : forall varname q, P q -> P (Pattern varname q).
Hypothesis HOptional : forall q default, P q -> P (Optional q default).
Hypothesis HAlternatives : forall alts, Forall P alts -> P (Alternatives alts).
Hypothesis HExcept : forall c q, P c -> P q -> P (Except c q).
Hypothesis HVerbatim : forall content, P (Verbatim content).
Hypothesis HHoldPattern : forall q, P q -> P (HoldPattern q).
Hypothesis HPatternTest : forall q test, P q -> P (PatternTest q test).
Hypothesis HCondition : forall q test, P q -> P (Condition q test).
Hypothesis HRepeated : forall q mn mx, P q -> P (Repeated q mn mx).

Fixpoint BasePattern_nested_ind (p : BasePattern) : P p :=
  let fix all (l : list BasePattern) : Forall P l :=
    match l with
    | [] => List.Forall_nil P
    | x :: r => List.Forall_cons P x r (BasePattern_nested_ind x) (all r)
    end in
  match p with
  | AtomPattern atom => HAtomPattern atom
  | ExpressionPattern hp eps =>
      HExpressionPattern hp eps (BasePattern_nested_ind hp) (all eps)
  | Blank head => HBlank head
  | BlankSequence head => HBlankSequence head
  | BlankNullSequence head => HBlankNullSequence head
  | Pattern varname q => HPattern varname q (BasePattern_nested_ind q)
  | Optional q default => HOptional q default (BasePattern_nested_ind q)
  | Alternatives alts => HAlternatives alts (all alts)
  | Except c q => HExcept c q (BasePattern_nested_ind c) (BasePattern_nested_ind q)
  | Verbatim content => HVerbatim content
  | HoldPattern q => HHoldPattern q (BasePattern_nested_ind q)
  | PatternTest q test => HPatternTest q test (BasePattern_nested_ind q)
  | Condition q test => HCondition q test (BasePattern_nested_ind q)
  | Repeated q mn mx => HRepeated q mn mx (BasePattern_nested_ind q)
  end.
End BasePattern_induction.

(** * Properties *)

(** ** Structural equality *)


Lemma sameQ_list_eq (l : list BaseElement) :
  Forall (fun a => forall b, sameQ a b = true <-> a = b) l ->
  forall l',
    (fix sameQ_list (l l' : list BaseElement) {struct l} : bool :=
       match l, l' with
       | [], [] => true
       | x :: r, y :: r' => sameQ x y && sameQ_list r r'
       | _, _ => false
       end) l l' = true <-> l = l'.
Proof.
  induction 1 as [|x r Hx _ IH]; intros [|y r']; split; intros E;
    try reflexivity; try discriminate.
  - apply andb_true_iff in E as [E1 E2].
    apply Hx in E1. apply IH in E2. congruence.
  - injection E as -> ->. apply andb_true_iff. split.
    + now apply Hx.
    + now apply IH.
Qed.

Lemma sameQ_eq (a b : BaseElement) : sameQ a b = true <-> a = b.
Proof.
  revert b. induction a as [v|v|n|h es IHh IHes|l IHl] using BaseElement_nested_ind;
    intros [w|w|m|h' es'|l']; simpl; split; intros E;
    try discriminate; try reflexivity.
  - apply Z.eqb_eq in E. congruence.
  - injection E as ->. apply Z.eqb_refl.
  - apply String.eqb_eq in E. congruence.
  - injection E as ->. apply String.eqb_refl.
  - apply String.eqb_eq in E. congruence.
  - injection E as ->. apply String.eqb_refl.
  - apply andb_true_iff in E as [E1 E2].
    apply IHh in E1. apply (sameQ_list_eq es IHes) in E2. congruence.
  - injection E as -> ->. apply andb_true_iff. split.
    + now apply IHh.
    + now apply (sameQ_list_eq es' IHes).
  - apply (sameQ_list_eq l IHl) in E. congruence.
  - injection E as ->. now apply (sameQ_list_eq l' IHl).
Qed.

Lemma sameQ_refl (a : BaseElement) : sameQ a a = true.
Proof. now apply sameQ_eq. Qed.

Lemma sameQ_neq (a b : BaseElement) : sameQ a b = false <-> a <> b.
Proof.
  split.
  - intros E ->. rewrite sameQ_refl in E. discriminate.
  - intros N. destruct (sameQ a b) eqn:E; [|reflexivity].
    apply sameQ_eq in E. contradiction.
Qed.

(** [has_form("Sequence", 0)] holds of [Sequence[]] only. *)
Lemma has_form_empty_sequence (e : BaseElement) :
  has_form e "System`Sequence" [0] = true <-> e = empty_sequence.
Proof.
  split; [|now intros ->].
  destruct e as [| | |h es|]; simpl; try discriminate.
  intros H. apply andb_true_iff in H as [Hname Hlen].
  destruct h as [| |n| |]; simpl in Hname; try discriminate.
  apply String.eqb_eq in Hname. subst n.
  destruct es; [reflexivity|discriminate].
Qed.

Lemma has_form_not_empty_sequence (e : BaseElement) :
  has_form e "System`Sequence" [0] = false <-> e <> empty_sequence.
Proof.
  rewrite <- has_form_empty_sequence.
  destruct (has_form e "System`Sequence" [0]); split; congruence.
Qed.

(** ** Match counts of [Alternatives] *)

Lemma get_match_count_Alternatives_one (p : BasePattern) :
  get_match_count (Alternatives [p]) = get_match_count p.
Proof. simpl. now destruct (get_match_count p). Qed.

(** As long as no alternative changes the range found so far, the loop
    never assigns to the tuple and returns the first count. *)
Lemma get_match_count_Alternatives_same (p : BasePattern)
  (alts : list BasePattern) (mn mx : Z) :
  get_match_count p = Return (mn, Some mx) ->
  Forall (fun q => get_match_count q = Return (mn, Some mx)) alts ->
  get_match_count (Alternatives (p :: alts)) = Return (mn, Some mx).
Proof.
  intros Hp Halts. cbn. rewrite Hp. cbn.
  induction Halts as [|q l Hq _ IH]; [reflexivity|].
  rewrite Hq. cbn. rewrite Z.ltb_irrefl. cbn. rewrite Z.ltb_irrefl. cbn.
  exact IH.
Qed.

(** C9 (code defect).  [Alternatives.get_match_count] is meant to return
    the minimum of the alternatives' minimums and the maximum of their
    maximums.  On [_ | ___] the merge has to lower the minimum from 1 to
    0: the code then assigns to an element of a tuple and raises
    [TypeError], where the merge described by the claim is [(0, None)]. *)
Theorem Alternatives_get_match_count_raises :
  get_match_count (Alternatives [Blank None; BlankNullSequence None])
    = Raise TypeError
  /\ spec_alternatives_match_count [(1%Z, Some 1%Z); (0%Z, None)]
    = Some (0%Z, None).
Proof. split; reflexivity. Qed.

(** ** Range specifications of [Repeated] *)

Section Repeated_range.
Context {K : Kernel}.

Lemma Repeated_init_no_range (h element_0 : BaseElement) (min_idx : Z) :
  Repeated_init (Expression h [element_0]) min_idx =
    let* pattern := create element_0 in Return (Repeated pattern min_idx None).
Proof. reflexivity. Qed.

(** A list of one or two integers is all that passes the first test. *)
Lemma integer_list_inv (element_1 : BaseElement) :
  has_form element_1 "System`List" [1; 2] = true ->
  existsb (fun element => match get_int_value element with
                          | None => true
                          | Some _ => false
                          end) (get_elements element_1) = false ->
  (exists a, element_1 = ListExpression [Integer a])
  \/ (exists a b, element_1 = ListExpression [Integer a; Integer b]).
Proof.
  destruct element_1 as [| | |h es|]; simpl; try discriminate.
  intros Hform Hall.
  apply andb_true_iff in Hform as [Hname Hlen].
  destruct h as [| |n| |]; simpl in Hname; try discriminate.
  apply String.eqb_eq in Hname. subst n.
  destruct es as [|[a| | | |] [|[b| | | |] [|? ?]]]; simpl in *; try discriminate.
  - left. now exists a.
  - right. now exists a, b.
Qed.

(** C8 (as amended).  With an explicit range argument, [Repeated.init]
    accepts a non-zero integer [n] as the maximum (the minimum stays the
    default), a list [{n}] as minimum and maximum [n], and a list
    [{a, b}] as minimum [a] and maximum [b], whatever the signs; the
    compilation of the sub-pattern apart, every argument that is neither
    an integer nor such a list is rejected with the [range] error. *)
Theorem Repeated_init_range (h element_0 : BaseElement) (min_idx : Z) :
  (forall n, n <> 0%Z ->
     Repeated_init (Expression h [element_0; Integer n]) min_idx =
       let* pattern := create element_0 in
       Return (Repeated pattern min_idx (Some n)))
  /\ (forall n,
       Repeated_init (Expression h [element_0; ListExpression [Integer n]]) min_idx =
         let* pattern := create element_0 in
         Return (Repeated pattern n (Some n)))
  /\ (forall a b,
       Repeated_init
         (Expression h [element_0; ListExpression [Integer a; Integer b]]) min_idx =
         let* pattern := create element_0 in
         Return (Repeated pattern a (Some b)))
  /\ (forall element_1,
       get_int_value element_1 = None ->
       (forall a, element_1 <> ListExpression [Integer a]) ->
       (forall a b, element_1 <> ListExpression [Integer a; Integer b]) ->
       Repeated_init (Expression h [element_0; element_1]) min_idx =
         let* pattern := create element_0 in
         Raise (PatternError "Repeated" "range")).
Proof.
  split; [|split; [|split]].
  - intros n Hn. unfold Repeated_init. simpl.
    destruct (create element_0); simpl; [|reflexivity].
    destruct (Z.eqb_spec n 0); [contradiction|reflexivity].
  - intros n. reflexivity.
  - intros a b. reflexivity.
  - intros element_1 Hint H1 H2. unfold Repeated_init. simpl.
    destruct (create element_0); simpl; [|reflexivity].
    rewrite Hint. simpl.
    destruct (has_form element_1 "System`List" [1; 2]) eqn:Hform; simpl;
      [|reflexivity].
    destruct (existsb _ (get_elements element_1)) eqn:Hall; simpl;
      [reflexivity|].
    destruct (integer_list_inv element_1 Hform Hall) as [[x Hx]|[x [y Hxy]]].
    + now apply H1 in Hx.
    + now apply H2 in Hxy.
Qed.

End Repeated_range.

Lemma Repeated_init_range_witness :
  Repeated_init (K := plain_kernel)
    (Expression (Symbol "System`Repeated") [Symbol "a"; Integer 3]) 1
  = Return (Repeated (AtomPattern (Symbol "a")) 1 (Some 3%Z))
  /\ Repeated_init (K := plain_kernel)
       (Expression (Symbol "System`Repeated") [Symbol "a"; Symbol "b"]) 1
     = Raise (PatternError "Repeated" "range").
Proof.
  destruct (Repeated_init_range (K := plain_kernel)
              (Symbol "System`Repeated") (Symbol "a") 1) as (H1 & _ & _ & H4).
  split.
  - apply (H1 3%Z). lia.
  - apply (H4 (Symbol "b")).
    + reflexivity.
    + discriminate.
    + discriminate.
Defined.

(** A negative maximum is accepted, although the specification asks for
    non-negative integers. *)
Lemma Repeated_init_negative_accepted :
  Repeated_init (K := plain_kernel)
    (Expression (Symbol "System`Repeated") [Symbol "a"; Integer (-1)]) 1
  = Return (Repeated (AtomPattern (Symbol "a")) 1 (Some (-1)%Z))
  /\ spec_range_ok (Integer (-1)) = false.
Proof. split; reflexivity. Qed.

(** The maximum [0] is rejected: [0] is false as a condition. *)
Lemma Repeated_init_zero_rejected :
  Repeated_init (K := plain_kernel)
    (Expression (Symbol "System`Repeated") [Symbol "a"; Integer 0]) 1
  = Raise (PatternError "Repeated" "range").
Proof. reflexivity. Qed.

(** ** Sequence wildcards *)

Section Sequence_wildcards.
Context {U : Type} {K : Kernel}.

(** The empty run of sibling elements, as the positional matcher hands
    it over. *)
Lemma wrap_run_empty : wrap_run [] = empty_sequence.
Proof. reflexivity. Qed.

Lemma heads_all_sameQ (h : BaseElement) (elements : list BaseElement) :
  forallb (fun element => sameQ (get_head element) h) elements = true ->
  forall element, element ∈ elements -> get_head element = h.
Proof.
  intros Hall element Hin. apply list_elem_of_In in Hin.
  rewrite forallb_forall in Hall. apply sameQ_eq. now apply Hall.
Qed.

(** C6.  [BlankSequence] asks for a run of at least one element and
    [BlankNullSequence] for a run of any length.  [BlankSequence] never
    succeeds on the empty sequence, whatever its head argument and
    whatever the continuation; [BlankNullSequence[]] always succeeds on it,
    calling the continuation once with the bindings unchanged; and when
    [BlankSequence[h]] or [BlankNullSequence[h]] succeeds on a run, every
    element of the run has head [h]. *)
Theorem BlankSequence_BlankNullSequence_arity (ctx : pattern_context U) :
  (forall head,
     get_match_count (BlankSequence head) = Return (1%Z, None)
     /\ get_match_count (BlankNullSequence head) = Return (0%Z, None))
  /\ (forall head,
     match_ (BlankSequence head) empty_sequence ctx = ret tt)
  /\ match_ (BlankNullSequence None) empty_sequence ctx
     = yield_func ctx (vars_dict ctx) None
  /\ (forall head ev, ~ match_succeeds (BlankSequence head) empty_sequence ctx ev)
  /\ (forall ev, match_succeeds (BlankNullSequence None) empty_sequence ctx ev)
  /\ (forall h expression ev,
        match_succeeds (BlankSequence (Some h)) expression ctx ev ->
        get_sequence expression <> []
        /\ forall element,
             element ∈ get_sequence expression -> get_head element = h)
  /\ (forall h expression ev,
        match_succeeds (BlankNullSequence (Some h)) expression ctx ev ->
        forall element,
          element ∈ get_sequence expression -> get_head element = h).
Proof.
  split; [|split; [|split; [|split; [|split; [|split]]]]].
  - intros head. split; reflexivity.
  - intros head. reflexivity.
  - reflexivity.
  - intros head ev. unfold match_succeeds, first_success. simpl. discriminate.
  - intros ev. reflexivity.
  - intros h expression ev. unfold match_succeeds, first_success. simpl.
    destruct (get_sequence expression) as [|e l] eqn:Hseq; [discriminate|].
    destruct (forallb _ (e :: l)) eqn:Hall; [|discriminate].
    intros _. split; [discriminate|]. now apply heads_all_sameQ.
  - intros h expression ev. unfold match_succeeds, first_success. simpl.
    destruct (forallb _ (get_sequence expression)) eqn:Hall; [|discriminate].
    intros _. now apply heads_all_sameQ.
Qed.

End Sequence_wildcards.

Lemma BlankSequence_BlankNullSequence_arity_witness :
  get_head (Integer 1) = Symbol "System`Integer"
  /\ get_head (Integer 2) = Symbol "System`Integer".
Proof.
  pose proof (BlankSequence_BlankNullSequence_arity (U := unit) (K := plain_kernel)
                (fresh_context (fun _ _ => ret tt) ∅)) as (_ & _ & _ & _ & _ & H & _).
  destruct (H (Symbol "System`Integer")
              (Expression SymbolSequence [Integer 1; Integer 2])
              (mkEvaluation [] tt)) as [_ Hheads].
  - reflexivity.
  - split; apply Hheads.
    + apply list_elem_of_here.
    + apply list_elem_of_further, list_elem_of_here.
Defined.

(** ** Equations of the matcher *)

Section Matcher_equations.
Context {U : Type} {K : Kernel}.

Lemma bind_ret_tt (m : M U unit) (ev : Evaluation U) :
  (m ;; ret tt) ev = m ev.
Proof. unfold bind, ret. destruct (m ev) as [ev' [[]|e]]; reflexivity. Qed.

Lemma widths_one_nil : widths 1 (Some 1%Z) 0 = [].
Proof. reflexivity. Qed.

Lemma widths_one_cons (n : nat) : widths 1 (Some 1%Z) (S n) = [1].
Proof.
  unfold widths. change (seq 0 (S (S n))) with (0 :: 1 :: seq 2 n). simpl.
  f_equal. rewrite <- (List.filter_false (seq 2 n)).
  apply List.filter_ext_in. intros w Hw. apply List.in_seq in Hw.
  apply andb_false_iff. right. apply Z.leb_gt. lia.
Qed.

(** A sub-pattern that takes exactly one element is matched against the
    next element, and fails when none is left. *)
Lemma match_elements_one
  (match_q : BasePattern -> BaseElement -> pattern_context U -> M U unit)
  (y : gmap string BaseElement -> option BaseElement -> M U unit)
  (h : BaseElement) (count : Z) (q : BasePattern) (qs : list BasePattern)
  (index : Z) (e : BaseElement) (rest : list BaseElement)
  (vars : gmap string BaseElement) (ev : Evaluation U) :
  get_match_count q = Return default_match_count ->
  match_elements match_q y h count (q :: qs) index (e :: rest) vars ev =
    match_q q e
      (mkContext (fun vars' _ => match_elements match_q y h count qs (index + 1)%Z rest vars')
         vars (Some h) (Some index) (Some count)) ev.
Proof.
  intros Hq. simpl match_elements. rewrite Hq.
  unfold bind at 1, lift. simpl length. simpl fst. simpl snd.
  rewrite widths_one_cons. simpl for_each. rewrite bind_ret_tt.
  reflexivity.
Qed.

Lemma match_Pattern_bound (varname : string) (q : BasePattern)
  (expression : BaseElement) (ctx : pattern_context U) (existing : BaseElement) :
  vars_dict ctx !! varname = Some existing ->
  match_ (Pattern varname q) expression ctx =
    if sameQ existing expression then yield_func ctx (vars_dict ctx) None
    else ret tt.
Proof. intros H. simpl. now rewrite H. Qed.

Lemma match_Pattern_unbound (varname : string) (q : BasePattern)
  (expression : BaseElement) (ctx : pattern_context U) :
  vars_dict ctx !! varname = None ->
  match_ (Pattern varname q) expression ctx =
    match_ q expression
      (with_vars_dict ctx (<[varname := expression]> (vars_dict ctx))).
Proof. intros H. simpl. now rewrite H. Qed.

Lemma match_ExpressionPattern (hp : BasePattern) (eps : list BasePattern)
  (h : BaseElement) (es : list BaseElement) (ctx : pattern_context U) :
  match_ (ExpressionPattern hp eps) (Expression h es) ctx =
    match_ hp h
      (fresh_context
         (fun vars _ =>
            match_elements match_ (yield_func ctx) h (Z.of_nat (length eps))
              eps 1%Z es vars)
         (vars_dict ctx)).
Proof. reflexivity. Qed.

Lemma match_AtomPattern (atom expression : BaseElement)
  (ctx : pattern_context U) :
  match_ (AtomPattern atom) expression ctx =
    if sameQ atom expression then yield_func ctx (vars_dict ctx) None
    else ret tt.
Proof. reflexivity. Qed.

Lemma match_Blank_None (expression : BaseElement) (ctx : pattern_context U) :
  match_ (Blank None) expression ctx =
    if negb (has_form expression "System`Sequence" [0])
    then yield_func ctx (vars_dict ctx) None else ret tt.
Proof. reflexivity. Qed.

(** [f[x_, x_]] against [f[a, b]], for any continuation: one success,
    binding [x] to [a], when [a] is not the empty sequence and [b] is the
    same as [a]; no success otherwise. *)
Lemma match_f_x_x (f x : string) (a b : BaseElement)
  (k : gmap string BaseElement -> option BaseElement -> M U unit)
  (ev : Evaluation U) :
  match_ (f_x_x f x) (Expression (Symbol f) [a; b]) (fresh_context k ∅) ev =
    if negb (has_form a "System`Sequence" [0]) && sameQ a b
    then k {[x := a]} None ev else (ev, Return tt).
Proof.
  unfold f_x_x. rewrite match_ExpressionPattern, match_AtomPattern.
  rewrite sameQ_refl. cbn [yield_func vars_dict fresh_context].
  rewrite match_elements_one by reflexivity.
  rewrite match_Pattern_unbound by apply lookup_empty.
  rewrite match_Blank_None.
  destruct (has_form a "System`Sequence" [0]) eqn:Ha; [reflexivity|].
  cbn [negb andb yield_func vars_dict with_vars_dict].
  rewrite match_elements_one by reflexivity.
  rewrite (match_Pattern_bound x (Blank None) b _ a)
    by (simpl; apply lookup_insert_eq).
  cbn [yield_func vars_dict]. destruct (sameQ a b); reflexivity.
Qed.

End Matcher_equations.

(** ** Bindings are never changed *)

Section Binding_invariant.
Context {U : Type} {K : Kernel}.

Lemma for_each_ext {A : Type} (body body' : A -> M U unit) (l : list A) :
  Forall (fun x => forall ev, body x ev = body' x ev) l ->
  forall ev, for_each body l ev = for_each body' l ev.
Proof.
  induction 1 as [|x r Hx _ IH]; intros ev; simpl; [reflexivity|].
  unfold bind. rewrite Hx. destruct (body' x ev) as [ev' [[]|e]]; [apply IH|reflexivity].
Qed.

Lemma match_elements_extends (y y' : gmap string BaseElement -> option BaseElement -> M U unit)
  (vars0 : gmap string BaseElement) (h : BaseElement) (count : Z)
  (ps : list BasePattern) :
  Forall (extends_only (U := U)) ps ->
  agree_above vars0 y y' ->
  forall index rest vars ev,
    vars0 ⊆ vars ->
    match_elements match_ y h count ps index rest vars ev =
    match_elements match_ y' h count ps index rest vars ev.
Proof.
  intros Hps Hy. induction Hps as [|q qs Hq _ IH]; intros index rest vars ev Hsub.
  - simpl. destruct rest; [now apply Hy|reflexivity].
  - simpl. destruct (get_match_count q) as [mc|e]; [|reflexivity].
    unfold bind, lift. fold (@bind U unit unit).
    apply for_each_ext. apply Forall_forall. intros w _ ev'.
    rewrite (Hq _ _ (fun vars' _ => match_elements match_ y' h count qs (index + 1)%Z (drop w rest) vars')).
    + reflexivity.
    + intros v r ev'' Hv. simpl. apply IH. simpl in Hv. now transitivity vars.
Qed.

Lemma iter_fn_extends (q : BasePattern)
  (y y' : gmap string BaseElement -> option BaseElement -> M U unit)
  (vars0 : gmap string BaseElement) :
  extends_only (U := U) q ->
  agree_above vars0 y y' ->
  forall rest vars ev,
    vars0 ⊆ vars ->
    iter_fn (match_ q) y rest vars ev = iter_fn (match_ q) y' rest vars ev.
Proof.
  intros Hq Hy rest. induction rest as [|first others IH]; intros vars ev Hsub.
  - simpl. now apply Hy.
  - simpl.
    rewrite (Hq _ _ (fun new_vars_dict _ => iter_fn (match_ q) y' others new_vars_dict)).
    + reflexivity.
    + intros v r ev' Hv. simpl. apply IH. simpl in Hv. now transitivity vars.
Qed.

Lemma match_extends_only (p : BasePattern) : extends_only (U := U) p.
Proof.
  induction p using BasePattern_nested_ind; intros expression ctx k' Hk ev.
  - simpl. destruct (sameQ atom expression); [now apply Hk|reflexivity].
  - destruct expression as [| | |h es|]; try reflexivity.
    rewrite !match_ExpressionPattern.
    cbn [yield_func vars_dict with_yield_func].
    rewrite (IHp h _ (fun vars _ => match_elements match_ k' h (Z.of_nat (length eps)) eps 1%Z es vars)).
    + reflexivity.
    + intros v r ev' Hv. simpl. apply (match_elements_extends _ _ (vars_dict ctx)); auto.
  - simpl. destruct (negb _); [|reflexivity].
    destruct head as [h|]; [destruct (sameQ _ h)|]; try reflexivity; now apply Hk.
  - simpl. destruct (get_sequence expression); [reflexivity|].
    destruct head as [h|]; [destruct (forallb _ _)|]; try reflexivity; now apply Hk.
  - simpl.
    destruct head as [h|]; [destruct (forallb _ _)|]; try reflexivity; now apply Hk.
  - simpl. destruct (vars_dict ctx !! varname) as [existing|] eqn:Hlook.
    + destruct (sameQ existing expression); [now apply Hk|reflexivity].
    + rewrite (IHp expression _ k'); [reflexivity|].
      intros v r ev' Hv. simpl in Hv. apply Hk.
      transitivity (<[varname:=expression]> (vars_dict ctx)); [|exact Hv].
      now apply insert_subseteq.
  - simpl.
    assert (Hq : forall d ev, match_ p d (fresh_context (yield_func ctx) (vars_dict ctx)) ev
                 = match_ p d (fresh_context k' (vars_dict ctx)) ev).
    { intros d ev'. now rewrite (IHp d _ k'). }
    destruct (has_form expression "System`Sequence" [0]); [|apply Hq].
    destruct default as [d|]; [apply Hq|].
    change (declared_default (with_yield_func ctx k')) with (declared_default ctx).
    destruct (declared_default ctx); [apply Hq|reflexivity].
  - simpl. apply for_each_ext.
    eapply Forall_impl; [exact H|]. intros q Hq ev'. now apply Hq.
  - simpl. unfold try_except.
    destruct (match_ p1 expression _ ev) as [ev' [[]|e]]; [|reflexivity].
    now apply IHp2.
  - simpl. destruct (sameQ content expression); [now apply Hk|reflexivity].
  - simpl. now apply IHp.
  - simpl. destruct (match_functions (get_name test)) as [item_ok|].
    + rewrite (IHp expression _ (fun vars_2 _ => if forallb item_ok (get_sequence expression) then k' vars_2 None else ret tt)); [reflexivity|].
      intros v r ev' Hv. simpl. destruct (forallb _ _); [now apply Hk|reflexivity].
    + rewrite (IHp expression _ (fun vars_2 _ => if forallb (pattern_test_item test) (get_sequence expression) then k' vars_2 None else ret tt)); [reflexivity|].
      intros v r ev' Hv. simpl. destruct (forallb _ _); [now apply Hk|reflexivity].
  - simpl.
    rewrite (IHp expression _ (fun new_vars_dict rest => if sameQ (evaluate (replace_vars test new_vars_dict)) SymbolTrue then k' new_vars_dict rest else ret tt)); [reflexivity|].
    intros v r ev' Hv. simpl. destruct (sameQ _ _); [now apply Hk|reflexivity].
  - simpl. destruct (Z.ltb _ mn); [reflexivity|].
    destruct (from_option _ false mx); [reflexivity|].
    apply (iter_fn_extends p _ _ (vars_dict ctx)); auto.
Qed.
End Binding_invariant.

(** ** Named patterns *)

Section Named_patterns.
Context {K : Kernel}.

(** C2 (as amended).  A name is bound at most once in a branch.  When
    the name of [Pattern[name, inner]] is already bound, the match calls
    the continuation exactly when the candidate is the same as the
    binding, and hands it the bindings unchanged: the name is not bound
    again.  Hence [f[x_, x_]] does not match [f[a, b]] for distinct [a]
    and [b], and matches [f[a, a]] once, binding [x] to [a], for every
    element [a] that [Blank] takes (every [a] but the empty
    [Sequence[]]). *)
Theorem Pattern_binds_once :
  (forall (U : Type) varname inner expression (ctx : pattern_context U) existing,
     vars_dict ctx !! varname = Some existing ->
     match_ (Pattern varname inner) expression ctx =
       if sameQ existing expression
       then yield_func ctx (vars_dict ctx) None else ret tt)
  /\ (forall (U : Type) varname inner expression (ctx : pattern_context U)
        existing ev,
        vars_dict ctx !! varname = Some existing ->
        match_succeeds (Pattern varname inner) expression ctx ev ->
        existing = expression)
  /\ (forall f x a b,
        a <> b ->
        all_matches (f_x_x f x) (Expression (Symbol f) [a; b]) = [])
  /\ (forall f x a,
        a <> empty_sequence ->
        all_matches (f_x_x f x) (Expression (Symbol f) [a; a]) = [{[x := a]}]).
Proof.
  split; [|split; [|split]].
  - intros U varname inner expression ctx existing H.
    now apply match_Pattern_bound.
  - intros U varname inner expression ctx existing ev H.
    unfold match_succeeds, first_success.
    rewrite (match_Pattern_bound varname inner expression _ existing) by exact H.
    destruct (sameQ existing expression) eqn:E; [|discriminate].
    intros _. now apply sameQ_eq.
  - intros f x a b Hab. unfold all_matches. rewrite match_f_x_x.
    apply sameQ_neq in Hab. rewrite Hab, andb_false_r. reflexivity.
  - intros f x a Ha. unfold all_matches. rewrite match_f_x_x.
    apply has_form_not_empty_sequence in Ha.
    rewrite Ha, sameQ_refl. reflexivity.
Qed.

(** C10.  When the name is already bound to the candidate, the match
    succeeds without the inner pattern being tried: the continuation is
    called at once with the bindings unchanged, whatever [inner] is. *)
Theorem Pattern_bound_skips_inner (U : Type) (varname : string)
  (inner : BasePattern) (expression : BaseElement) (ctx : pattern_context U)
  (existing : BaseElement) :
  vars_dict ctx !! varname = Some existing ->
  sameQ existing expression = true ->
  match_ (Pattern varname inner) expression ctx
    = yield_func ctx (vars_dict ctx) None
  /\ forall ev, match_succeeds (Pattern varname inner) expression ctx ev.
Proof.
  intros H E. split.
  - rewrite (match_Pattern_bound varname inner expression ctx existing H).
    now rewrite E.
  - intros ev. unfold match_succeeds, first_success.
    rewrite (match_Pattern_bound varname inner expression _ existing) by exact H.
    now rewrite E.
Qed.

End Named_patterns.

Lemma Pattern_binds_once_witness :
  all_matches (K := plain_kernel) (f_x_x "f" "x")
    (Expression (Symbol "f") [Symbol "a"; Symbol "b"]) = []
  /\ all_matches (K := plain_kernel) (f_x_x "f" "x")
       (Expression (Symbol "f") [Symbol "a"; Symbol "a"])
     = [{["x" := Symbol "a"]}]
  /\ match_ (U := unit) (K := plain_kernel) (Pattern "x" (Blank None)) (Symbol "b")
       (fresh_context (fun _ _ => ret tt) {["x" := Symbol "a"]})
     = ret tt.
Proof.
  destruct (Pattern_binds_once (K := plain_kernel)) as (H1 & _ & H4 & H5).
  split; [|split].
  - apply H4. discriminate.
  - apply H5. discriminate.
  - apply (H1 unit "x" (Blank None) (Symbol "b")
             (fresh_context (fun _ _ => ret tt) {["x" := Symbol "a"]})
             (Symbol "a")).
    reflexivity.
Defined.

(** The inner pattern [_Integer] rejects the symbol [a], yet
    [Pattern[x, _Integer]] accepts it once [x] is bound to [a]. *)
Lemma Pattern_bound_skips_inner_witness :
  match_fails (U := unit) (K := plain_kernel)
    (Blank (Some (Symbol "System`Integer"))) (Symbol "a")
    (fresh_context (fun _ _ => ret tt) {["x" := Symbol "a"]})
    (mkEvaluation [] tt)
  /\ match_succeeds (U := unit) (K := plain_kernel)
       (Pattern "x" (Blank (Some (Symbol "System`Integer")))) (Symbol "a")
       (fresh_context (fun _ _ => ret tt) {["x" := Symbol "a"]})
       (mkEvaluation [] tt).
Proof.
  split.
  - reflexivity.
  - apply (Pattern_bound_skips_inner (K := plain_kernel) unit "x"
             (Blank (Some (Symbol "System`Integer"))) (Symbol "a")
             (fresh_context (fun _ _ => ret tt) {["x" := Symbol "a"]})
             (Symbol "a")); reflexivity.
Defined.

(** ** Optional patterns without a default *)

Section Optional_default.
Context {U : Type} {K : Kernel}.

(** C7.  An [Optional] without a default of its own, on the empty
    sequence, looks the default up under the name of the enclosing head
    with the position and the number of elements of its context, from
    [Default[name, k, n]] over [Default[name, k]] to [Default[name]], and
    matches its pattern against the default it finds.  When none is found
    (or no head encloses the pattern) the match emits [nodef], never
    calls the continuation and returns normally, so that the caller goes
    on: the next alternative of an [Alternatives] is tried. *)
Theorem Optional_without_default (q : BasePattern) (ctx : pattern_context U) :
  (forall name k n,
     get_default_value name (Some k) (Some n) =
       let d3 := Expression SymbolDefault [Symbol name; Integer k; Integer n] in
       let d2 := Expression SymbolDefault [Symbol name; Integer k] in
       let d1 := Expression SymbolDefault [Symbol name] in
       match get_value name d3, get_value name d2, get_value name d1 with
       | Some r, _, _ => Some (default_result d3 r)
       | None, Some r, _ => Some (default_result d2 r)
       | None, None, Some r => Some (default_result d1 r)
       | None, None, None => None
       end)
  /\ (forall head d,
        ctx_head ctx = Some head ->
        get_default_value (get_name head) (element_index ctx) (element_count ctx)
          = Some d ->
        match_ (Optional q None) empty_sequence ctx
        = match_ q d (fresh_context (yield_func ctx) (vars_dict ctx)))
  /\ ((forall head,
         ctx_head ctx = Some head ->
         get_default_value (get_name head) (element_index ctx) (element_count ctx)
           = None) ->
      (forall ev,
         match_ (Optional q None) empty_sequence ctx ev =
           (mkEvaluation (out ev ++ [nodef_message ctx]) (locals ev), Return tt))
      /\ (forall ev, match_fails (Optional q None) empty_sequence ctx ev)
      /\ (forall rest ev,
            match_ (Alternatives (Optional q None :: rest)) empty_sequence ctx ev =
              match_ (Alternatives rest) empty_sequence ctx
                (mkEvaluation (out ev ++ [nodef_message ctx]) (locals ev)))).
Proof.
  split; [|split].
  - intros name k n. unfold get_default_value, default_result. simpl.
    destruct (get_value name _); [reflexivity|].
    destruct (get_value name _); [reflexivity|].
    destruct (get_value name _); reflexivity.
  - intros head d Hhead Hd. cbn [match_].
    change (has_form empty_sequence "System`Sequence" [0]) with true.
    cbv iota. unfold declared_default. now rewrite Hhead, Hd.
  - intros Hlookup.
    assert (Hnone : declared_default ctx = None).
    { unfold declared_default. destruct (ctx_head ctx) as [head|]; [|reflexivity].
      now apply Hlookup. }
    assert (Hrun : forall (c : pattern_context U),
               declared_default c = None ->
               match_ (Optional q None) empty_sequence c =
                 evaluation_message "Pattern" "nodef"
                   [from_option ArgExpr ArgNone (ctx_head c);
                    from_option ArgInt ArgNone (element_index c);
                    from_option ArgInt ArgNone (element_count c)]).
    { intros c Hc. simpl. now rewrite Hc. }
    split; [|split].
    + intros ev. now rewrite Hrun.
    + intros ev. unfold match_fails, first_success.
      now rewrite Hrun.
    + intros rest ev. simpl match_ at 1. simpl for_each.
      unfold bind. rewrite Hnone. reflexivity.
Qed.

End Optional_default.

(** [h[x_, y_.]] against [h[a]]: in the second slot of two under the head
    [h], with [Default[h, k_] := k], the pattern [y_] is matched against
    the default [2]; when no default is declared for the head, the message
    is emitted and nothing matches. *)
Lemma Optional_without_default_witness :
  match_ (U := unit) (K := default_kernel)
    (Optional (Pattern "y" (Blank None)) None) empty_sequence
    (mkContext (fun _ _ => raise TypeError) {["x" := Symbol "a"]}
       (Some (Symbol "h")) (Some 2%Z) (Some 2%Z))
  = match_ (U := unit) (K := default_kernel)
      (Pattern "y" (Blank None)) (Integer 2)
      (fresh_context (fun _ _ => raise TypeError) {["x" := Symbol "a"]})
  /\ match_ (U := unit) (K := plain_kernel)
       (Optional (Pattern "y" (Blank None)) None) empty_sequence
       (mkContext (fun _ _ => raise TypeError) {["x" := Symbol "a"]}
          (Some (Symbol "f")) (Some 2%Z) (Some 2%Z))
       (mkEvaluation [] tt)
     = (mkEvaluation
          [mkMessage "Pattern" "nodef"
             [ArgExpr (Symbol "f"); ArgInt 2; ArgInt 2]] tt,
        Return tt).
Proof.
  split.
  - apply (proj1 (proj2 (Optional_without_default (U := unit) (K := default_kernel)
             (Pattern "y" (Blank None))
             (mkContext (fun _ _ => raise TypeError) {["x" := Symbol "a"]}
                (Some (Symbol "h")) (Some 2%Z) (Some 2%Z))))
             (Symbol "h") (Integer 2)); reflexivity.
  - apply (Optional_without_default (U := unit) (K := plain_kernel)
             (Pattern "y" (Blank None))
             (mkContext (fun _ _ => raise TypeError) {["x" := Symbol "a"]}
                (Some (Symbol "f")) (Some 2%Z) (Some 2%Z))).
    intros head _. reflexivity.
Defined.

(** The example of the documentation of [Optional]:
    [Default[h, k_] := k; h[a] /. h[x_, y_.] -> {x, y}] gives [{a, 2}].
    The default of the second slot is looked up under the head [h] at its
    position. *)
Example declared_default_fills_in :
  let p := ExpressionPattern (AtomPattern (Symbol "h"))
             [Pattern "x" (Blank None);
              Optional (Pattern "y" (Blank None)) None] in
  all_matches (K := default_kernel) p (Expression (Symbol "h") [Symbol "a"])
  = [<["x" := Symbol "a"]> {["y" := Integer 2]}].
Proof. vm_compute. reflexivity. Qed.

(** The rules [f[x_, y_.] -> g[x, y]] and [f[x_] -> h[x]] applied to
    [f[a]] without any default declared for [f]: the first rule emits
    [nodef] and gives nothing, the second rule is tried and gives
    [h[a]]. *)
Lemma Optional_without_default_next_rule :
  let f_ := AtomPattern (Symbol "f") in
  let x_ := Pattern "x" (Blank None) in
  let rule1 := mkRule (ExpressionPattern f_ [x_; Optional (Pattern "y" (Blank None)) None])
                 (Expression (Symbol "g") [Symbol "x"; Symbol "y"]) in
  let rule2 := mkRule (ExpressionPattern f_ [x_])
                 (Expression (Symbol "h") [Symbol "x"]) in
  ReplaceList_loop (U := unit) (K := plain_kernel) [rule1; rule2]
    (Expression (Symbol "f") [Symbol "a"]) None [] (mkEvaluation [] tt)
  = (mkEvaluation
       [mkMessage "Pattern" "nodef"
          [ArgExpr (Symbol "f"); ArgInt 2; ArgInt 2]] tt,
     Return [Expression (Symbol "h") [Symbol "a"]]).
Proof. vm_compute. reflexivity. Qed.

(** ** [Except] *)

Section Except_negation.
Context {U : Type} {K : Kernel}.

(** [Except.match] for any continuation: the excluded pattern is run
    with a continuation that stops it at its first success; the fallback
    is matched only when the excluded pattern returns without one. *)
Lemma match_Except (c p : BasePattern) (expression : BaseElement)
  (ctx : pattern_context U) (ev : Evaluation U) :
  match_ (Except c p) expression ctx ev =
    match match_ c expression (with_yield_func ctx except_yield_func) ev with
    | (ev', Return _) => match_ p expression ctx ev'
    | (ev', Raise StopGeneratorExcept) => (ev', Return tt)
    | (ev', Raise e) => (ev', Raise e)
    end.
Proof.
  simpl. unfold try_except.
  destruct (match_ c expression _ ev) as [ev' [[]|[]]]; reflexivity.
Qed.

(** C3 (as amended).  On every candidate but the empty sequence
    [Sequence[]], [Except[c]] succeeds if and only if [c] fails; on the
    empty sequence [Except[c]] never succeeds, because its fallback
    [Blank[]] does not take it. *)
Theorem Except_succeeds_iff_excluded_fails (c : BasePattern)
  (expression : BaseElement) (ctx : pattern_context U) (ev : Evaluation U) :
  (expression <> empty_sequence ->
   (match_succeeds (Except c (Blank None)) expression ctx ev
    <-> match_fails c expression ctx ev))
  /\ (expression = empty_sequence ->
      ~ match_succeeds (Except c (Blank None)) expression ctx ev).
Proof.
  rewrite <- has_form_not_empty_sequence, <- has_form_empty_sequence.
  unfold match_succeeds, match_fails, first_success.
  rewrite match_Except.
  change (with_yield_func (with_yield_func ctx except_yield_func) except_yield_func)
    with (with_yield_func ctx except_yield_func).
  destruct (match_ c expression (with_yield_func ctx except_yield_func) ev)
    as [ev' [[]|e]]; simpl.
  - split; intros Hform; rewrite Hform; simpl.
    + split; reflexivity.
    + discriminate.
  - split; intros Hform.
    + split; [|discriminate].
      destruct e; simpl; discriminate.
    + destruct e; simpl; discriminate.
Qed.

End Except_negation.

Lemma Except_succeeds_iff_excluded_fails_witness :
  match_succeeds (U := unit) (K := plain_kernel)
    (Except (AtomPattern (Symbol "x")) (Blank None)) (Symbol "a")
    (fresh_context (fun _ _ => ret tt) ∅) (mkEvaluation [] tt).
Proof.
  apply (Except_succeeds_iff_excluded_fails (U := unit) (K := plain_kernel)
           (AtomPattern (Symbol "x")) (Symbol "a")
           (fresh_context (fun _ _ => ret tt) ∅) (mkEvaluation [] tt)).
  - discriminate.
  - reflexivity.
Defined.

(** On the empty sequence [Blank[]] fails and [Except[Blank[]]] does not
    succeed either. *)
Lemma Except_empty_sequence_counterexample :
  match_fails (U := unit) (K := plain_kernel)
    (Blank None) empty_sequence
    (fresh_context (fun _ _ => ret tt) ∅) (mkEvaluation [] tt)
  /\ ~ match_succeeds (U := unit) (K := plain_kernel)
        (Except (Blank None) (Blank None)) empty_sequence
        (fresh_context (fun _ _ => ret tt) ∅) (mkEvaluation [] tt).
Proof. split; [reflexivity|discriminate]. Qed.

(** ** Invalid rules *)

Section Rule_normalisation.
Context {U : Type} {K : Kernel}.

(** The pattern compiler fails with a [PatternError] only. *)
Hypothesis create_raises_PatternError :
  forall e x, create e = Raise x -> exists n t, x = PatternError n t.

(** One round of the last loop of [create_rules] on a compound
    expression, whose attribute [head] is what [get_head] returns. *)
Lemma create_rules_loop_Expression (name : string) (h : BaseElement)
  (es rest : list BaseElement) (result : list Rule) :
  let rule := Expression h es in
  create_rules_loop (U := U) name (rule :: rest) result =
    if negb (head_in rule [SymbolRule; SymbolRuleDelayed]) then
      evaluation_message name "reps" [ArgExpr rule] ;;
      ret (FinalResult None)
    else
      match get_elements rule with
      | [lhs; rhs] =>
          bind (lift (Rule_new lhs rhs)) (fun r =>
          create_rules_loop name rest (result ++ [r]))
      | _ =>
          evaluation_message (get_head_name rule) "argrx"
            [ArgStr (get_head_name rule); ArgInt 3; ArgInt 2] ;;
          ret (FinalResult None)
      end.
Proof. reflexivity. Qed.

(** On an atom the loop raises at once. *)
Lemma create_rules_loop_atom (name : string) (rule : BaseElement)
  (rest : list BaseElement) (result : list Rule) (ev : Evaluation U) :
  is_Atom rule = true ->
  create_rules_loop name (rule :: rest) result ev = (ev, Raise AttributeError).
Proof. destruct rule; try discriminate; reflexivity. Qed.



(** The part of [create_rules] after the [Dispatch] cases. *)
Lemma create_rules_not_Dispatch (rules_expr expr : BaseElement) (name : string)
  (extra_args : option (list BaseElement)) :
  not_Dispatch rules_expr = true ->
  create_rules (U := U) rules_expr expr name extra_args =
    let rules := rule_items rules_expr in
    if existsb (fun item => head_in item [SymbolList; SymbolDispatch]) rules
    then if forallb (fun item => sameQ (get_head item) SymbolList) rules
         then ret (FinalResult (Some (ListExpression
                (map (fun item => Expression (Symbol name)
                                    (expr :: item :: from_option id [] extra_args))
                   rules))))
         else evaluation_message name "rmix" [ArgExpr rules_expr] ;;
              ret (FinalResult None)
    else create_rules_loop name rules [].
Proof.
  intros Hnd.
  destruct rules_expr as [v|v|n|h es|l]; try discriminate; try reflexivity.
  unfold create_rules. unfold not_Dispatch in Hnd.
  destruct (has_form_any (Expression h es) "System`Dispatch");
    [discriminate|reflexivity].
Qed.










End Rule_normalisation.




(** A rule argument whose elements are all lists is no error, although
    none of its elements is a rule: the driver is threaded over the
    lists without any diagnostic. *)
Lemma list_of_lists_is_threaded :
  ReplaceAll_eval (U := unit) (K := plain_kernel) (Symbol "x")
    (ListExpression [ListExpression [rule_expr (Symbol "x") (Symbol "y")]])
    (mkEvaluation [] tt)
  = (mkEvaluation [] tt,
     Return (Some (ListExpression
       [Expression (Symbol "ReplaceAll")
          [Symbol "x"; ListExpression [rule_expr (Symbol "x") (Symbol "y")]]]))).
Proof. reflexivity. Qed.

(** ** [ReplaceList] *)

(** C4 (code defect).  [ReplaceList[expr, rules, n]] is documented to
    return at most [n] results, a prefix of the full enumeration.  The
    loop of [ReplaceList.eval] hands the limit to every rule on its own
    and concatenates what the rules return: [ReplaceList[a, {a -> b,
    a -> c}, 1]] is [{b, c}], two results, which is also what the limit
    [2] gives, whose first element alone is [{b}]. *)
Theorem ReplaceList_limit_is_per_rule :
  let rules := ListExpression [rule_expr (Symbol "a") (Symbol "b");
                               rule_expr (Symbol "a") (Symbol "c")] in
  ReplaceList_eval (U := unit) (K := plain_kernel) (Symbol "a") rules (Integer 1)
    (mkEvaluation [] tt)
  = (mkEvaluation [] tt, Return (Some (ListExpression [Symbol "b"; Symbol "c"])))
  /\ ReplaceList_eval (U := unit) (K := plain_kernel) (Symbol "a") rules (Integer 2)
       (mkEvaluation [] tt)
     = (mkEvaluation [] tt, Return (Some (ListExpression [Symbol "b"; Symbol "c"]))).
Proof. split; vm_compute; reflexivity. Qed.

(** With one rule the limit does cut the enumeration: the scenario
    [ReplaceList[{a, b, c}, {___, x__, ___} -> {x}, 3]]. *)
Lemma ReplaceList_subsequences :
  let lhs := ExpressionPattern (AtomPattern SymbolList)
               [BlankNullSequence None; Pattern "x" (BlankSequence None);
                BlankNullSequence None] in
  let rule := mkRule lhs (ListExpression [Symbol "x"]) in
  let abc := ListExpression [Symbol "a"; Symbol "b"; Symbol "c"] in
  let seq2 x y := Expression SymbolSequence [x; y] in
  let seq3 x y z := Expression SymbolSequence [x; y; z] in
  snd (Rule_apply (U := unit) (K := plain_kernel) rule abc None (mkEvaluation [] tt))
  = Return [ListExpression [Symbol "a"];
            ListExpression [seq2 (Symbol "a") (Symbol "b")];
            ListExpression [seq3 (Symbol "a") (Symbol "b") (Symbol "c")];
            ListExpression [Symbol "b"];
            ListExpression [seq2 (Symbol "b") (Symbol "c")];
            ListExpression [Symbol "c"]]
  /\ snd (Rule_apply (U := unit) (K := plain_kernel) rule abc (Some 3%Z)
            (mkEvaluation [] tt))
     = Return [ListExpression [Symbol "a"];
               ListExpression [seq2 (Symbol "a") (Symbol "b")];
               ListExpression [seq3 (Symbol "a") (Symbol "b") (Symbol "c")]].
Proof. split; vm_compute; reflexivity. Qed.

(** ** [ReplaceRepeated] *)

Section ReplaceRepeated_loop_properties.
Context {K : Kernel}.

(** One pass of the loop body on [expr]: the result of [do_apply_rules],
    evaluated when a rule was applied. *)
Lemma ReplaceRepeated_loop_step (fuel : nat) (rules : list Rule) (m : Z)
  (expr : BaseElement) (result : option BaseElement) (calls : nat) :
  m <> 0%Z ->
  ReplaceRepeated_loop (S fuel) rules (Some m) expr result calls =
    let '(res, applied) := do_apply_rules expr rules in
    let res := if applied then evaluate res else res in
    if applied && negb (sameQ res expr)
    then ReplaceRepeated_loop fuel rules (Some (m - 1)%Z) res (Some res) (S calls)
    else Some (Return res, S calls).
Proof. intros Hm. simpl. destruct m; [contradiction|reflexivity|reflexivity]. Qed.

(** X18.  The cap of [ReplaceRepeated] is honoured.  With a cap
    [n >= 0] the loop ends within [n + 1] iterations and calls
    [do_apply_rules] at most [n] times; it returns the last result when
    there is one, which is the case for every cap [n >= 1]. *)
Lemma ReplaceRepeated_loop_capped (rules : list Rule) (n : nat) :
  forall fuel expr result calls,
    n < fuel ->
    exists r k,
      ReplaceRepeated_loop fuel rules (Some (Z.of_nat n)) expr result calls
        = Some (r, calls + k)
      /\ k <= n
      /\ (is_Some result \/ 0 < n -> exists x, r = Return x).
Proof.
  induction n as [|n IH]; intros fuel expr result calls Hfuel.
  - destruct fuel as [|fuel]; [lia|]. simpl.
    exists (from_option Return (Raise UnboundLocalError) result), 0.
    split; [now rewrite Nat.add_0_r|]. split; [lia|].
    intros [[x ->]|H]; [now exists x|lia].
  - destruct fuel as [|fuel]; [lia|].
    rewrite ReplaceRepeated_loop_step by lia.
    destruct (do_apply_rules expr rules) as [res applied]. cbv zeta.
    set (res' := if applied then evaluate res else res).
    destruct (applied && negb (sameQ res' expr)).
    + replace (Z.of_nat (S n) - 1)%Z with (Z.of_nat n) by lia.
      destruct (IH fuel res' (Some res') (S calls)) as (r & k & Hr & Hk & Hx);
        [lia|].
      exists r, (S k). split; [rewrite Hr; f_equal; f_equal; lia|].
      split; [lia|]. intros _. apply Hx. left. eauto.
    + exists (Return res'), 1. split; [f_equal; f_equal; lia|].
      split; [lia|]. intros _. now exists res'.
Qed.

(** The loop stops as soon as a pass applies no rule or gives back the
    expression it started from. *)
Lemma ReplaceRepeated_loop_stops (fuel : nat) (rules : list Rule) (m : Z)
  (expr : BaseElement) (result : option BaseElement) (calls : nat) :
  m <> 0%Z ->
  (snd (do_apply_rules expr rules) = false
   \/ evaluate (fst (do_apply_rules expr rules)) = expr) ->
  ReplaceRepeated_loop (S fuel) rules (Some m) expr result calls =
    Some (Return (if snd (do_apply_rules expr rules)
                  then evaluate (fst (do_apply_rules expr rules))
                  else fst (do_apply_rules expr rules)), S calls).
Proof.
  intros Hm Hstop. rewrite ReplaceRepeated_loop_step by exact Hm.
  destruct (do_apply_rules expr rules) as [res applied]. simpl in *.
  destruct applied; simpl; [|reflexivity].
  destruct Hstop as [Hstop|Hstop]; [discriminate|].
  rewrite Hstop, sameQ_refl. reflexivity.
Qed.

(** X19.  Without a cap (a negative limit, which is what an option
    value that is not numeric gives) the loop of [ReplaceRepeated]
    returns only from a pass that applied no rule or gave back the
    expression it started from: the value returned is the outcome of a
    pass that changed nothing. *)
Lemma ReplaceRepeated_loop_uncapped (rules : list Rule) (fuel : nat) :
  forall m expr result calls r k,
    (m < 0)%Z ->
    ReplaceRepeated_loop fuel rules (Some m) expr result calls = Some (r, k) ->
    exists e,
      let '(res, applied) := do_apply_rules e rules in
      r = Return (if applied then evaluate res else res)
      /\ (applied = false \/ evaluate res = e).
Proof.
  induction fuel as [|fuel IH]; intros m expr result calls r k Hm Hrun;
    [discriminate|].
  rewrite ReplaceRepeated_loop_step in Hrun by lia.
  destruct (do_apply_rules expr rules) as [res applied] eqn:Hstep.
  destruct applied; simpl in Hrun.
  - destruct (sameQ (evaluate res) expr) eqn:Hsame; simpl in Hrun.
    + injection Hrun as <- _. exists expr. rewrite Hstep.
      split; [reflexivity|]. right. now apply sameQ_eq.
    + apply (IH (m - 1)%Z _ _ _ _ _ ltac:(lia) Hrun).
  - injection Hrun as <- _. exists expr. rewrite Hstep.
    split; [reflexivity|]. now left.
Qed.

(** C1 (code defect).  [ReplaceRepeated] is to apply the rules at most
    [MaxIterations] times and to return the last result.  With
    [MaxIterations -> 0] the loop is left before [result] is assigned, and
    [return result] raises [UnboundLocalError] instead of returning the
    expression: no rule is applied and nothing is returned, whatever the
    expression and the rules. *)
Theorem ReplaceRepeated_zero_iterations (fuel : nat) (rules : list Rule)
  (expr : BaseElement) :
  ReplaceRepeated_loop (S fuel) rules (Some 0%Z) expr None 0
    = Some (Raise UnboundLocalError, 0)
  /\ ReplaceRepeated_eval_list (U := unit) (K := plain_kernel) (S fuel)
       (Symbol "a") (rule_expr (Symbol "a") (Symbol "b")) (Integer 0)
       (mkEvaluation [] tt)
     = Some (mkEvaluation [] tt, Raise UnboundLocalError).
Proof. split; reflexivity. Qed.

End ReplaceRepeated_loop_properties.

(** ** [f[x_, x_]] and the empty sequence *)

(** [Blank[]] does not take an element of the form [Sequence[]]:
    [f[x_, x_]] does not match [f[Sequence[], Sequence[]]]. *)
Lemma f_x_x_empty_sequence_counterexample :
  all_matches (K := plain_kernel) (f_x_x "f" "x")
    (Expression (Symbol "f") [empty_sequence; empty_sequence])
  = [].
Proof. vm_compute. reflexivity. Qed.

(** ** Runs of the matcher under different continuations *)

Section Locals_preservation.
Context {U : Type} {K : Kernel}.
Variable Q : U -> U -> Prop.
Hypothesis Q_refl : forall l, Q l l.
Hypothesis Q_trans : forall l1 l2 l3, Q l1 l2 -> Q l2 l3 -> Q l1 l3.

Lemma preserves_ret {A : Type} (a : A) : preserves Q (ret a).
Proof. intros ev. apply Q_refl. Qed.

Lemma preserves_bind {A B : Type} (m : M U A) (f : A -> M U B) :
  preserves Q m -> (forall a, preserves Q (f a)) -> preserves Q (bind m f).
Proof.
  intros Hm Hf ev. unfold bind. specialize (Hm ev).
  destruct (m ev) as [ev' [a|e]]; simpl in *; [|exact Hm].
  eapply Q_trans; [exact Hm|apply Hf].
Qed.

Lemma preserves_message (symbol tag : string) (args : list msgarg) :
  preserves Q (evaluation_message (U := U) symbol tag args).
Proof. intros ev. apply Q_refl. Qed.

Lemma preserves_for_each {A : Type} (body : A -> M U unit) (l : list A) :
  Forall (fun x => preserves Q (body x)) l -> preserves Q (for_each body l).
Proof.
  induction 1 as [|x r Hx _ IH]; simpl; [apply preserves_ret|].
  apply preserves_bind; [exact Hx|intros _; exact IH].
Qed.

Lemma match_elements_preserves
  (y : gmap string BaseElement -> option BaseElement -> M U unit)
  (h : BaseElement) (count : Z) (ps : list BasePattern) :
  Forall (match_preserves Q) ps ->
  preserving_yield Q y ->
  forall index rest vars,
    preserves Q (match_elements match_ y h count ps index rest vars).
Proof.
  intros Hps Hy. induction Hps as [|q qs Hq _ IH]; intros index rest vars.
  - simpl. destruct rest; [apply Hy|apply preserves_ret].
  - simpl. apply preserves_bind.
    + intros ev. apply Q_refl.
    + intros mc. apply preserves_for_each. apply Forall_forall. intros w _.
      apply Hq. intros v r. simpl. apply IH.
Qed.

Lemma iter_fn_preserves (q : BasePattern)
  (y : gmap string BaseElement -> option BaseElement -> M U unit) :
  match_preserves Q q ->
  preserving_yield Q y ->
  forall rest vars, preserves Q (iter_fn (match_ q) y rest vars).
Proof.
  intros Hq Hy rest. induction rest as [|first others IH]; intros vars.
  - simpl. apply Hy.
  - simpl. apply Hq. intros v r. simpl. apply IH.
Qed.

Lemma match_preserves_all (p : BasePattern) : match_preserves Q p.
Proof.
  induction p using BasePattern_nested_ind; intros expression ctx Hk.
  - simpl. destruct (sameQ atom expression); [apply Hk|apply preserves_ret].
  - destruct expression as [| | |h es|]; try apply preserves_ret.
    rewrite match_ExpressionPattern. apply IHp. intros v r. simpl.
    now apply match_elements_preserves.
  - simpl. destruct (negb _); [|apply preserves_ret].
    destruct head as [h|]; [destruct (sameQ _ h)|];
      try apply preserves_ret; apply Hk.
  - simpl. destruct (get_sequence expression); [apply preserves_ret|].
    destruct head as [h|]; [destruct (forallb _ _)|];
      try apply preserves_ret; apply Hk.
  - simpl. destruct head as [h|]; [destruct (forallb _ _)|];
      try apply preserves_ret; apply Hk.
  - simpl. destruct (vars_dict ctx !! varname) as [existing|].
    + destruct (sameQ existing expression); [apply Hk|apply preserves_ret].
    + apply IHp. exact Hk.
  - simpl.
    destruct (has_form expression "System`Sequence" [0]); [|now apply IHp].
    destruct default as [d|]; [now apply IHp|].
    destruct (declared_default ctx); [now apply IHp|apply preserves_message].
  - simpl. apply preserves_for_each.
    eapply Forall_impl; [exact H|]. intros q Hq. now apply Hq.
  - simpl. intros ev. unfold try_except.
    pose proof (IHp1 expression (with_yield_func ctx except_yield_func)
                  (fun v r ev => Q_refl _) ev) as H1.
    destruct (match_ p1 expression _ ev) as [ev' [[]|e]]; simpl in *.
    + eapply Q_trans; [exact H1|]. now apply IHp2.
    + destruct e; exact H1.
  - simpl. destruct (sameQ content expression); [apply Hk|apply preserves_ret].
  - simpl. now apply IHp.
  - simpl. destruct (match_functions (get_name test)) as [item_ok|];
      apply IHp; intros v r; simpl;
      (destruct (forallb _ _); [apply Hk|apply preserves_ret]).
  - simpl. apply IHp. intros v r. simpl.
    destruct (sameQ _ _); [apply Hk|apply preserves_ret].
  - simpl. destruct (Z.ltb _ mn); [apply preserves_ret|].
    destruct (from_option _ false mx); [apply preserves_ret|].
    now apply iter_fn_preserves.
Qed.

End Locals_preservation.

Section Truncation.
Context {U : Type} {K : Kernel}.
Variable Q : U -> U -> Prop.
Hypothesis Q_refl : forall l, Q l l.
Hypothesis Q_trans : forall l1 l2 l3, Q l1 l2 -> Q l2 l3 -> Q l1 l3.
Variable I : U -> Prop.
Variable F : U -> Prop.
Variable stop : exn.

Lemma related_refl (m : M U unit) :
  preserves (fun l l' => l' = l) m -> related Q I F stop m m.
Proof.
  intros Hm ev HI. left. split; [reflexivity|]. now rewrite Hm.
Qed.

Lemma related_ret : related Q I F stop (ret tt) (ret tt).
Proof. intros ev HI. left. split; [reflexivity|exact HI]. Qed.

Lemma related_bind (m1 m2 m1' m2' : M U unit) :
  related Q I F stop m1 m2 -> preserves Q m2' -> related Q I F stop m1' m2' ->
  related Q I F stop (m1 ;; m1') (m2 ;; m2').
Proof.
  intros Hm Hp Hm' ev HI. unfold bind.
  destruct (Hm ev HI) as [[Heq HI']|(Hs & HF & HQ)].
  - rewrite <- Heq. destruct (m1 ev) as [ev' [[]|e]]; simpl in *.
    + now apply Hm'.
    + left. split; [reflexivity|exact HI'].
  - destruct (m1 ev) as [ev1 r1]. simpl in Hs. subst r1.
    destruct (m2 ev) as [ev2 [[]|e]]; simpl in *.
    + right. split; [reflexivity|split; [exact HF|]].
      eapply Q_trans; [exact HQ|apply Hp].
    + right. split; [reflexivity|split; [exact HF|exact HQ]].
Qed.

Lemma related_bind_lift {A : Type} (r : pyresult A) (f1 f2 : A -> M U unit) :
  (forall a, related Q I F stop (f1 a) (f2 a)) ->
  related Q I F stop (bind (lift r) f1) (bind (lift r) f2).
Proof.
  intros H ev HI. unfold bind, lift.
  destruct r; [now apply H|left; split; [reflexivity|exact HI]].
Qed.

Lemma related_for_each {A : Type} (body1 body2 : A -> M U unit) (l : list A) :
  Forall (fun x => related Q I F stop (body1 x) (body2 x) /\ preserves Q (body2 x)) l ->
  related Q I F stop (for_each body1 l) (for_each body2 l).
Proof.
  induction 1 as [|x r [Hx Hpx] Hr IH]; simpl; [apply related_ret|].
  apply related_bind; [exact Hx| |exact IH].
  apply preserves_for_each; [exact Q_refl|exact Q_trans|].
  eapply Forall_impl; [exact Hr|]. now intros y [_ Hy].
Qed.

Lemma match_elements_related (y1 y2 : gmap string BaseElement -> option BaseElement -> M U unit)
  (h : BaseElement) (count : Z) (ps : list BasePattern) :
  Forall (match_related Q I F stop) ps ->
  related_yield Q I F stop y1 y2 -> preserving_yield Q y2 ->
  forall index rest vars,
    related Q I F stop (match_elements match_ y1 h count ps index rest vars)
            (match_elements match_ y2 h count ps index rest vars).
Proof.
  intros Hps Hy Hp. induction Hps as [|q qs Hq Hqs IH]; intros index rest vars.
  - simpl. destruct rest; [apply Hy|apply related_ret].
  - simpl. apply related_bind_lift. intros mc.
    apply related_for_each. apply Forall_forall. intros w _. split.
    + apply Hq; [intros v r; apply IH|].
      intros v r. apply (match_elements_preserves Q Q_refl Q_trans); [|exact Hp].
      apply Forall_forall. intros p _. now apply match_preserves_all.
    + apply (match_preserves_all Q Q_refl Q_trans). intros v r. simpl.
      apply (match_elements_preserves Q Q_refl Q_trans); [|exact Hp].
      apply Forall_forall. intros p _. now apply match_preserves_all.
Qed.

Lemma iter_fn_related (q : BasePattern)
  (y1 y2 : gmap string BaseElement -> option BaseElement -> M U unit) :
  match_related Q I F stop q ->
  related_yield Q I F stop y1 y2 -> preserving_yield Q y2 ->
  forall rest vars,
    related Q I F stop (iter_fn (match_ q) y1 rest vars) (iter_fn (match_ q) y2 rest vars).
Proof.
  intros Hq Hy Hp rest. induction rest as [|first others IH]; intros vars.
  - simpl. apply Hy.
  - simpl. apply Hq; [intros v r; apply IH|].
    intros v r. apply (iter_fn_preserves Q); [|exact Hp].
    now apply match_preserves_all.
Qed.

Lemma match_related_all (p : BasePattern) : match_related Q I F stop p.
Proof.
  induction p using BasePattern_nested_ind;
    intros expression y1 y2 vars hd idx cnt Hy Hp.
  - simpl. destruct (sameQ atom expression); [apply Hy|apply related_ret].
  - destruct expression as [| | |h es|]; try apply related_ret.
    rewrite !match_ExpressionPattern. apply IHp.
    + intros v r. simpl. now apply match_elements_related.
    + intros v r. simpl.
      apply (match_elements_preserves Q Q_refl Q_trans); [|exact Hp].
      apply Forall_forall. intros p' _. now apply match_preserves_all.
  - simpl. destruct (negb _); [|apply related_ret].
    destruct head as [h|]; [destruct (sameQ _ h)|];
      try apply related_ret; apply Hy.
  - simpl. destruct (get_sequence expression); [apply related_ret|].
    destruct head as [h|]; [destruct (forallb _ _)|];
      try apply related_ret; apply Hy.
  - simpl. destruct head as [h|]; [destruct (forallb _ _)|];
      try apply related_ret; apply Hy.
  - simpl. destruct (vars !! varname) as [existing|].
    + destruct (sameQ existing expression); [apply Hy|apply related_ret].
    + now apply IHp.
  - simpl.
    change (declared_default (mkContext y1 vars hd idx cnt))
      with (declared_default (mkContext y2 vars hd idx cnt)).
    destruct (has_form expression "System`Sequence" [0]); [|now apply IHp].
    destruct default as [d|]; [now apply IHp|].
    destruct (declared_default _); [now apply IHp|].
    apply related_refl. intros ev. reflexivity.
  - simpl. apply related_for_each.
    eapply Forall_impl; [exact H|]. intros q Hq. split; [now apply Hq|].
    apply (match_preserves_all Q Q_refl Q_trans). exact Hp.
  - simpl. intros ev HI. unfold try_except.
    pose proof (match_preserves_all (fun l l' => l' = l)
                  (fun l => eq_refl)
                  (fun l1 l2 l3 H12 H23 => eq_trans H23 H12)
                  p1 expression (mkContext except_yield_func vars hd idx cnt)
                  (fun v r ev => eq_refl) ev) as H1.
    unfold with_yield_func. simpl.
    destruct (match_ p1 expression _ ev) as [ev' [[]|e]]; simpl in *.
    + apply IHp2; [exact Hy|exact Hp|]. now rewrite H1.
    + left. split; [reflexivity|]. destruct e; simpl; now rewrite H1.
  - simpl. destruct (sameQ content expression); [apply Hy|apply related_ret].
  - simpl. now apply IHp.
  - simpl. destruct (match_functions (get_name test)) as [item_ok|];
      (apply IHp; intros v r; simpl;
       (destruct (forallb _ _);
        [first [apply Hy|apply Hp]
        |first [apply related_ret|apply preserves_ret; exact Q_refl]])).
  - simpl. apply IHp; intros v r; simpl;
      (destruct (sameQ _ _);
       [first [apply Hy|apply Hp]
       |first [apply related_ret|apply preserves_ret; exact Q_refl]]).
  - simpl. destruct (Z.ltb _ mn); [apply related_ret|].
    destruct (from_option _ false mx); [apply related_ret|].
    now apply iter_fn_related.
Qed.

End Truncation.

(** ** The limit of one rule *)

Section Rule_apply_prefix.
Context {U : Type} {K : Kernel}.

Lemma results_prefix_refl (l : list BaseElement) : l `prefix_of` l.
Proof. exists []. now rewrite app_nil_r. Qed.

Lemma results_prefix_trans (l1 l2 l3 : list BaseElement) :
  l1 `prefix_of` l2 -> l2 `prefix_of` l3 -> l1 `prefix_of` l3.
Proof. intros [k ->] [k' ->]. exists (k ++ k'). now rewrite app_assoc. Qed.

Lemma Rule_yield_match_appends (rule : Rule) (max_list : option Z) :
  preserving_yield (fun l l' => l `prefix_of` l') (Rule_yield_match rule max_list).
Proof.
  intros v r ev. unfold Rule_yield_match. simpl. now eexists.
Qed.

Lemma Rule_yield_match_related (rule : Rule) (n : nat) (limit : option Z) :
  from_option (fun m => Z.leb (Z.of_nat n) m) true limit = true ->
  related_yield (fun l l' => l `prefix_of` l') (fun l => length l < n)
    (fun l => length l = n) StopGenerator_BaseRule
    (Rule_yield_match rule (Some (Z.of_nat n))) (Rule_yield_match rule limit).
Proof.
  intros Hle v r ev HI. unfold Rule_yield_match, truncates. simpl.
  rewrite length_app. simpl.
  destruct (Z.leb_spec (Z.of_nat n) (Z.of_nat (length (locals ev) + 1))).
  - right. split; [reflexivity|]. split; [lia|reflexivity].
  - left. split; [|lia]. f_equal.
    destruct limit as [m|]; simpl in *; [|reflexivity].
    apply Z.leb_le in Hle.
    destruct (Z.leb_spec m (Z.of_nat (length (locals ev) + 1))); [lia|reflexivity].
Qed.

(** A limit cuts the enumeration of one rule: whenever the rule applied
    with the limit [limit] (no limit, or at least [n] results) returns a
    list, the rule applied with the limit [n] returns its first [n]
    elements. *)
Lemma Rule_apply_prefix (rule : Rule) (expression : BaseElement) (n : nat)
  (limit : option Z) (ev : Evaluation U) (l : list BaseElement) :
  from_option (fun m => Z.leb (Z.of_nat n) m) true limit = true ->
  snd (Rule_apply rule expression limit ev) = Return l ->
  snd (Rule_apply rule expression (Some (Z.of_nat n)) ev) = Return (take n l).
Proof.
  intros Hle Hfull. unfold Rule_apply in *. simpl from_option at 1.
  destruct n as [|n].
  { simpl. now rewrite take_0. }
  destruct (Z.leb_spec (Z.of_nat (S n)) 0); [lia|].
  assert (Hlim : from_option (fun m => Z.leb m 0) false limit = false).
  { destruct limit as [m|]; [|reflexivity]. simpl in *.
    apply Z.leb_le in Hle. apply Z.leb_gt. lia. }
  rewrite Hlim in Hfull.
  pose proof (match_related_all (fun l l' => l `prefix_of` l')
                results_prefix_refl results_prefix_trans
                (fun l => length l < S n) (fun l => length l = S n)
                StopGenerator_BaseRule (rule_pattern rule) expression
                (Rule_yield_match rule (Some (Z.of_nat (S n))))
                (Rule_yield_match rule limit) ∅ None None None
                (Rule_yield_match_related rule (S n) limit Hle)
                (Rule_yield_match_appends rule limit)
                (mkEvaluation (out ev) []) ltac:(simpl; lia)) as Hrel.
  unfold fresh_context in *.
  destruct Hrel as [[Heq HI]|(Hs & HF & HQ)].
  - rewrite Heq in *.
    destruct (match_ (rule_pattern rule) expression
                (mkContext (Rule_yield_match rule limit) ∅ None None None)
                (mkEvaluation (out ev) [])) as [ev' [[]|e]]; simpl in *.
    + injection Hfull as <-. f_equal. symmetry. apply take_ge. lia.
    + destruct e; try discriminate. simpl in Hfull. injection Hfull as <-.
      simpl. f_equal. symmetry. apply take_ge. lia.
  - destruct (match_ (rule_pattern rule) expression
                (mkContext (Rule_yield_match rule (Some (Z.of_nat (S n)))) ∅ None None None)
                (mkEvaluation (out ev) [])) as [ev1 r1]; simpl in *. subst r1.
    simpl. f_equal.
    assert (l = locals (fst (match_ (rule_pattern rule) expression
                (mkContext (Rule_yield_match rule limit) ∅ None None None)
                (mkEvaluation (out ev) [])))) as ->.
    { destruct (match_ (rule_pattern rule) expression
                (mkContext (Rule_yield_match rule limit) ∅ None None None)
                (mkEvaluation (out ev) [])) as [ev2 [[]|e]]; simpl in *.
      - now injection Hfull as <-.
      - destruct e; try discriminate. now injection Hfull as <-. }
    destruct HQ as [k ->]. rewrite take_app_length'; [reflexivity|now symmetry].
Qed.

End Rule_apply_prefix.

Section ReplaceList_one_rule.
Context {U : Type} {K : Kernel}.

Lemma ReplaceList_loop_one_rule (rule : Rule) (expr : BaseElement)
  (max_count : option Z) (ev : Evaluation U) :
  snd (ReplaceList_loop [rule] expr max_count [] ev)
  = snd (Rule_apply rule expr max_count ev).
Proof.
  simpl. unfold bind, ret.
  destruct (Rule_apply rule expr max_count ev) as [ev' [result|e]]; reflexivity.
Qed.

(** X17.  With one rule, [ReplaceList] with the limit [n] returns at
    most [n] results, the first [n] of those it returns with any greater
    limit or with none. *)
Lemma ReplaceList_one_rule_prefix (rule : Rule) (expr : BaseElement) (n : nat)
  (limit : option Z) (ev : Evaluation U) (l : list BaseElement) :
  from_option (fun m => Z.leb (Z.of_nat n) m) true limit = true ->
  snd (ReplaceList_loop [rule] expr limit [] ev) = Return l ->
  snd (ReplaceList_loop [rule] expr (Some (Z.of_nat n)) [] ev) = Return (take n l)
  /\ length (take n l) <= n.
Proof.
  intros Hle Hfull. rewrite ReplaceList_loop_one_rule in *. split.
  - now apply (Rule_apply_prefix rule expr n limit).
  - rewrite length_take. lia.
Qed.

End ReplaceList_one_rule.

(** ** The examples of the module documentation *)

(** [f[a, b, c, d] /. f[start__, end__] -> {{start}, {end}}]: elements in
    the beginning of a pattern rather match fewer elements. *)
Example start_matches_fewer_elements :
  let p := ExpressionPattern (AtomPattern (Symbol "f"))
             [Pattern "start" (BlankSequence None);
              Pattern "end" (BlankSequence None)] in
  let e := Expression (Symbol "f") [Symbol "a"; Symbol "b"; Symbol "c"; Symbol "d"] in
  head (all_matches (K := plain_kernel) p e)
  = Some (<["start" := Symbol "a"]>
            {["end" := Expression SymbolSequence [Symbol "b"; Symbol "c"; Symbol "d"]]}).
Proof. vm_compute. reflexivity. Qed.

(** [f[a] /. f[x_, y_:3] -> {x, y}]: the default fills the empty slot. *)
Example optional_default_fills_in :
  let p := ExpressionPattern (AtomPattern (Symbol "f"))
             [Pattern "x" (Blank None);
              Optional (Pattern "y" (Blank None)) (Some (Integer 3))] in
  all_matches (K := plain_kernel) p (Expression (Symbol "f") [Symbol "a"])
  = [<["x" := Symbol "a"]> {["y" := Integer 3]}].
Proof. vm_compute. reflexivity. Qed.

(** [{{}, {a}, {a, b}, {a, a, a}, {a, a, a, a}} /. {Repeated[x : a | b, 3]}
    -> x]: [{a}] and [{a, a, a}] match, the other lists do not. *)
Example repeated_up_to_three :
  let p := ExpressionPattern (AtomPattern SymbolList)
             [Repeated (Pattern "x" (Alternatives [AtomPattern (Symbol "a");
                                                    AtomPattern (Symbol "b")]))
                1 (Some 3%Z)] in
  let a := Symbol "a" in
  let b := Symbol "b" in
  map (fun e => length (all_matches (K := plain_kernel) p e))
    [ListExpression []; ListExpression [a]; ListExpression [a; b];
     ListExpression [a; a; a]; ListExpression [a; a; a; a]]
  = [0; 1; 0; 1; 0].
Proof. vm_compute. reflexivity. Qed.

(** ** A failing match never calls its continuation *)

Section Failing_match.
Context {U : Type} {K : Kernel}.

(** X3.  A failing match never calls its continuation.  When the match
    returns normally for the caller that stops at the first success, it
    does the same for every caller: the outcome, messages included, does
    not depend on the continuation, which is never called. *)
Lemma match_fails_any_continuation (p : BasePattern) (expression : BaseElement)
  (ctx : pattern_context U) (ev : Evaluation U)
  (k : gmap string BaseElement -> option BaseElement -> M U unit) :
  match_fails p expression ctx ev ->
  match_ p expression (with_yield_func ctx k) ev
  = match_ p expression (with_yield_func ctx except_yield_func) ev.
Proof.
  unfold match_fails, first_success. intros Hfail.
  destruct (match_related_all (fun _ _ => True) (fun _ => Logic.I)
              (fun _ _ _ _ _ => Logic.I) (fun _ => True) (fun _ => True)
              StopGeneratorExcept p expression except_yield_func k
              (vars_dict ctx) (ctx_head ctx) (element_index ctx)
              (element_count ctx)) with (ev := ev) as [[Heq _]|[Hstop _]].
  - intros v r ev' _. right. split; [reflexivity|split; exact Logic.I].
  - intros v r ev'. exact Logic.I.
  - exact Logic.I.
  - symmetry. exact Heq.
  - unfold with_yield_func in Hfail. rewrite Hfail in Hstop. discriminate.
Qed.

End Failing_match.

(** ** Two runs of the matcher in different states *)

Section Simulation.
Context {U1 U2 : Type} {K : Kernel}.
Variable R : Evaluation U1 -> Evaluation U2 -> Prop.
Hypothesis R_message :
  forall ev1 ev2 m, R ev1 ev2 -> R (add_message ev1 m) (add_message ev2 m).

Lemma simulates_ret {A : Type} (a : A) : simulates R (ret a) (ret a).
Proof. intros ev1 ev2 H. now split. Qed.

Lemma simulates_bind {A B : Type} (m1 : M U1 A) (m2 : M U2 A)
  (f1 : A -> M U1 B) (f2 : A -> M U2 B) :
  simulates R m1 m2 -> (forall a, simulates R (f1 a) (f2 a)) ->
  simulates R (bind m1 f1) (bind m2 f2).
Proof.
  intros Hm Hf ev1 ev2 H. unfold bind. destruct (Hm ev1 ev2 H) as [Hr HR].
  destruct (m1 ev1) as [ev1' r1], (m2 ev2) as [ev2' r2]. simpl in *. subst r2.
  destruct r1 as [a|e]; [now apply Hf|now split].
Qed.

Lemma simulates_lift {A : Type} (r : pyresult A) : simulates R (lift r) (lift r).
Proof. intros ev1 ev2 H. now split. Qed.

Lemma simulates_for_each {A : Type} (body1 : A -> M U1 unit)
  (body2 : A -> M U2 unit) (l : list A) :
  Forall (fun x => simulates R (body1 x) (body2 x)) l ->
  simulates R (for_each body1 l) (for_each body2 l).
Proof.
  induction 1 as [|x r Hx _ IH]; simpl; [apply simulates_ret|].
  apply simulates_bind; [exact Hx|intros _; exact IH].
Qed.

Lemma match_elements_simulates
  (y1 : gmap string BaseElement -> option BaseElement -> M U1 unit)
  (y2 : gmap string BaseElement -> option BaseElement -> M U2 unit)
  (h : BaseElement) (count : Z) (ps : list BasePattern) :
  Forall (match_simulates R) ps ->
  simulating_yield R y1 y2 ->
  forall index rest vars,
    simulates R (match_elements match_ y1 h count ps index rest vars)
              (match_elements match_ y2 h count ps index rest vars).
Proof.
  intros Hps Hy. induction Hps as [|q qs Hq _ IH]; intros index rest vars.
  - simpl. destruct rest; [apply Hy|apply simulates_ret].
  - simpl. apply simulates_bind; [apply simulates_lift|]. intros mc.
    apply simulates_for_each. apply Forall_forall. intros w _.
    apply Hq. intros v r. apply IH.
Qed.

Lemma iter_fn_simulates (q : BasePattern)
  (y1 : gmap string BaseElement -> option BaseElement -> M U1 unit)
  (y2 : gmap string BaseElement -> option BaseElement -> M U2 unit) :
  match_simulates R q ->
  simulating_yield R y1 y2 ->
  forall rest vars,
    simulates R (iter_fn (match_ q) y1 rest vars) (iter_fn (match_ q) y2 rest vars).
Proof.
  intros Hq Hy rest. induction rest as [|first others IH]; intros vars.
  - simpl. apply Hy.
  - simpl. apply Hq. intros v r. apply IH.
Qed.

(** The matcher reads nothing of the state it runs in: with
    continuations that keep two states related, two runs of the same
    match end alike. *)
Lemma match_simulates_all (p : BasePattern) : match_simulates R p.
Proof.
  induction p using BasePattern_nested_ind;
    intros expression y1 y2 vars hd idx cnt Hy.
  - simpl. destruct (sameQ atom expression); [apply Hy|apply simulates_ret].
  - destruct expression as [| | |h es|]; try apply simulates_ret.
    rewrite !match_ExpressionPattern. apply IHp.
    intros v r. simpl. now apply match_elements_simulates.
  - simpl. destruct (negb _); [|apply simulates_ret].
    destruct head as [h|]; [destruct (sameQ _ h)|];
      try apply simulates_ret; apply Hy.
  - simpl. destruct (get_sequence expression); [apply simulates_ret|].
    destruct head as [h|]; [destruct (forallb _ _)|];
      try apply simulates_ret; apply Hy.
  - simpl. destruct head as [h|]; [destruct (forallb _ _)|];
      try apply simulates_ret; apply Hy.
  - simpl. destruct (vars !! varname) as [existing|].
    + destruct (sameQ existing expression); [apply Hy|apply simulates_ret].
    + now apply IHp.
  - simpl.
    change (declared_default (mkContext y1 vars hd idx cnt))
      with (declared_default (mkContext y2 vars hd idx cnt)).
    destruct (has_form expression "System`Sequence" [0]); [|now apply IHp].
    destruct default as [d|]; [now apply IHp|].
    destruct (declared_default _); [now apply IHp|].
    intros ev1 ev2 HR. split; [reflexivity|]. now apply R_message.
  - simpl. apply simulates_for_each.
    eapply Forall_impl; [exact H|]. intros q Hq. now apply Hq.
  - simpl. intros ev1 ev2 HR. unfold try_except, with_yield_func. simpl.
    destruct (IHp1 expression except_yield_func except_yield_func vars hd idx cnt
                (fun v r e1 e2 HR' => conj eq_refl HR') ev1 ev2 HR) as [Hr HR'].
    destruct (match_ p1 expression _ ev1) as [ev1' r1],
             (match_ p1 expression _ ev2) as [ev2' r2]. simpl in *. subst r2.
    destruct r1 as [[]|e]; [now apply IHp2|].
    destruct e; now split.
  - simpl. destruct (sameQ content expression); [apply Hy|apply simulates_ret].
  - simpl. now apply IHp.
  - simpl. destruct (match_functions (get_name test)) as [item_ok|];
      (apply IHp; intros v r; simpl;
       (destruct (forallb _ _); [apply Hy|apply simulates_ret])).
  - simpl. apply IHp; intros v r; simpl.
    destruct (sameQ _ _); [apply Hy|apply simulates_ret].
  - simpl. destruct (Z.ltb _ mn); [apply simulates_ret|].
    destruct (from_option _ false mx); [apply simulates_ret|].
    now apply iter_fn_simulates.
Qed.

End Simulation.

Section State_independence.
Context {K : Kernel}.

(** The outcome for a caller that stops at the first success depends on
    the pattern, the expression and the context entries only, not on the
    state in which the search starts. *)
Lemma first_success_any_state {U1 U2 : Type} (p : BasePattern)
  (expression : BaseElement)
  (y1 : gmap string BaseElement -> option BaseElement -> M U1 unit)
  (y2 : gmap string BaseElement -> option BaseElement -> M U2 unit)
  (vars : gmap string BaseElement) (hd : option BaseElement) (idx cnt : option Z)
  (ev1 : Evaluation U1) (ev2 : Evaluation U2) :
  first_success p expression (mkContext y1 vars hd idx cnt) ev1
  = first_success p expression (mkContext y2 vars hd idx cnt) ev2.
Proof.
  unfold first_success, with_yield_func. simpl.
  apply (match_simulates_all (fun _ _ => True) (fun _ _ _ _ => Logic.I) p
           expression except_yield_func except_yield_func vars hd idx cnt).
  - intros v r e1 e2 _. now split.
  - exact Logic.I.
Qed.

(** A search that collects its matches appends them to the list it
    starts with, and ends as it does from the empty list. *)
Lemma collect_frame (p : BasePattern) (expression : BaseElement)
  (vars : gmap string BaseElement) (hd : option BaseElement) (idx cnt : option Z)
  (ev : Evaluation (list (gmap string BaseElement))) :
  snd (match_ p expression (mkContext collect_yield vars hd idx cnt) ev)
  = search_result p expression vars hd idx cnt
  /\ locals (fst (match_ p expression (mkContext collect_yield vars hd idx cnt) ev))
     = locals ev ++ matches_in p expression vars hd idx cnt.
Proof.
  unfold search_result, matches_in.
  apply (match_simulates_all
           (fun e1 e2 : Evaluation (list (gmap string BaseElement)) =>
              locals e1 = locals ev ++ locals e2)
           (fun e1 e2 m H => H) p expression collect_yield collect_yield
           vars hd idx cnt).
  - intros v r e1 e2 H. split; [reflexivity|]. simpl. rewrite H.
    now rewrite app_assoc.
  - simpl. now rewrite app_nil_r.
Qed.

(** A search whose continuation keeps the environments that pass [f]. *)
Lemma collect_filtered (f : gmap string BaseElement -> bool) (p : BasePattern)
  (expression : BaseElement)
  (vars : gmap string BaseElement) (hd : option BaseElement) (idx cnt : option Z) :
  let r := match_ p expression
             (mkContext (fun v rest => if f v then collect_yield v rest else ret tt)
                vars hd idx cnt) (mkEvaluation [] []) in
  snd r = search_result p expression vars hd idx cnt
  /\ locals (fst r) = List.filter f (matches_in p expression vars hd idx cnt).
Proof.
  unfold search_result, matches_in.
  apply (match_simulates_all
           (fun e1 e2 : Evaluation (list (gmap string BaseElement)) =>
              locals e1 = List.filter f (locals e2))
           (fun e1 e2 m H => H) p expression
           (fun v rest => if f v then collect_yield v rest else ret tt)
           collect_yield vars hd idx cnt).
  - intros v r e1 e2 H. simpl. rewrite List.filter_app. simpl.
    destruct (f v); simpl; (split; [reflexivity|]); rewrite H;
      [reflexivity|now rewrite app_nil_r].
  - reflexivity.
Qed.

(** A search whose continuation leaves the variables of the caller
    alone does so itself. *)
Lemma probe_keeps_locals {U : Type} (p : BasePattern) (expression : BaseElement)
  (vars : gmap string BaseElement) (hd : option BaseElement) (idx cnt : option Z)
  (y : gmap string BaseElement -> option BaseElement -> M U unit)
  (ev : Evaluation U) :
  (forall v r ev', locals (fst (y v r ev')) = locals ev') ->
  locals (fst (match_ p expression (mkContext y vars hd idx cnt) ev)) = locals ev.
Proof.
  intros Hy.
  apply (match_preserves_all (fun l l' => l' = l) (fun l => eq_refl)
           (fun l1 l2 l3 H12 H23 => eq_trans H23 H12) p expression
           (mkContext y vars hd idx cnt)).
  intros v r ev'. apply Hy.
Qed.

End State_independence.

Lemma filter_const_true {A : Type} (l : list A) : List.filter (fun _ => true) l = l.
Proof. induction l as [|x l IH]; simpl; [reflexivity|now rewrite IH]. Qed.

Lemma filter_const_false {A : Type} (l : list A) : List.filter (fun _ => false) l = [].
Proof. induction l as [|x l IH]; simpl; [reflexivity|exact IH]. Qed.

(** ** Bindings only grow *)

Lemma extends_b_spec (vars v : gmap string BaseElement) :
  extends_b vars v = true <-> vars ⊆ v.
Proof.
  unfold extends_b. rewrite bool_decide_eq_true, map_subseteq_spec.
  unfold map_Forall. split.
  - intros H i x Hi. specialize (H i x Hi).
    destruct (v !! i) as [y|]; [|discriminate]. simpl in H.
    apply sameQ_eq in H. now subst.
  - intros H i x Hi. rewrite (H i x Hi). simpl. apply sameQ_refl.
Qed.

Section Above.
Context {U : Type} {K : Kernel}.
Variable Q : U -> U -> Prop.
Hypothesis Q_refl : forall l, Q l l.
Hypothesis Q_trans : forall l1 l2 l3, Q l1 l2 -> Q l2 l3 -> Q l1 l3.

(** The continuation has to keep [Q] on the extensions of the incoming
    environment only: it is called with no other environment. *)
Lemma match_preserves_above (p : BasePattern) (expression : BaseElement)
  (ctx : pattern_context U) :
  (forall v r, vars_dict ctx ⊆ v -> preserves Q (yield_func ctx v r)) ->
  preserves Q (match_ p expression ctx).
Proof.
  intros Hy ev.
  set (k' := fun v r => if extends_b (vars_dict ctx) v
                        then yield_func ctx v r else ret tt).
  rewrite (match_extends_only p expression ctx k').
  - apply (match_preserves_all Q Q_refl Q_trans).
    intros v r ev'. unfold k'. simpl.
    destruct (extends_b (vars_dict ctx) v) eqn:E; [|apply Q_refl].
    apply Hy. now apply extends_b_spec.
  - intros v r ev' Hsub. unfold k'.
    apply extends_b_spec in Hsub. now rewrite Hsub.
Qed.
End Above.

Section Bindings.
Context {K : Kernel}.

Lemma appends_only_refl (P : gmap string BaseElement -> Prop)
  (l : list (gmap string BaseElement)) : appends_only P l l.
Proof. exists []. split; [now rewrite app_nil_r|constructor]. Qed.

Lemma appends_only_trans (P : gmap string BaseElement -> Prop)
  (l1 l2 l3 : list (gmap string BaseElement)) :
  appends_only P l1 l2 -> appends_only P l2 l3 -> appends_only P l1 l3.
Proof.
  intros (t & -> & Ht) (t' & -> & Ht'). exists (t ++ t'). split.
  - now rewrite app_assoc.
  - now apply Forall_app.
Qed.

Lemma match_collects_extensions (p : BasePattern) (expression : BaseElement)
  (vars : gmap string BaseElement) (hd : option BaseElement) (idx cnt : option Z)
  (ev : Evaluation (list (gmap string BaseElement))) :
  appends_only (fun v => vars ⊆ v) (locals ev)
    (locals (fst (match_ p expression (mkContext collect_yield vars hd idx cnt) ev))).
Proof.
  apply (match_preserves_above (appends_only (fun v => vars ⊆ v))
           (appends_only_refl _) (appends_only_trans _) p expression
           (mkContext collect_yield vars hd idx cnt)).
  intros v r Hsub ev'. simpl in *.
  exists [v]. split; [reflexivity|]. constructor; [exact Hsub|constructor].
Qed.

(** X1.  A pattern without [OptionsPattern] never changes or drops a
    binding.  [BasePattern] has every pattern class of [patterns.py] but
    [OptionsPattern] (whose [match] writes the entries [_option_...] of
    its copy of the bindings whether they are there or not): for every
    pattern built from these classes, every expression and every context,
    each environment that the matcher hands to its continuation holds all
    the bindings of the environment the match started from.  The one
    class that adds a binding, [Pattern], does so on a copy and only for
    a name that is not bound. *)
Theorem match_only_extends_bindings (p : BasePattern) (expression : BaseElement)
  (vars : gmap string BaseElement) (hd : option BaseElement) (idx cnt : option Z) :
  Forall (fun v => vars ⊆ v) (matches_in p expression vars hd idx cnt).
Proof.
  destruct (match_collects_extensions p expression vars hd idx cnt
              (mkEvaluation [] [])) as (t & Ht & HF).
  unfold matches_in. rewrite Ht. exact HF.
Qed.

(** X2.  In every match of [Pattern[name, q]] against an expression the
    variable [name] is bound to that expression: to the existing value,
    which has to be the same expression, when the name was bound before,
    and to the expression itself otherwise, whatever [q] binds further. *)
Theorem Pattern_binds_expression (varname : string) (q : BasePattern)
  (expression : BaseElement) (vars : gmap string BaseElement)
  (hd : option BaseElement) (idx cnt : option Z) :
  Forall (fun v => v !! varname = Some expression)
    (matches_in (Pattern varname q) expression vars hd idx cnt).
Proof.
  unfold matches_in. simpl.
  destruct (vars !! varname) as [existing|] eqn:E.
  - destruct (sameQ existing expression) eqn:Es; simpl; [|constructor].
    apply sameQ_eq in Es. subst existing. constructor; [exact E|constructor].
  - destruct (match_collects_extensions q expression
                (<[varname := expression]> vars) hd idx cnt
                (mkEvaluation [] [])) as (t & Ht & HF).
    unfold with_vars_dict. simpl in *. rewrite Ht.
    eapply Forall_impl; [exact HF|]. intros v Hv. simpl in Hv.
    eapply lookup_weaken; [|exact Hv]. apply lookup_insert_eq.
Qed.

End Bindings.

Lemma match_fails_any_continuation_witness :
  match_ (U := unit) (K := plain_kernel) (f_x_x "f" "x")
    (Expression (Symbol "f") [Symbol "a"; Symbol "b"])
    (with_yield_func (fresh_context (fun _ _ => ret tt) ∅)
       (fun _ _ => raise TypeError))
    (mkEvaluation [] tt)
  = match_ (U := unit) (K := plain_kernel) (f_x_x "f" "x")
      (Expression (Symbol "f") [Symbol "a"; Symbol "b"])
      (with_yield_func (fresh_context (fun _ _ => ret tt) ∅) except_yield_func)
      (mkEvaluation [] tt).
Proof.
  apply (match_fails_any_continuation (U := unit) (K := plain_kernel)
           (f_x_x "f" "x") (Expression (Symbol "f") [Symbol "a"; Symbol "b"])
           (fresh_context (fun _ _ => ret tt) ∅) (mkEvaluation [] tt)
           (fun _ _ => raise TypeError)).
  vm_compute. reflexivity.
Defined.

(** ** Patterns built from other patterns *)

Section Composite_patterns.
Context {K : Kernel}.

(** X4.  [Except[c, p]] for any [p]: it succeeds exactly when [c] fails
    and [p] succeeds, and its matches are those of [p] when the search
    for [c] ends without a success, none otherwise.  Whatever [c] binds
    while it is tested is discarded: [p] is matched in the context that
    [Except] was given. *)
Theorem Except_general (c p : BasePattern) (expression : BaseElement) :
  (forall (U : Type) (ctx : pattern_context U) (ev : Evaluation U),
     match_succeeds (Except c p) expression ctx ev
     <-> match_fails c expression ctx ev /\ match_succeeds p expression ctx ev)
  /\ (forall vars hd idx cnt,
        matches_in (Except c p) expression vars hd idx cnt
        = match first_success c expression
                  (mkContext collect_yield vars hd idx cnt) (mkEvaluation [] []) with
          | Return _ => matches_in p expression vars hd idx cnt
          | Raise _ => []
          end).
Proof.
  split.
  - intros U [y vars hd idx cnt] ev.
    unfold match_succeeds, match_fails, first_success at 1 2.
    unfold with_yield_func. cbn [yield_func vars_dict ctx_head element_index element_count].
    rewrite match_Except. unfold with_yield_func.
    cbn [yield_func vars_dict ctx_head element_index element_count].
    destruct (match_ c expression (mkContext except_yield_func vars hd idx cnt) ev)
      as [ev' [[]|e]] eqn:Ec; cbn [snd].
    + change (snd (match_ p expression (mkContext except_yield_func vars hd idx cnt) ev'))
        with (first_success p expression (mkContext y vars hd idx cnt) ev').
      rewrite (first_success_any_state p expression y y vars hd idx cnt ev' ev).
      tauto.
    + destruct e; cbn [snd]; split; try discriminate;
        intros [H _]; discriminate H.
  - intros vars hd idx cnt. unfold matches_in at 1, first_success.
    rewrite match_Except. unfold with_yield_func.
    cbn [yield_func vars_dict ctx_head element_index element_count].
    pose proof (probe_keeps_locals c expression vars hd idx cnt
                  (except_yield_func (U := list (gmap string BaseElement)))
                  (mkEvaluation [] []) (fun v r ev' => eq_refl)) as Hl.
    destruct (match_ c expression (mkContext except_yield_func vars hd idx cnt)
                (mkEvaluation [] [])) as [ev' [[]|e]]; cbn [snd fst] in *.
    + destruct (collect_frame p expression vars hd idx cnt ev') as [_ H].
      rewrite H, Hl. reflexivity.
    + destruct e; exact Hl.
Qed.

(** X5.  [Condition[q, test]] filters the matches of [q]: its matches
    are, in the same order, those matches of [q] whose bindings make the
    test evaluate to [True], and the search ends as the search for [q]
    does. *)
Theorem Condition_filters_matches (q : BasePattern) (test expression : BaseElement)
  (vars : gmap string BaseElement) (hd : option BaseElement) (idx cnt : option Z) :
  matches_in (Condition q test) expression vars hd idx cnt
  = List.filter (fun v => sameQ (evaluate (replace_vars test v)) SymbolTrue)
      (matches_in q expression vars hd idx cnt)
  /\ search_result (Condition q test) expression vars hd idx cnt
     = search_result q expression vars hd idx cnt.
Proof.
  destruct (collect_filtered
              (fun v => sameQ (evaluate (replace_vars test v)) SymbolTrue)
              q expression vars hd idx cnt) as [Hr Hl].
  split; [exact Hl|exact Hr].
Qed.

(** X6.  [PatternTest[q, test]] is all or nothing: the test looks at the
    items of the expression and not at the bindings, so the pattern has
    all the matches of [q] when every item passes and none otherwise.
    The tests with a fast matcher ([AtomQ], [NumberQ], ...) match [q] in
    the context they were given; every other test matches [q] in a fresh
    context, without the enclosing head and position. *)
Theorem PatternTest_all_or_nothing (q : BasePattern) (test expression : BaseElement)
  (vars : gmap string BaseElement) (hd : option BaseElement) (idx cnt : option Z) :
  matches_in (PatternTest q test) expression vars hd idx cnt
  = match match_functions (get_name test) with
    | Some item_ok =>
        if forallb item_ok (get_sequence expression)
        then matches_in q expression vars hd idx cnt else []
    | None =>
        if forallb (pattern_test_item test) (get_sequence expression)
        then matches_in q expression vars None None None else []
    end.
Proof.
  unfold matches_in at 1. simpl.
  destruct (match_functions (get_name test)) as [item_ok|].
  - unfold with_yield_func. simpl.
    destruct (collect_filtered (fun _ => forallb item_ok (get_sequence expression))
                q expression vars hd idx cnt) as [_ Hl].
    simpl in Hl. unfold collect_yield in *. rewrite Hl.
    destruct (forallb item_ok (get_sequence expression));
      [apply filter_const_true|apply filter_const_false].
  - unfold fresh_context.
    destruct (collect_filtered
                (fun _ => forallb (pattern_test_item test) (get_sequence expression))
                q expression vars None None None) as [_ Hl].
    simpl in Hl. unfold collect_yield in *. rewrite Hl.
    destruct (forallb (pattern_test_item test) (get_sequence expression));
      [apply filter_const_true|apply filter_const_false].
Qed.

(** X7.  [Alternatives] tries its alternatives from left to right in the
    same context: the matches of [a | rest] are those of [a] followed by
    those of the remaining alternatives, which are tried unless the
    search for [a] raised; without alternatives there is no match. *)
Theorem Alternatives_matches_in_order (alternative : BasePattern)
  (rest : list BasePattern) (expression : BaseElement)
  (vars : gmap string BaseElement) (hd : option BaseElement) (idx cnt : option Z) :
  matches_in (Alternatives []) expression vars hd idx cnt = []
  /\ matches_in (Alternatives (alternative :: rest)) expression vars hd idx cnt
     = matches_in alternative expression vars hd idx cnt
       ++ match search_result alternative expression vars hd idx cnt with
          | Return _ => matches_in (Alternatives rest) expression vars hd idx cnt
          | Raise _ => []
          end.
Proof.
  split; [reflexivity|].
  unfold matches_in at 1. cbn [match_ for_each]. unfold bind.
  set (ctx := mkContext collect_yield vars hd idx cnt).
  pose proof (collect_frame alternative expression vars hd idx cnt
                (mkEvaluation [] [])) as [Hr Hl].
  fold ctx in Hr, Hl. rewrite <- Hr.
  destruct (match_ alternative expression ctx (mkEvaluation [] []))
    as [ev' [[]|e]] eqn:E; cbn [snd fst] in *.
  - pose proof (collect_frame (Alternatives rest) expression vars hd idx cnt ev')
      as [_ Hl'].
    cbn [match_] in Hl'. fold ctx in Hl'. rewrite Hl'. now rewrite Hl.
  - rewrite Hl. cbn [locals app]. now rewrite app_nil_r.
Qed.

End Composite_patterns.

(** ** [Repeated] and [RepeatedNull] *)

Section Repeated_properties.
Context {K : Kernel}.

Lemma match_Repeated {U : Type} (q : BasePattern) (mn : Z) (mx : option Z)
  (expression : BaseElement) (ctx : pattern_context U) :
  match_ (Repeated q mn mx) expression ctx =
    if Z.ltb (Z.of_nat (length (get_sequence expression))) mn then ret tt
    else if from_option (fun m => Z.ltb m (Z.of_nat (length (get_sequence expression))))
              false mx
    then ret tt
    else iter_fn (match_ q) (yield_func ctx) (get_sequence expression) (vars_dict ctx).
Proof. reflexivity. Qed.

(** Once [x] is bound to [a], the iteration of [Pattern[x, q]] over
    elements of which one differs from [a] never reaches its
    continuation. *)
Lemma iter_fn_bound_differs {U : Type} (x : string) (q : BasePattern)
  (y : gmap string BaseElement -> option BaseElement -> M U unit)
  (a : BaseElement) (rest : list BaseElement) :
  (exists b, b ∈ rest /\ b <> a) ->
  forall (v : gmap string BaseElement) (ev : Evaluation U),
    v !! x = Some a ->
    locals (fst (iter_fn (match_ (Pattern x q)) y rest v ev)) = locals ev.
Proof.
  induction rest as [|first others IH]; intros (b & Hb & Hne) v ev Hv.
  - inversion Hb.
  - cbn [iter_fn]. rewrite (match_Pattern_bound x q first _ a) by exact Hv.
    destruct (sameQ a first) eqn:E; [|reflexivity].
    apply sameQ_eq in E. subst first. cbn [yield_func fresh_context vars_dict].
    apply IH; [|exact Hv].
    exists b. split; [|exact Hne].
    apply elem_of_cons in Hb as [->|Hb]; [contradiction|exact Hb].
Qed.

(** X8.  [Repeated] of a named pattern, as in [x_..]: the name is bound
    by the first element and every further element is compared with that
    binding, so an expression with two different elements has no
    match. *)
Theorem Repeated_named_needs_identical_elements (x : string) (q : BasePattern)
  (mn : Z) (mx : option Z) (expression : BaseElement)
  (vars : gmap string BaseElement) (hd : option BaseElement) (idx cnt : option Z)
  (a b : BaseElement) :
  a ∈ get_sequence expression -> b ∈ get_sequence expression -> a <> b ->
  matches_in (Repeated (Pattern x q) mn mx) expression vars hd idx cnt = [].
Proof.
  intros Ha Hb Hne. unfold matches_in. rewrite match_Repeated.
  destruct (Z.ltb _ mn); [reflexivity|].
  destruct (from_option _ false mx); [reflexivity|].
  cbn [yield_func vars_dict].
  destruct (get_sequence expression) as [|first others]; [inversion Ha|].
  assert (Hothers : exists c, c ∈ others /\ c <> first).
  { destruct (sameQ a first) eqn:Ea.
    - apply sameQ_eq in Ea. subst a. exists b. split; [|now intros ->].
      apply elem_of_cons in Hb as [->|Hb]; [contradiction|exact Hb].
    - apply sameQ_neq in Ea. exists a. split; [|exact Ea].
      apply elem_of_cons in Ha as [->|Ha]; [contradiction|exact Ha]. }
  cbn [iter_fn].
  destruct (vars !! x) as [existing|] eqn:Ex.
  - rewrite (match_Pattern_bound x q first _ existing) by exact Ex.
    destruct (sameQ existing first) eqn:E; [|reflexivity].
    apply sameQ_eq in E. subst existing. cbn [yield_func fresh_context vars_dict].
    now apply (iter_fn_bound_differs x q collect_yield first others Hothers).
  - rewrite match_Pattern_unbound by exact Ex.
    apply (match_preserves_above (fun l l' => l' = l) (fun l => eq_refl)
             (fun l1 l2 l3 H12 H23 => eq_trans H23 H12) q first).
    intros v r Hsub ev'. cbn [yield_func fresh_context with_vars_dict vars_dict] in *.
    apply (iter_fn_bound_differs x q collect_yield first others Hothers).
    eapply lookup_weaken; [|exact Hsub]. apply lookup_insert_eq.
Qed.

(** X9.  [Repeated] honours its range: an expression that the pattern
    with the range [(mn, mx)] matches has at least [mn] elements and,
    when a maximum is given, at most [mx]. *)
Theorem Repeated_length_bounds (q : BasePattern) (mn : Z) (mx : option Z)
  (expression : BaseElement)
  (vars : gmap string BaseElement) (hd : option BaseElement) (idx cnt : option Z) :
  matches_in (Repeated q mn mx) expression vars hd idx cnt <> [] ->
  (mn <= Z.of_nat (length (get_sequence expression)))%Z
  /\ forall m, mx = Some m -> (Z.of_nat (length (get_sequence expression)) <= m)%Z.
Proof.
  unfold matches_in. rewrite match_Repeated. intros H.
  destruct (Z.ltb_spec (Z.of_nat (length (get_sequence expression))) mn);
    [now contradiction H|].
  split; [lia|]. intros m ->. cbn [from_option] in H.
  destruct (Z.ltb_spec m (Z.of_nat (length (get_sequence expression))));
    [now contradiction H|lia].
Qed.

(** X10.  [RepeatedNull[p]] differs from [Repeated[p]] in the empty
    sequence only: compiled from the same argument, the first counts
    from 0 elements and accepts [Sequence[]] with the bindings it was
    given, the second counts from 1 and rejects it. *)
Theorem RepeatedNull_accepts_empty_sequence {U : Type} (h element_0 : BaseElement)
  (q : BasePattern) (ctx : pattern_context U) :
  create element_0 = Return q ->
  exists p0 p1,
    RepeatedNull_init (Expression h [element_0]) = Return p0
    /\ Repeated_init (Expression h [element_0]) 1 = Return p1
    /\ get_match_count p0 = Return (0%Z, None)
    /\ get_match_count p1 = Return (1%Z, None)
    /\ match_ p0 empty_sequence ctx = yield_func ctx (vars_dict ctx) None
    /\ match_ p1 empty_sequence ctx = ret tt.
Proof.
  intros Hq. exists (Repeated q 0 None), (Repeated q 1 None).
  unfold RepeatedNull_init. rewrite !Repeated_init_no_range, Hq.
  repeat (split; [reflexivity|]). reflexivity.
Qed.

End Repeated_properties.

Lemma Repeated_named_needs_identical_elements_witness :
  matches_in (K := plain_kernel) (Repeated (Pattern "x" (Blank None)) 1 None)
    (Expression SymbolSequence [Symbol "a"; Symbol "b"]) ∅ None None None = [].
Proof.
  apply (Repeated_named_needs_identical_elements (K := plain_kernel) "x"
           (Blank None) 1 None (Expression SymbolSequence [Symbol "a"; Symbol "b"])
           ∅ None None None (Symbol "a") (Symbol "b")).
  - simpl. constructor.
  - simpl. constructor. constructor.
  - discriminate.
Defined.

Lemma Repeated_length_bounds_witness :
  (1 <= Z.of_nat (length (get_sequence
                            (Expression SymbolSequence [Symbol "a"; Symbol "a"]))))%Z
  /\ forall m, Some 3%Z = Some m ->
       (Z.of_nat (length (get_sequence
                            (Expression SymbolSequence [Symbol "a"; Symbol "a"])))
        <= m)%Z.
Proof.
  apply (Repeated_length_bounds (K := plain_kernel) (AtomPattern (Symbol "a")) 1
           (Some 3%Z) (Expression SymbolSequence [Symbol "a"; Symbol "a"])
           ∅ None None None).
  vm_compute. discriminate.
Defined.

Lemma RepeatedNull_accepts_empty_sequence_witness :
  exists p0 p1,
    RepeatedNull_init (K := plain_kernel)
      (Expression (Symbol "System`RepeatedNull") [Symbol "a"]) = Return p0
    /\ Repeated_init (K := plain_kernel)
         (Expression (Symbol "System`RepeatedNull") [Symbol "a"]) 1 = Return p1
    /\ get_match_count p0 = Return (0%Z, None)
    /\ get_match_count p1 = Return (1%Z, None)
    /\ match_ (U := unit) (K := plain_kernel) p0 empty_sequence
         (fresh_context (fun _ _ => raise TypeError) ∅)
       = raise TypeError
    /\ match_ (U := unit) (K := plain_kernel) p1 empty_sequence
         (fresh_context (fun _ _ => raise TypeError) ∅)
       = ret tt.
Proof.
  apply (RepeatedNull_accepts_empty_sequence (U := unit) (K := plain_kernel)
           (Symbol "System`RepeatedNull") (Symbol "a") (AtomPattern (Symbol "a"))
           (fresh_context (fun _ _ => raise TypeError) ∅)).
  reflexivity.
Defined.

(** ** When [Alternatives.get_match_count] returns *)

Lemma get_match_count_Alternatives (alts : list BasePattern) :
  get_match_count (Alternatives alts) = merge_match_counts None alts.
Proof. reflexivity. Qed.

Lemma merge_match_counts_returns (alts : list BasePattern) :
  forall r r',
    merge_match_counts (Some r) alts = Return r'
    <-> r' = r /\ Forall (within_count r) alts.
Proof.
  induction alts as [|q rest IH]; intros r r'.
  - cbn. split.
    + intros H. injection H as <-. split; [reflexivity|constructor].
    + intros [-> _]. reflexivity.
  - cbn [merge_match_counts]. split.
    + destruct (get_match_count q) as [[mn' mx']|e] eqn:Eq; [|discriminate].
      cbn [pybind fst snd]. destruct r as [mn mx]. cbn [fst snd].
      destruct (Z.ltb_spec mn' mn) as [Hlo|Hlo]; [discriminate|]. cbn [pybind snd].
      destruct mx as [m|]; [|discriminate].
      destruct mx' as [m'|]; [|discriminate]. cbn [py_gt pybind].
      destruct (Z.ltb_spec m m') as [Hhi|Hhi]; [discriminate|]. cbn [pybind].
      intros Hrest. apply IH in Hrest as [-> HF]. split; [reflexivity|].
      constructor; [|exact HF]. exists mn', m', m. cbn [fst snd].
      split; [exact Eq|split; [reflexivity|split; lia]].
    + intros [-> HF]. inversion HF as [|q' rest' Hq Hrest]; subst.
      destruct Hq as (mn' & m' & m & Hq & Hm & Hlo & Hhi).
      rewrite Hq. cbn [pybind fst snd]. destruct r as [mn mx]. cbn [fst snd] in *.
      subst mx. destruct (Z.ltb_spec mn' mn); [lia|]. cbn [pybind snd py_gt].
      destruct (Z.ltb_spec m m'); [lia|]. cbn [pybind].
      apply IH. split; [reflexivity|exact Hrest].
Qed.

Lemma merge_match_counts_raises (alts : list BasePattern) :
  Forall (fun q => exists c, get_match_count q = Return c) alts ->
  forall r e, merge_match_counts (Some r) alts = Raise e -> e = TypeError.
Proof.
  induction 1 as [|q rest [c Hq] _ IH]; intros r e.
  - discriminate.
  - cbn [merge_match_counts]. rewrite Hq. cbn [pybind].
    destruct (Z.ltb (fst c) (fst r)); [cbn; congruence|]. cbn [pybind].
    destruct (snd r) as [m|].
    + destruct (snd c) as [m'|]; [|cbn; congruence]. cbn [py_gt pybind].
      destruct (Z.ltb m m'); [cbn; congruence|]. cbn [pybind]. apply IH.
    + cbn. congruence.
Qed.

(** X12.  [Alternatives.get_match_count] never merges anything: it
    returns exactly when the count of the first alternative is bounded
    and already covers the count of every other alternative, and then it
    returns the count of the first.  In every other case in which the
    alternatives have counts it raises [TypeError], as it does without
    any alternative. *)
Theorem Alternatives_get_match_count_is_first (p : BasePattern)
  (alts : list BasePattern) :
  (forall r,
     get_match_count (Alternatives (p :: alts)) = Return r
     <-> get_match_count p = Return r /\ Forall (within_count r) alts)
  /\ (Forall (fun q => exists c, get_match_count q = Return c) (p :: alts) ->
      forall e, get_match_count (Alternatives (p :: alts)) = Raise e ->
                e = TypeError)
  /\ get_match_count (Alternatives []) = Raise TypeError.
Proof.
  rewrite !get_match_count_Alternatives. split; [|split; [|reflexivity]].
  - intros r. cbn [merge_match_counts].
    destruct (get_match_count p) as [sub|e]; cbn [pybind].
    + rewrite merge_match_counts_returns. split.
      * intros [-> HF]. now split.
      * intros [H HF]. injection H as ->. now split.
    + split; [discriminate|]. intros [H _]. discriminate H.
  - intros HF e. inversion HF as [|q rest [c Hp] Hrest]; subst.
    cbn [merge_match_counts]. rewrite Hp. cbn [pybind].
    now apply merge_match_counts_raises.
Qed.

(** ** Valid rule lists and [Dispatch] *)

Section Rule_lists.
Context {U : Type} {K : Kernel}.

Lemma is_rule_inv (item : BaseElement) :
  is_rule item = true ->
  exists h lhs rhs, item = Expression h [lhs; rhs]
    /\ head_in item [SymbolRule; SymbolRuleDelayed] = true
    /\ head_in item [SymbolList; SymbolDispatch] = false.
Proof.
  unfold is_rule. intros H. apply andb_true_iff in H as [Hh Hl].
  destruct item as [| | |h es|]; try discriminate.
  destruct es as [|lhs [|rhs [|]]]; try discriminate.
  exists h, lhs, rhs. split; [reflexivity|]. split; [exact Hh|].
  unfold head_in in *. cbn [existsb get_head] in *.
  rewrite orb_false_r in *. apply orb_true_iff in Hh as [Hh|Hh];
    apply sameQ_eq in Hh; subst h; reflexivity.
Qed.

(** The test of rules by head symbol in [create_rules] and the test by
    head name in [eval_create] agree. *)
Lemma is_rule_has_form (item : BaseElement) :
  is_rule item
  = has_form item "System`Rule" [2] || has_form item "System`RuleDelayed" [2].
Proof.
  unfold is_rule, head_in, has_form.
  destruct item as [| | |h es|]; try reflexivity.
  cbn [get_head get_elements existsb]. rewrite !orb_false_r.
  destruct h as [| |n| |]; try reflexivity.
  cbn [sameQ get_name SymbolRule SymbolRuleDelayed].
  now rewrite andb_orb_distrib_l.
Qed.

(** On valid rules the last loop of [create_rules] compiles the rules
    one by one, as [Dispatch.__init__] does. *)
Lemma create_rules_loop_valid (name : string) (items : list BaseElement) :
  forallb is_rule items = true ->
  forall (result : list Rule) (ev : Evaluation U),
    create_rules_loop name items result ev =
      bind (lift (Dispatch_rules items))
        (fun rs => ret (RulesList (result ++ rs))) ev.
Proof.
  induction items as [|item rest IH]; intros Hall result ev.
  - cbn. now rewrite app_nil_r.
  - cbn [forallb] in Hall. apply andb_true_iff in Hall as [Hitem Hrest].
    destruct (is_rule_inv item Hitem) as (h & lhs & rhs & -> & Hh & _).
    rewrite create_rules_loop_Expression. cbv zeta.
    cbn [Dispatch_rules get_elements]. rewrite Hh. cbn [negb].
    unfold bind at 1, lift at 1.
    destruct (Rule_new lhs rhs) as [r|e]; [|reflexivity].
    rewrite (IH Hrest). unfold bind, lift. cbn [pybind].
    destruct (Dispatch_rules rest) as [rs|e]; [|reflexivity].
    cbn. unfold ret. now rewrite <- app_assoc.
Qed.

Lemma valid_rules_no_lists (items : list BaseElement) :
  forallb is_rule items = true ->
  existsb (fun item => head_in item [SymbolList; SymbolDispatch]) items = false.
Proof.
  induction items as [|item rest IH]; [reflexivity|].
  cbn [forallb existsb]. intros H. apply andb_true_iff in H as [Hitem Hrest].
  destruct (is_rule_inv item Hitem) as (h & lhs & rhs & _ & _ & Hn).
  rewrite Hn. now apply IH.
Qed.

Lemma create_rules_valid_list (items : list BaseElement) (expr : BaseElement)
  (name : string) (extra_args : option (list BaseElement)) (ev : Evaluation U) :
  forallb is_rule items = true ->
  create_rules (ListExpression items) expr name extra_args ev =
    create_rules (Dispatch items) expr name extra_args ev.
Proof.
  intros Hall. unfold create_rules, ListExpression, SymbolList.
  cbn [has_form_any get_name get_elements String.eqb Ascii.eqb Bool.eqb andb].
  change (Symbol "System`List") with SymbolList.
  rewrite (valid_rules_no_lists items Hall).
  now rewrite (create_rules_loop_valid name items Hall).
Qed.

Lemma create_rules_Dispatch (items : list BaseElement) (rs : list Rule)
  (expr : BaseElement) (name : string) (extra_args : option (list BaseElement))
  (ev : Evaluation U) :
  Dispatch_rules items = Return rs ->
  create_rules (Dispatch items) expr name extra_args ev = (ev, Return (RulesList rs)).
Proof. intros H. cbn. unfold bind, lift. now rewrite H. Qed.

(** X13.  A [Dispatch] atom is transparent to the four drivers: made of
    valid rules whose left-hand sides compile, it gives what the list of
    these rules gives, and nothing is emitted while the rules are
    prepared. *)
Theorem Dispatch_is_transparent (items : list BaseElement) (rs : list Rule)
  (expr : BaseElement) (ev : Evaluation U) :
  forallb is_rule items = true ->
  Dispatch_rules items = Return rs ->
  (ReplaceAll_eval expr (Dispatch items) ev
   = (ev, Return (Some (fst (do_apply_rules expr rs))))
   /\ ReplaceAll_eval expr (ListExpression items) ev
      = ReplaceAll_eval expr (Dispatch items) ev)
  /\ (forall ls heads,
        (forall name tag, python_levelspec ls <> Raise (PatternError name tag)) ->
        Replace_eval_levelspec expr (ListExpression items) ls heads ev
        = Replace_eval_levelspec expr (Dispatch items) ls heads ev)
  /\ (forall fuel maxit,
        ReplaceRepeated_eval_list fuel expr (ListExpression items) maxit ev
        = ReplaceRepeated_eval_list fuel expr (Dispatch items) maxit ev)
  /\ (forall maxidx,
        ReplaceList_eval expr (ListExpression items) maxidx ev
        = ReplaceList_eval expr (Dispatch items) maxidx ev).
Proof.
  intros Hall Hrs.
  assert (HD : forall name extra_args (ev' : Evaluation U),
             create_rules (Dispatch items) expr name extra_args ev'
             = (ev', Return (RulesList rs))).
  { intros. now apply create_rules_Dispatch. }
  assert (HL : forall name extra_args (ev' : Evaluation U),
             create_rules (ListExpression items) expr name extra_args ev'
             = (ev', Return (RulesList rs))).
  { intros. rewrite create_rules_valid_list by exact Hall. apply HD. }
  split; [split|split; [|split]].
  - unfold ReplaceAll_eval, try_catch, bind. now rewrite HD.
  - unfold ReplaceAll_eval, try_catch, bind. now rewrite HD, HL.
  - intros ls heads Hls. unfold Replace_eval_levelspec, try_catch, bind.
    rewrite HD, HL. cbn [unpack_rules]. unfold lift.
    destruct (python_levelspec ls) as [levelspec|e]; [reflexivity|].
    destruct e; try reflexivity. now contradiction (Hls name tag).
  - intros fuel maxit. unfold ReplaceRepeated_eval_list, try_catch, bind.
    now rewrite HD, HL.
  - intros maxidx. unfold ReplaceList_eval.
    destruct (if sameQ maxidx SymbolInfinity then _ else _) as [max_count|];
      [|reflexivity].
    unfold try_catch, bind. now rewrite HD, HL.
Qed.

Lemma create_rules_list_of_lists (rules_expr expr : BaseElement) (name : string)
  (extra_args : option (list BaseElement)) (ev : Evaluation U) :
  is_list_of_lists rules_expr = true ->
  create_rules rules_expr expr name extra_args ev
  = (ev, Return (FinalResult
                   (Some (threaded name expr rules_expr
                            (from_option id [] extra_args))))).
Proof.
  unfold is_list_of_lists. intros H.
  apply andb_true_iff in H as [H Hall]. apply andb_true_iff in H as [Hnd Hne].
  rewrite create_rules_not_Dispatch by exact Hnd. cbv zeta. rewrite Hall.
  assert (existsb (fun item => head_in item [SymbolList; SymbolDispatch])
            (rule_items rules_expr) = true) as ->; [|reflexivity].
  destruct (rule_items rules_expr) as [|item rest]; [discriminate|].
  cbn [forallb] in Hall. apply andb_true_iff in Hall as [Hitem _].
  cbn [existsb]. unfold head_in at 1. cbn [existsb]. now rewrite Hitem.
Qed.

Lemma valid_maxidx_checked (maxidx : BaseElement) :
  valid_maxidx maxidx = true ->
  (if sameQ maxidx SymbolInfinity then Some None
   else match get_int_value maxidx with
        | Some max_count =>
            if (max_count <? 0)%Z then None else Some (Some max_count)
        | None => None
        end) <> None.
Proof.
  unfold valid_maxidx. intros Hv.
  destruct (sameQ maxidx SymbolInfinity); [discriminate|].
  cbn [orb] in Hv. destruct (get_int_value maxidx) as [n|]; [|discriminate].
  apply Z.leb_le in Hv. destruct (Z.ltb_spec n 0); [lia|discriminate].
Qed.

(** X14.  A non-empty list of lists of rules is threaded: each driver
    returns the list of its own calls, one per element, and emits
    nothing.  The calls are built from the expression and the element
    only: [Replace] drops its level specification and [Heads], without
    even checking them, and [ReplaceRepeated] its [MaxIterations];
    [ReplaceList] alone passes its third argument on. *)
Theorem lists_of_rules_are_threaded (expr rules : BaseElement) (ev : Evaluation U) :
  is_list_of_lists rules = true ->
  ReplaceAll_eval expr rules ev
  = (ev, Return (Some (threaded "ReplaceAll" expr rules [])))
  /\ (forall ls heads,
        Replace_eval_levelspec expr rules ls heads ev
        = (ev, Return (Some (threaded "Replace" expr rules []))))
  /\ (forall fuel maxit,
        ReplaceRepeated_eval_list fuel expr rules maxit ev
        = Some (ev, Return (Some (threaded "ReplaceRepeated" expr rules []))))
  /\ (forall maxidx,
        valid_maxidx maxidx = true ->
        ReplaceList_eval expr rules maxidx ev
        = (ev, Return (Some (threaded "ReplaceList" expr rules [maxidx])))).
Proof.
  intros H. split; [|split; [|split]].
  - unfold ReplaceAll_eval, try_catch, bind.
    now rewrite (create_rules_list_of_lists rules expr "ReplaceAll" None ev H).
  - intros ls heads. unfold Replace_eval_levelspec, try_catch, bind.
    now rewrite (create_rules_list_of_lists rules expr "Replace" None ev H).
  - intros fuel maxit. unfold ReplaceRepeated_eval_list, try_catch, bind.
    now rewrite (create_rules_list_of_lists rules expr "ReplaceRepeated" None ev H).
  - intros maxidx Hv. unfold ReplaceList_eval.
    pose proof (valid_maxidx_checked maxidx Hv) as Hc.
    destruct (if sameQ maxidx SymbolInfinity then _ else _) as [max_count|];
      [|contradiction].
    unfold try_catch, bind.
    now rewrite (create_rules_list_of_lists rules expr "ReplaceList"
                   (Some [maxidx]) ev H).
Qed.

(** X15.  A [Dispatch[...]] expression (not the atom) as the rule
    argument is never applied.  [create_rules] answers it with a bare
    [Dispatch] object where its callers unpack a pair: when the elements
    can be made into rules every driver raises [TypeError], and in no
    case does [ReplaceAll] return a result. *)
Theorem Dispatch_expression_is_not_applied (expr : BaseElement)
  (es : list BaseElement) (ev : Evaluation U) :
  let rules := Expression SymbolDispatch es in
  (forall rs, Dispatch_rules es = Return rs ->
     ReplaceAll_eval expr rules ev = (ev, Raise TypeError)
     /\ (forall ls heads,
           Replace_eval_levelspec expr rules ls heads ev = (ev, Raise TypeError))
     /\ (forall fuel maxit,
           ReplaceRepeated_eval_list fuel expr rules maxit ev
           = Some (ev, Raise TypeError))
     /\ (forall maxidx,
           valid_maxidx maxidx = true ->
           ReplaceList_eval expr rules maxidx ev = (ev, Raise TypeError)))
  /\ (forall result, snd (ReplaceAll_eval expr rules ev) <> Return (Some result)).
Proof.
  intros rules.
  assert (Hc : forall name extra_args (ev' : Evaluation U),
             create_rules rules expr name extra_args ev'
             = match Dispatch_rules es with
               | Return _ => (ev', Return (DispatchObject es))
               | Raise e => (ev', Raise e)
               end).
  { intros. unfold rules, create_rules, SymbolDispatch.
    cbn [has_form_any get_name String.eqb Ascii.eqb Bool.eqb get_elements].
    unfold bind, lift. now destruct (Dispatch_rules es). }
  split.
  - intros rs Hrs. split; [|split; [|split]].
    + unfold ReplaceAll_eval, try_catch, bind. now rewrite Hc, Hrs.
    + intros ls heads. unfold Replace_eval_levelspec, try_catch, bind.
      now rewrite Hc, Hrs.
    + intros fuel maxit. unfold ReplaceRepeated_eval_list, try_catch, bind.
      now rewrite Hc, Hrs.
    + intros maxidx Hv. unfold ReplaceList_eval.
      pose proof (valid_maxidx_checked maxidx Hv) as Hne.
      destruct (if sameQ maxidx SymbolInfinity then _ else _) as [max_count|];
        [|contradiction].
      unfold try_catch, bind. now rewrite Hc, Hrs.
  - intros result. unfold ReplaceAll_eval, try_catch, bind. rewrite Hc.
    destruct (Dispatch_rules es) as [rs|e]; [discriminate|].
    unfold except_PatternError. destruct e; discriminate.
Qed.

End Rule_lists.

Lemma Dispatch_is_transparent_witness :
  ReplaceAll_eval (U := unit) (K := plain_kernel) (Symbol "x")
    (Dispatch [rule_expr (Symbol "a") (Symbol "b")]) (mkEvaluation [] tt)
  = (mkEvaluation [] tt, Return (Some (Symbol "x")))
  /\ ReplaceAll_eval (U := unit) (K := plain_kernel) (Symbol "x")
       (ListExpression [rule_expr (Symbol "a") (Symbol "b")]) (mkEvaluation [] tt)
     = ReplaceAll_eval (U := unit) (K := plain_kernel) (Symbol "x")
         (Dispatch [rule_expr (Symbol "a") (Symbol "b")]) (mkEvaluation [] tt).
Proof.
  apply (Dispatch_is_transparent (U := unit) (K := plain_kernel)
           [rule_expr (Symbol "a") (Symbol "b")]
           [mkRule (AtomPattern (Symbol "a")) (Symbol "b")]
           (Symbol "x") (mkEvaluation [] tt)); reflexivity.
Defined.

Lemma lists_of_rules_are_threaded_witness :
  Replace_eval_levelspec (U := unit) (K := plain_kernel) (Symbol "x")
    (ListExpression [ListExpression [rule_expr (Symbol "x") (Symbol "y")]])
    (ListExpression [Integer 1]) SymbolTrue (mkEvaluation [] tt)
  = (mkEvaluation [] tt,
     Return (Some (ListExpression
       [Expression (Symbol "Replace")
          [Symbol "x"; ListExpression [rule_expr (Symbol "x") (Symbol "y")]]]))).
Proof.
  apply (lists_of_rules_are_threaded (U := unit) (K := plain_kernel) (Symbol "x")
           (ListExpression [ListExpression [rule_expr (Symbol "x") (Symbol "y")]])
           (mkEvaluation [] tt)).
  reflexivity.
Defined.

(** ** What a limit of [ReplaceList] guarantees *)

Section ReplaceList_bound.
Context {U : Type} {K : Kernel}.

Lemma Rule_yield_match_counts (rule : Rule) (n : nat) :
  related_yield (fun _ _ => True) (fun l => length l < n)
    (fun l : list BaseElement => length l = n) StopGenerator_BaseRule
    (Rule_yield_match rule (Some (Z.of_nat n)))
    (Rule_yield_match rule (Some (Z.of_nat n))).
Proof.
  intros v r ev HI. unfold Rule_yield_match, truncates.
  cbn [from_option fst snd locals]. rewrite length_app. cbn [length].
  destruct (Z.leb_spec (Z.of_nat n) (Z.of_nat (length (locals ev) + 1))).
  - right. split; [reflexivity|]. split; [lia|exact Logic.I].
  - left. split; [reflexivity|]. lia.
Qed.

(** One rule applied with the limit [n] gives at most [n] results. *)
Lemma Rule_apply_at_most (rule : Rule) (expression : BaseElement) (n : nat)
  (ev : Evaluation U) (l : list BaseElement) :
  snd (Rule_apply rule expression (Some (Z.of_nat n)) ev) = Return l ->
  length l <= n.
Proof.
  unfold Rule_apply. cbn [from_option].
  destruct (Z.leb_spec (Z.of_nat n) 0) as [Hn|Hn].
  { cbn. intros H. injection H as <-. cbn. lia. }
  pose proof (match_related_all (fun _ _ : list BaseElement => True)
                (fun _ => Logic.I) (fun _ _ _ _ _ => Logic.I)
                (fun l => length l < n) (fun l => length l = n)
                StopGenerator_BaseRule (rule_pattern rule) expression
                (Rule_yield_match rule (Some (Z.of_nat n)))
                (Rule_yield_match rule (Some (Z.of_nat n))) ∅ None None None
                (Rule_yield_match_counts rule n)
                (fun v r ev' => Logic.I)
                (mkEvaluation (out ev) []) ltac:(cbn; lia)) as Hrel.
  unfold fresh_context.
  destruct (match_ (rule_pattern rule) expression
              (mkContext (Rule_yield_match rule (Some (Z.of_nat n))) ∅ None None None)
              (mkEvaluation (out ev) [])) as [ev' r].
  assert (Hlen : length (locals ev') <= n).
  { destruct Hrel as [[_ HI]|(_ & HF & _)]; cbn [fst] in *; lia. }
  destruct r as [[]|e]; cbn [snd].
  - intros H. injection H as <-. exact Hlen.
  - destruct e; cbn [snd]; try discriminate.
    intros H. injection H as <-. exact Hlen.
Qed.

Lemma ReplaceList_loop_at_most (rules : list Rule) (expr : BaseElement) (n : nat) :
  forall (list_result : list BaseElement) (ev : Evaluation U) (l : list BaseElement),
    snd (ReplaceList_loop rules expr (Some (Z.of_nat n)) list_result ev) = Return l ->
    length l <= length list_result + n * length rules.
Proof.
  induction rules as [|rule rest IH]; intros list_result ev l.
  - cbn. intros H. injection H as <-. lia.
  - cbn [ReplaceList_loop]. unfold bind.
    pose proof (Rule_apply_at_most rule expr n ev) as Hone.
    destruct (Rule_apply rule expr (Some (Z.of_nat n)) ev) as [ev' [result|e]];
      cbn [snd] in *; [|discriminate].
    intros H. apply IH in H. rewrite length_app in H.
    specialize (Hone result eq_refl). cbn [length]. lia.
Qed.

(** What the last loop of [create_rules] can return: as many rules as
    there are elements, or no result after a diagnostic. *)
Lemma create_rules_loop_results (name : string) (items : list BaseElement) :
  forall (result : list Rule) (ev : Evaluation U) (r : create_rules_result),
    snd (create_rules_loop name items result ev) = Return r ->
    match r with
    | RulesList rs => length rs = length result + length items
    | FinalResult res => res = None
    | DispatchObject _ => False
    end.
Proof.
  induction items as [|item rest IH]; intros result ev r.
  - cbn. intros H. injection H as <-. lia.
  - destruct (is_Atom item) eqn:Hatom.
    { rewrite create_rules_loop_atom by exact Hatom. discriminate. }
    destruct item as [v|v|n|h es|d]; try discriminate.
    rewrite create_rules_loop_Expression. cbv zeta.
    set (item := Expression h es).
    destruct (negb (head_in item [SymbolRule; SymbolRuleDelayed])).
    { cbn. intros H. injection H as <-. reflexivity. }
    destruct (get_elements item) as [|lhs [|rhs [|x l]]];
      try (cbn; intros H; injection H as <-; reflexivity).
    unfold bind at 1, lift at 1.
    destruct (Rule_new lhs rhs) as [ru|e]; [|discriminate].
    intros H. apply IH in H. destruct r; try exact H.
    rewrite length_app in H. cbn [length] in *. lia.
Qed.

(** X16.  What the limit of [ReplaceList] does guarantee.  With a flat
    rule argument (no element is a list) and the integer limit [m], a
    result is returned for [m >= 0] only, it is a list, and it has at
    most [m] elements for each rule: the limit bounds what one rule
    contributes, not the whole list. *)
Theorem ReplaceList_at_most (expr rules : BaseElement) (m : Z)
  (ev : Evaluation U) (res : BaseElement) :
  not_Dispatch rules = true ->
  existsb (fun item => head_in item [SymbolList; SymbolDispatch]) (rule_items rules)
    = false ->
  snd (ReplaceList_eval expr rules (Integer m) ev) = Return (Some res) ->
  (0 <= m)%Z
  /\ exists results, res = ListExpression results
     /\ (Z.of_nat (length results) <= m * Z.of_nat (length (rule_items rules)))%Z.
Proof.
  intros Hnd Hnl. unfold ReplaceList_eval.
  cbn [sameQ SymbolInfinity get_int_value].
  destruct (Z.ltb_spec m 0) as [Hm|Hm]; [discriminate|].
  intros H. split; [exact Hm|]. revert H.
  unfold try_catch, bind.
  rewrite create_rules_not_Dispatch by exact Hnd. cbv zeta.
  fold (rule_items rules). rewrite Hnl.
  pose proof (create_rules_loop_results "ReplaceList" (rule_items rules) [] ev) as Hloop.
  destruct (create_rules_loop "ReplaceList" (rule_items rules) [] ev)
    as [ev' [r|e]]; cbn [snd] in *.
  - specialize (Hloop r eq_refl). cbn [ret].
    destruct r as [rs|result|l]; [| |contradiction].
    + cbn [unpack_rules].
      pose proof (ReplaceList_loop_at_most rs expr (Z.to_nat m) [] ev') as Hb.
      rewrite Z2Nat.id in Hb by exact Hm.
      destruct (ReplaceList_loop rs expr (Some m) [] ev') as [ev'' [lr|e]];
        cbn [snd] in *; [|discriminate].
      intros H. injection H as <-. exists lr. split; [reflexivity|].
      specialize (Hb lr eq_refl). cbn [length] in *. nia.
    + subst result. cbn. discriminate.
  - unfold except_PatternError. destruct e; cbn; discriminate.
Qed.

End ReplaceList_bound.

Lemma ReplaceList_at_most_witness :
  (0 <= 1)%Z
  /\ exists results,
       ListExpression [Symbol "b"; Symbol "c"] = ListExpression results
       /\ (Z.of_nat (length results)
           <= 1 * Z.of_nat (length (rule_items
                (ListExpression [rule_expr (Symbol "a") (Symbol "b");
                                 rule_expr (Symbol "a") (Symbol "c")]))))%Z.
Proof.
  apply (ReplaceList_at_most (U := unit) (K := plain_kernel) (Symbol "a")
           (ListExpression [rule_expr (Symbol "a") (Symbol "b");
                            rule_expr (Symbol "a") (Symbol "c")])
           1 (mkEvaluation [] tt) (ListExpression [Symbol "b"; Symbol "c"])).
  - reflexivity.
  - reflexivity.
  - vm_compute. reflexivity.
Defined.

Lemma ReplaceList_one_rule_prefix_witness :
  let lhs := ExpressionPattern (AtomPattern SymbolList)
               [BlankNullSequence None; Pattern "x" (BlankSequence None);
                BlankNullSequence None] in
  let rule := mkRule lhs (ListExpression [Symbol "x"]) in
  let abc := ListExpression [Symbol "a"; Symbol "b"; Symbol "c"] in
  let all :=
    [ListExpression [Symbol "a"];
     ListExpression [Expression SymbolSequence [Symbol "a"; Symbol "b"]];
     ListExpression [Expression SymbolSequence [Symbol "a"; Symbol "b"; Symbol "c"]];
     ListExpression [Symbol "b"];
     ListExpression [Expression SymbolSequence [Symbol "b"; Symbol "c"]];
     ListExpression [Symbol "c"]] in
  snd (ReplaceList_loop (U := unit) (K := plain_kernel) [rule] abc
         (Some (Z.of_nat 2)) [] (mkEvaluation [] tt))
  = Return (take 2 all)
  /\ length (take 2 all) <= 2.
Proof.
  cbv zeta.
  apply (ReplaceList_one_rule_prefix (U := unit) (K := plain_kernel)
           (mkRule (ExpressionPattern (AtomPattern SymbolList)
                      [BlankNullSequence None; Pattern "x" (BlankSequence None);
                       BlankNullSequence None])
              (ListExpression [Symbol "x"]))
           (ListExpression [Symbol "a"; Symbol "b"; Symbol "c"]) 2 None
           (mkEvaluation [] tt)).
  - reflexivity.
  - vm_compute. reflexivity.
Defined.

Lemma ReplaceRepeated_loop_capped_witness :
  exists r k,
    ReplaceRepeated_loop (K := plain_kernel) 3 [] (Some (Z.of_nat 2)) (Symbol "a")
      None 0 = Some (r, 0 + k)
    /\ k <= 2
    /\ (is_Some (@None BaseElement) \/ 0 < 2 -> exists x, r = Return x).
Proof.
  apply (ReplaceRepeated_loop_capped (K := plain_kernel) [] 2 3 (Symbol "a") None 0).
  lia.
Defined.

Lemma ReplaceRepeated_loop_uncapped_witness :
  exists e,
    let '(res, applied) := do_apply_rules (Kernel := plain_kernel) e [] in
    Return (Symbol "a")
    = Return (if applied then evaluate (Kernel := plain_kernel) res else res)
    /\ (applied = false \/ evaluate (Kernel := plain_kernel) res = e).
Proof.
  apply (ReplaceRepeated_loop_uncapped (K := plain_kernel) [] 1 (-1)%Z (Symbol "a")
           None 0 (Return (Symbol "a")) 1).
  - lia.
  - reflexivity.
Defined.

(** ** The [Dispatch] builtin *)

Section DispatchAtom_properties.
Context {U : Type} {K : Kernel}.

Lemma flatten_rules_accepted (rules : list BaseElement) :
  forallb (fun rule => accepted (evaluate_if_Symbol rule)) rules = true ->
  forall (flatten_list : list BaseElement) (ev : Evaluation U),
    flatten_rules rules flatten_list ev
    = (ev, Return (try_Dispatch
                     (flatten_list
                      ++ concat (map (fun rule => spliced (evaluate_if_Symbol rule))
                                   rules)))).
Proof.
  induction rules as [|rule rest IH]; intros Hall flatten_list ev.
  - cbn. now rewrite app_nil_r.
  - cbn [forallb] in Hall. apply andb_true_iff in Hall as [Hrule Hrest].
    cbn [flatten_rules map concat]. cbv zeta. rewrite app_assoc.
    unfold accepted in Hrule. unfold spliced at 1.
    rewrite <- is_rule_has_form.
    destruct (has_form_any (evaluate_if_Symbol rule) "System`List") eqn:El.
    + now apply IH.
    + destruct (is_rule (evaluate_if_Symbol rule)) eqn:Er.
      * destruct (is_rule_inv _ Er) as (h & lhs & rhs & -> & _). now apply IH.
      * cbn [orb] in Hrule.
        destruct (evaluate_if_Symbol rule); try discriminate. now apply IH.
Qed.

Lemma flatten_rules_rejected (good : list BaseElement) (bad : BaseElement)
  (rest : list BaseElement) :
  forallb (fun rule => accepted (evaluate_if_Symbol rule)) good = true ->
  accepted (evaluate_if_Symbol bad) = false ->
  forall (flatten_list : list BaseElement) (ev : Evaluation U),
    flatten_rules (good ++ bad :: rest) flatten_list ev
    = (add_message ev (mkMessage "Dispatch" "invrpl"
                         [ArgExpr (evaluate_if_Symbol bad)]),
       Return CreatedNone).
Proof.
  intros Hgood Hbad. induction good as [|rule good IH]; intros flatten_list ev.
  - cbn [app flatten_rules]. cbv zeta. unfold accepted in Hbad.
    rewrite <- is_rule_has_form.
    apply orb_false_iff in Hbad as [Hbad Hd].
    apply orb_false_iff in Hbad as [-> ->].
    destruct (evaluate_if_Symbol bad); try discriminate; reflexivity.
  - cbn [forallb] in Hgood. apply andb_true_iff in Hgood as [Hrule Hgood].
    cbn [app flatten_rules]. cbv zeta.
    unfold accepted in Hrule. rewrite <- is_rule_has_form.
    destruct (has_form_any (evaluate_if_Symbol rule) "System`List");
      [now apply IH|].
    destruct (is_rule (evaluate_if_Symbol rule)); [now apply IH|].
    cbn [orb] in Hrule.
    destruct (evaluate_if_Symbol rule); try discriminate. now apply IH.
Qed.

Lemma valid_rules_accepted (items : list BaseElement) :
  forallb is_rule items = true ->
  forallb (fun rule => accepted (evaluate_if_Symbol rule)) items = true
  /\ concat (map (fun rule => spliced (evaluate_if_Symbol rule)) items) = items.
Proof.
  induction items as [|item rest IH]; [now split|].
  cbn [forallb]. intros H. apply andb_true_iff in H as [Hitem Hrest].
  destruct (IH Hrest) as [IH1 IH2].
  destruct (is_rule_inv item Hitem) as (h & lhs & rhs & -> & Hh & Hn).
  cbn [evaluate_if_Symbol map concat]. rewrite IH1, IH2.
  unfold accepted, spliced. rewrite Hitem.
  unfold head_in in Hn. cbn [existsb get_head] in Hn.
  apply orb_false_iff in Hn as [Hn _].
  assert (El : has_form_any (Expression h [lhs; rhs]) "System`List" = false).
  { cbn [has_form_any]. destruct h as [| |n| |]; try reflexivity.
    cbn [sameQ SymbolList get_name] in *. exact Hn. }
  rewrite El. now split.
Qed.

Lemma eval_create_flat_list (items : list BaseElement) (ev : Evaluation U) :
  forallb (fun rule => has_form_any rule "System`List") items = false ->
  eval_create (ListExpression items) ev = flatten_rules items [] ev.
Proof.
  intros H. unfold eval_create, ListExpression, SymbolList.
  cbn [evaluate_if_Symbol eval_create_list get_name String.eqb Ascii.eqb Bool.eqb].
  now rewrite H.
Qed.

(** X20.  [Dispatch] of valid rules.  A non-empty list of rules of
    arity 2 whose left-hand sides compile becomes the [Dispatch] atom of
    these rules, without a message; [Dispatch] of that atom is the atom
    again; and [Normal] gives the list of rules back. *)
Theorem Dispatch_of_valid_rules (items : list BaseElement) (rs : list Rule)
  (ev : Evaluation U) :
  items <> [] ->
  forallb is_rule items = true ->
  Dispatch_rules items = Return rs ->
  eval_create (ListExpression items) ev
  = (ev, Return (CreatedElement (Dispatch items)))
  /\ eval_create (Dispatch items) ev = (ev, Return (CreatedElement (Dispatch items)))
  /\ eval_normal (Dispatch items) = Return (ListExpression items).
Proof.
  intros Hne Hall Hrs. split; [|split; reflexivity].
  destruct (valid_rules_accepted items Hall) as [Hacc Hflat].
  rewrite eval_create_flat_list.
  - rewrite (flatten_rules_accepted items Hacc). cbn [app]. rewrite Hflat.
    unfold try_Dispatch. now rewrite Hrs.
  - destruct items as [|item rest]; [contradiction|].
    cbn [forallb] in *. apply andb_true_iff in Hall as [Hitem _].
    destruct (is_rule_inv item Hitem) as (h & lhs & rhs & -> & _ & Hn).
    unfold head_in in Hn. cbn [existsb get_head] in Hn.
    apply orb_false_iff in Hn as [Hn _].
    cbn [has_form_any]. destruct h as [| |n| |]; try reflexivity.
    cbn [sameQ SymbolList get_name] in *. now rewrite Hn.
Qed.

(** X21.  [Dispatch] splices nested lists in, unchecked.  When the
    elements are not all lists and each is a list, a rule of arity 2 or
    a [Dispatch] atom (symbols being evaluated first), the atom is made
    of the rules with the elements of the lists and the rules of the
    atoms in their place, and no message is emitted.  The elements of a
    nested list are not looked at: the atom is built as soon as each
    entry has two elements and a first element that compiles, whatever
    its head. *)
Theorem eval_create_splices_lists (items : list BaseElement) (ev : Evaluation U) :
  forallb (fun rule => has_form_any rule "System`List") items = false ->
  forallb (fun rule => accepted (evaluate_if_Symbol rule)) items = true ->
  let flatten_list :=
    concat (map (fun rule => spliced (evaluate_if_Symbol rule)) items) in
  eval_create (ListExpression items) ev = (ev, Return (try_Dispatch flatten_list))
  /\ (Forall (fun rule => exists lhs rhs others pattern,
                 get_elements rule = lhs :: rhs :: others
                 /\ create lhs = Return pattern) flatten_list ->
      try_Dispatch flatten_list = CreatedElement (Dispatch flatten_list)).
Proof.
  intros Hnl Hacc flatten_list. split.
  - rewrite eval_create_flat_list by exact Hnl.
    now rewrite (flatten_rules_accepted items Hacc).
  - intros HF. unfold try_Dispatch.
    assert (H : exists rs, Dispatch_rules flatten_list = Return rs).
    { clear -HF.
      induction HF as [|rule l (lhs & rhs & others & pattern & He & Hc) _ [rs IH]].
      - now exists [].
      - cbn [Dispatch_rules]. rewrite He. unfold Rule_new. rewrite Hc.
        cbn [pybind]. rewrite IH. cbn [pybind]. now eexists. }
    destruct H as [rs ->]. reflexivity.
Qed.

Lemma eval_create_reports_invalid_flat (good : list BaseElement)
  (bad : BaseElement) (rest : list BaseElement) (ev : Evaluation U) :
  forallb (fun rule => accepted (evaluate_if_Symbol rule)) good = true ->
  accepted (evaluate_if_Symbol bad) = false ->
  eval_create (ListExpression (good ++ bad :: rest)) ev
  = (add_message ev (mkMessage "Dispatch" "invrpl"
                       [ArgExpr (evaluate_if_Symbol bad)]),
     Return CreatedNone).
Proof.
  intros Hgood Hbad. rewrite eval_create_flat_list.
  - now apply flatten_rules_rejected.
  - rewrite forallb_app. cbn [forallb].
    assert (has_form_any bad "System`List" = false) as ->.
    { destruct bad as [| | |h es|]; try reflexivity.
      cbn [evaluate_if_Symbol] in Hbad. unfold accepted in Hbad.
      apply orb_false_iff in Hbad as [Hbad _].
      now apply orb_false_iff in Hbad as [Hbad _]. }
    cbn [andb]. apply andb_false_r.
Qed.

(** X22.  [Dispatch] reports the first element it cannot take.  When an
    element (evaluated, if it is a symbol) is neither a list nor a rule
    of arity 2 nor a [Dispatch] atom, and the elements before it are,
    the call emits [Dispatch::invrpl] for that element and returns
    [None]; what follows is not looked at. *)
Theorem eval_create_reports_invalid (good : list BaseElement) (bad : BaseElement)
  (rest : list BaseElement) (ev : Evaluation U) :
  forallb (fun rule => accepted (evaluate_if_Symbol rule)) good = true ->
  accepted (evaluate_if_Symbol bad) = false ->
  eval_create (ListExpression (good ++ bad :: rest)) ev
  = (add_message ev (mkMessage "Dispatch" "invrpl"
                       [ArgExpr (evaluate_if_Symbol bad)]),
     Return CreatedNone).
Proof.
  intros Hgood Hbad. rewrite eval_create_flat_list.
  - now apply flatten_rules_rejected.
  - rewrite forallb_app. cbn [forallb].
    assert (has_form_any bad "System`List" = false) as ->.
    { destruct bad as [| | |h es|]; try reflexivity.
      cbn [evaluate_if_Symbol] in Hbad. unfold accepted in Hbad.
      apply orb_false_iff in Hbad as [Hbad _].
      now apply orb_false_iff in Hbad as [Hbad _]. }
    cbn [andb]. apply andb_false_r.
Qed.

End DispatchAtom_properties.

Lemma Dispatch_of_valid_rules_witness :
  eval_create (U := unit) (K := plain_kernel)
    (ListExpression [rule_expr (Symbol "a") (Symbol "b")]) (mkEvaluation [] tt)
  = (mkEvaluation [] tt,
     Return (CreatedElement (Dispatch [rule_expr (Symbol "a") (Symbol "b")])))
  /\ eval_create (U := unit) (K := plain_kernel)
       (Dispatch [rule_expr (Symbol "a") (Symbol "b")]) (mkEvaluation [] tt)
     = (mkEvaluation [] tt,
        Return (CreatedElement (Dispatch [rule_expr (Symbol "a") (Symbol "b")])))
  /\ eval_normal (Dispatch [rule_expr (Symbol "a") (Symbol "b")])
     = Return (ListExpression [rule_expr (Symbol "a") (Symbol "b")]).
Proof.
  apply (Dispatch_of_valid_rules (U := unit) (K := plain_kernel)
           [rule_expr (Symbol "a") (Symbol "b")]
           [mkRule (AtomPattern (Symbol "a")) (Symbol "b")] (mkEvaluation [] tt)).
  - discriminate.
  - reflexivity.
  - reflexivity.
Defined.

(** [Dispatch[{a -> b, {f[x, y]}}]]: the entry [f[x, y]] of the nested
    list is no rule, and is taken as one. *)
Lemma eval_create_splices_lists_witness :
  eval_create (U := unit) (K := plain_kernel)
    (ListExpression [rule_expr (Symbol "a") (Symbol "b");
                     ListExpression [Expression (Symbol "f") [Symbol "x"; Symbol "y"]]])
    (mkEvaluation [] tt)
  = (mkEvaluation [] tt,
     Return (CreatedElement
               (Dispatch [rule_expr (Symbol "a") (Symbol "b");
                          Expression (Symbol "f") [Symbol "x"; Symbol "y"]]))).
Proof.
  destruct (eval_create_splices_lists (U := unit) (K := plain_kernel)
              [rule_expr (Symbol "a") (Symbol "b");
               ListExpression [Expression (Symbol "f") [Symbol "x"; Symbol "y"]]]
              (mkEvaluation [] tt) eq_refl eq_refl) as [H1 H2].
  rewrite H1. reflexivity.
Defined.

Lemma eval_create_reports_invalid_witness :
  eval_create (U := unit) (K := plain_kernel)
    (ListExpression [rule_expr (Symbol "a") (Symbol "b"); Integer 1;
                     rule_expr (Symbol "c") (Symbol "d")])
    (mkEvaluation [] tt)
  = (mkEvaluation [mkMessage "Dispatch" "invrpl" [ArgExpr (Integer 1)]] tt,
     Return CreatedNone).
Proof.
  apply (eval_create_reports_invalid (U := unit) (K := plain_kernel)
           [rule_expr (Symbol "a") (Symbol "b")] (Integer 1)
           [rule_expr (Symbol "c") (Symbol "d")] (mkEvaluation [] tt));
    reflexivity.
Defined.

(** ** The builtins [Rule] and [RuleDelayed] *)

Section Rule_arity.
Context {U : Type}.

(** Wrapping a run of elements and taking the sequence apart again gives
    the elements back, unless the run is one [Sequence[...]]. *)
Lemma get_sequence_wrap_run (es : list BaseElement) :
  no_lone_sequence es = true -> get_sequence (wrap_run es) = es.
Proof.
  destruct es as [|e [|e' rest]]; try reflexivity.
  cbn [no_lone_sequence wrap_run]. intros H. apply negb_true_iff in H.
  destruct e as [| | |h l|]; try reflexivity.
  cbn [get_sequence has_form_any] in *. now rewrite H.
Qed.

(** X23.  The arity diagnostics of [Rule] and [RuleDelayed].  Applied to
    the arguments [es] (not one held [Sequence[...]]), [eval_rule] and
    [eval_rule_delayed] never rewrite the expression; they are silent
    when there are two arguments and emit one [argrx] message that names
    the number of arguments otherwise.  They are silent exactly on the
    rules that [create_rules] takes as rules of arity 2. *)
Theorem Rule_arity_is_reported (es : list BaseElement) (ev : Evaluation U) :
  no_lone_sequence es = true ->
  eval_rule (wrap_run es) ev
  = (if Nat.eqb (length es) 2 then ev
     else add_message ev
            (mkMessage "Rule" "argrx"
               [ArgStr "Rule"; ArgExpr (Integer (Z.of_nat (length es)));
                ArgExpr (Integer 2)]),
     Return None)
  /\ eval_rule_delayed (wrap_run es) ev
     = (if Nat.eqb (length es) 2 then ev
        else add_message ev
               (mkMessage "RuleDelayed" "argrx"
                  [ArgStr "RuleDelayed"; ArgExpr (Integer (Z.of_nat (length es)));
                   ArgExpr (Integer 2)]),
        Return None)
  /\ is_rule (Expression SymbolRule es) = Nat.eqb (length es) 2
  /\ is_rule (Expression SymbolRuleDelayed es) = Nat.eqb (length es) 2.
Proof.
  intros H. unfold eval_rule, eval_rule_delayed.
  rewrite (get_sequence_wrap_run es H). cbv zeta.
  destruct (Nat.eqb (length es) 2) eqn:E; cbn [negb];
    (split; [reflexivity|split; [reflexivity|]]);
    unfold is_rule; cbn [get_elements]; rewrite E; split; reflexivity.
Qed.

End Rule_arity.

Lemma Rule_arity_is_reported_witness :
  eval_rule (U := unit) (wrap_run [Symbol "a"]) (mkEvaluation [] tt)
  = (mkEvaluation
       [mkMessage "Rule" "argrx"
          [ArgStr "Rule"; ArgExpr (Integer 1); ArgExpr (Integer 2)]] tt,
     Return None).
Proof.
  apply (Rule_arity_is_reported (U := unit) [Symbol "a"] (mkEvaluation [] tt)).
  reflexivity.
Defined.

(** ** Assumptions *)

Section Duplicates.
Context {Ord : Ordering}.

Lemma no_repeat_snoc (u : list BaseElement) (kept a : BaseElement) :
  no_repeat u = true -> last u = Some kept -> sameQ a kept = false ->
  no_repeat (u ++ [a]) = true.
Proof.
  induction u as [|x u IH]; [discriminate|].
  destruct u as [|y u].
  - cbn. intros _ [= ->] Ha. rewrite andb_true_r. apply negb_true_iff.
    apply sameQ_neq. apply sameQ_neq in Ha. congruence.
  - intros Hu Hl Ha. cbn [no_repeat] in Hu. apply andb_true_iff in Hu as [Hxy Hu].
    change ((x :: y :: u) ++ [a]) with (x :: ((y :: u) ++ [a])).
    cbn [app no_repeat]. rewrite Hxy. cbn [andb].
    apply IH; [exact Hu| |exact Ha]. exact Hl.
Qed.

Lemma unique_loop_spec (l : list BaseElement) :
  forall u, u <> [] ->
    exists r, unique_loop l u = Return r
      /\ (forall x, x ∈ r <-> x ∈ u \/ x ∈ l)
      /\ (no_repeat u = true -> no_repeat r = true).
Proof.
  induction l as [|a l IH]; intros u Hu.
  - exists u. split; [reflexivity|]. split; [|tauto].
    intros x. split; [tauto|]. intros [H|H]; [exact H|inversion H].
  - cbn [unique_loop]. destruct (last u) as [kept|] eqn:El.
    2:{ apply last_None in El. contradiction. }
    destruct (sameQ a kept) eqn:Ea; cbn [negb].
    + destruct (IH u Hu) as (r & Hr & Hin & Hnr). exists r.
      split; [exact Hr|]. split; [|exact Hnr].
      intros x. rewrite Hin, elem_of_cons. apply sameQ_eq in Ea. subst a.
      split; [tauto|]. intros [H|[->|H]]; [tauto| |tauto].
      left. apply last_Some in El as [u' ->]. apply elem_of_app. right.
      constructor.
    + destruct (IH (u ++ [a])) as (r & Hr & Hin & Hnr).
      { intros H. apply app_eq_nil in H as [_ H]. discriminate. }
      exists r. split; [exact Hr|]. split.
      * intros x. rewrite Hin, elem_of_app, !elem_of_cons, elem_of_nil.
        tauto.
      * intros Hn. apply Hnr. now apply (no_repeat_snoc u kept a).
Qed.

(** With a [sorted] that permutes its argument the function returns,
    and the result has the elements of the argument. *)
Lemma remove_duplicated_assumptions_elements
  (assumptions_list : list BaseElement) :
  (forall l, sorted l ≡ₚ l) ->
  exists unique_assumptions,
    remove_duplicated_assumptions assumptions_list = Return unique_assumptions
    /\ (forall x, x ∈ unique_assumptions <-> x ∈ assumptions_list).
Proof.
  intros Hperm. unfold remove_duplicated_assumptions.
  destruct assumptions_list as [|a l].
  { exists []. cbn. split; [reflexivity|tauto]. }
  cbn [length Nat.eqb]. cbv zeta.
  pose proof (Hperm (a :: l)) as Hp.
  destruct (sorted (a :: l)) as [|first s] eqn:Es.
  { apply Permutation_nil_l in Hp. discriminate. }
  destruct (unique_loop_spec (first :: s) [first]) as (r & Hr & Hin & _);
    [discriminate|].
  exists r. split; [exact Hr|].
  intros x. rewrite Hin, <- Hp, !elem_of_cons, elem_of_nil. tauto.
Qed.

(** X24.  [remove_duplicated_assumptions] loses no assumption and adds
    none.  When [sorted] permutes its argument, the function returns a
    list with exactly the elements of its argument in which no two
    neighbours are the same. *)
Theorem remove_duplicated_assumptions_keeps_elements
  (assumptions_list : list BaseElement) :
  (forall l, sorted l ≡ₚ l) ->
  exists unique_assumptions,
    remove_duplicated_assumptions assumptions_list = Return unique_assumptions
    /\ (forall x, x ∈ unique_assumptions <-> x ∈ assumptions_list)
    /\ no_repeat unique_assumptions = true.
Proof.
  intros Hperm. unfold remove_duplicated_assumptions.
  destruct assumptions_list as [|a l].
  { exists []. cbn. repeat split; tauto. }
  cbn [length Nat.eqb]. cbv zeta.
  pose proof (Hperm (a :: l)) as Hp.
  destruct (sorted (a :: l)) as [|first s] eqn:Es.
  { apply Permutation_nil_l in Hp. discriminate. }
  destruct (unique_loop_spec (first :: s) [first]) as (r & Hr & Hin & Hnr);
    [discriminate|].
  exists r. split; [exact Hr|]. split; [|now apply Hnr].
  intros x. rewrite Hin, <- Hp, !elem_of_cons, elem_of_nil. tauto.
Qed.

End Duplicates.

Section Truth.
Variable atom : BaseElement -> bool.

Lemma truth_And (e : BaseElement) :
  has_form_any e "System`And" = true ->
  truth atom e = forallb (truth atom) (get_elements e).
Proof.
  destruct e as [| | |h es|]; try discriminate. cbn [has_form_any truth get_elements].
  now intros ->.
Qed.

Lemma truth_Nor (e : BaseElement) :
  has_form_any e "System`Nor" = true ->
  truth atom e = negb (existsb (truth atom) (get_elements e)).
Proof.
  destruct e as [| | |h es|]; try discriminate. cbn [has_form_any truth get_elements].
  intros H. apply String.eqb_eq in H. now rewrite H.
Qed.

Lemma truth_Or (e : BaseElement) :
  has_form_any e "System`Or" = true ->
  truth atom e = existsb (truth atom) (get_elements e).
Proof.
  destruct e as [| | |h es|]; try discriminate. cbn [has_form_any truth get_elements].
  intros H. apply String.eqb_eq in H. now rewrite H.
Qed.

Lemma truth_Not_ (e : BaseElement) : truth atom (Not_ e) = negb (truth atom e).
Proof. reflexivity. Qed.

Lemma has_form_Not (e : BaseElement) :
  has_form e "System`Not" [1] = true ->
  exists h sentence, e = Expression h [sentence] /\ get_name h = "System`Not".
Proof.
  destruct e as [| | |h es|]; try discriminate. cbn [has_form].
  intros H. apply andb_true_iff in H as [Hn Hl]. apply String.eqb_eq in Hn.
  destruct es as [|sentence [|]]; try discriminate. now exists h, sentence.
Qed.

Lemma has_form_Implies (e : BaseElement) :
  has_form e "System`Implies" [2] = true ->
  exists h a b, e = Expression h [a; b] /\ get_name h = "System`Implies".
Proof.
  destruct e as [| | |h es|]; try discriminate. cbn [has_form].
  intros H. apply andb_true_iff in H as [Hn Hl]. apply String.eqb_eq in Hn.
  destruct es as [|a [|b [|]]]; try discriminate. now exists h, a, b.
Qed.

Lemma forallb_map_Not (es : list BaseElement) :
  forallb (truth atom) (map Not_ es) = negb (existsb (truth atom) es).
Proof.
  induction es as [|e es IH]; [reflexivity|].
  cbn [map forallb existsb]. rewrite IH, truth_Not_. now destruct (truth atom e).
Qed.

Lemma existsb_map_Not (es : list BaseElement) :
  existsb (truth atom) (map Not_ es) = negb (forallb (truth atom) es).
Proof.
  induction es as [|e es IH]; [reflexivity|].
  cbn [map forallb existsb]. rewrite IH, truth_Not_. now destruct (truth atom e).
Qed.

Lemma forallb_Permutation (l l' : list BaseElement) :
  l ≡ₚ l' -> forallb (truth atom) l = forallb (truth atom) l'.
Proof.
  induction 1 as [|x l l' _ IH|x y l|l l' l'' _ IH1 _ IH2]; cbn [forallb].
  - reflexivity.
  - now rewrite IH.
  - now destruct (truth atom x), (truth atom y).
  - congruence.
Qed.

Lemma forallb_elem_of (l : list BaseElement) :
  forallb (truth atom) l = true <-> forall x, x ∈ l -> truth atom x = true.
Proof.
  rewrite forallb_forall. split; intros H x Hx; apply H; now apply list_elem_of_In.
Qed.

Lemma forallb_same_elements (l l' : list BaseElement) :
  (forall x, x ∈ l <-> x ∈ l') ->
  forallb (truth atom) l = forallb (truth atom) l'.
Proof.
  intros H. apply eq_true_iff_eq. rewrite !forallb_elem_of.
  split; intros Hl x Hx; apply Hl; now apply H.
Qed.

End Truth.

Section Expansion.
Context {U : Type} {K : Kernel} {Ord : Ordering}.
Hypothesis sorted_permutes : forall l, sorted l ≡ₚ l.

(** The loop never raises and only appends messages; when it emits
    none, the new list says what the old one and the assumptions said. *)
Lemma expand_loop_sound (atom : BaseElement -> bool)
  (assumptions_list : list BaseElement) :
  forall (new : list BaseElement) (changed : bool) (ev : Evaluation U),
  exists t new' changed',
    expand_loop assumptions_list new changed ev
    = (mkEvaluation (out ev ++ t) (locals ev), Return (new', changed'))
    /\ (t = [] ->
        forallb (truth atom) new'
        = forallb (truth atom) new && forallb (truth atom) assumptions_list).
Proof.
  induction assumptions_list as [|assumption rest IH]; intros new changed ev.
  - exists [], new, changed. cbn. rewrite app_nil_r, andb_true_r.
    split; [now destruct ev|reflexivity].
  - assert (Hkeep : forall new0 changed0,
              forallb (truth atom) new0
              = forallb (truth atom) new && truth atom assumption ->
              exists t new' changed',
                expand_loop rest new0 changed0 ev
                = (mkEvaluation (out ev ++ t) (locals ev), Return (new', changed'))
                /\ (t = [] ->
                    forallb (truth atom) new'
                    = forallb (truth atom) new
                      && forallb (truth atom) (assumption :: rest))).
    { intros new0 changed0 H0.
      destruct (IH new0 changed0 ev) as (t & new' & changed' & Hr & Ht).
      exists t, new', changed'. split; [exact Hr|].
      intros E. rewrite (Ht E), H0. cbn [forallb]. now rewrite andb_assoc. }
    assert (Hmsg : forall m,
              exists t new' changed',
                bind (evaluation_message "$Assumptions" m [])
                  (fun _ => expand_loop rest new true) ev
                = (mkEvaluation (out ev ++ t) (locals ev), Return (new', changed'))
                /\ (t = [] ->
                    forallb (truth atom) new'
                    = forallb (truth atom) new
                      && forallb (truth atom) (assumption :: rest))).
    { intros m. unfold bind, evaluation_message.
      destruct (IH new true
                  (mkEvaluation (out ev ++ [mkMessage "$Assumptions" m []])
                     (locals ev))) as (t & new' & changed' & Hr & _).
      exists (mkMessage "$Assumptions" m [] :: t), new', changed'.
      split; [|discriminate]. rewrite Hr. cbn [out locals].
      now rewrite <- app_assoc. }
    cbn [expand_loop].
    destruct assumption as [v|v|n|h es|l].
    + apply Hkeep. cbn [has_form_any has_form]. rewrite forallb_app. cbn.
      now rewrite andb_true_r.
    + apply Hkeep. rewrite forallb_app. cbn. now rewrite andb_true_r.
    + cbn [sameQ SymbolTrue SymbolFalse].
      destruct (String.eqb n "System`True") eqn:ET.
      { apply Hkeep. cbn [truth]. rewrite ET. now rewrite andb_true_r. }
      destruct (String.eqb n "System`False") eqn:EF; [apply Hmsg|].
      destruct (is_numeric (Symbol n)); [apply Hmsg|].
      apply Hkeep. rewrite forallb_app. cbn [forallb]. now rewrite andb_true_r.
    + destruct (has_form_any (Expression h es) "System`And") eqn:EA.
      { apply Hkeep. rewrite forallb_app. now rewrite (truth_And atom _ EA). }
      destruct (has_form (Expression h es) "System`Not" [1]) eqn:EN.
      * destruct (has_form_Not _ EN) as (h0 & sentence & [= <- ->] & Hname).
        assert (HtN : truth atom (Expression h [sentence])
                      = negb (truth atom sentence)).
        { cbn [truth]. now rewrite Hname. }
        assert (HNor : has_form_any (Expression h [sentence]) "System`Nor" = false).
        { cbn [has_form_any]. now rewrite Hname. }
        unfold expand_Not. cbn [get_elements].
        destruct (has_form_any sentence "System`Or") eqn:EO.
        { apply Hkeep. rewrite forallb_app, forallb_map_Not, HtN.
          now rewrite (truth_Or atom _ EO). }
        destruct (has_form_any sentence "System`And") eqn:EA'.
        { apply Hkeep. rewrite forallb_app. cbn [forallb]. rewrite andb_true_r.
          change (truth atom (Expression SymbolOr (map Not_ (get_elements sentence))))
            with (existsb (truth atom) (map Not_ (get_elements sentence))).
          now rewrite existsb_map_Not, HtN, (truth_And atom _ EA'). }
        destruct (has_form sentence "System`Implies" [2]) eqn:EI.
        { destruct (has_form_Implies _ EI) as (h1 & a & b & -> & Hn1).
          cbn [get_elements]. rewrite HNor. apply Hkeep.
          rewrite !forallb_app. cbn [forallb]. rewrite HtN, truth_Not_.
          assert (truth atom (Expression h1 [a; b])
                  = implb (truth atom a) (truth atom b)) as ->.
          { cbn [truth]. now rewrite Hn1. }
          destruct (forallb (truth atom) new), (truth atom a), (truth atom b);
            reflexivity. }
        rewrite HNor. apply Hkeep. rewrite forallb_app. cbn [forallb].
        now rewrite andb_true_r.
      * destruct (has_form_any (Expression h es) "System`Nor") eqn:ENor.
        { apply Hkeep. rewrite forallb_app, forallb_map_Not.
          now rewrite (truth_Nor atom _ ENor). }
        apply Hkeep. rewrite forallb_app. cbn [forallb]. now rewrite andb_true_r.
    + apply Hkeep. rewrite forallb_app. cbn. now rewrite andb_true_r.
Qed.

(** X25.  [logical_expand_assumptions] is sound.  It always returns
    and only appends messages; when it emits none (no assumption is
    [False] or a numeric symbol), the conjunction of the new list has the
    truth value of the conjunction of the old one, under every valuation
    of the sentences that are no connective: [And] is split, [Not[Or]]
    and [Nor] become negated elements, [Not[And]] an [Or] of negations,
    [Not[Implies[a, b]]] adds [a] and [Not[b]], [True] is dropped. *)
Theorem logical_expand_assumptions_sound (assumptions_list : list BaseElement)
  (ev : Evaluation U) :
  exists t new_assumptions_list changed,
    logical_expand_assumptions assumptions_list ev
    = (mkEvaluation (out ev ++ t) (locals ev),
       Return (new_assumptions_list, changed))
    /\ (t = [] ->
        forall atom,
          forallb (truth atom) new_assumptions_list
          = forallb (truth atom) assumptions_list).
Proof.
  unfold logical_expand_assumptions, bind.
  destruct (expand_loop_sound (fun _ => true) assumptions_list [] false ev)
    as (t & new' & changed' & Hr & _).
  rewrite Hr.
  assert (Hs : t = [] -> forall atom,
             forallb (truth atom) new' = forallb (truth atom) assumptions_list).
  { intros E atom.
    destruct (expand_loop_sound atom assumptions_list [] false ev)
      as (t2 & new2 & changed2 & Hr2 & Ht2).
    rewrite Hr in Hr2. injection Hr2 as Ht <- _.
    apply app_inv_head in Ht. subst t2. now rewrite (Ht2 E). }
  destruct changed'.
  - destruct (remove_duplicated_assumptions_elements new' sorted_permutes)
      as (unique & Hu & Hin).
    unfold lift. rewrite Hu. exists t, unique, true. split; [reflexivity|].
    intros E atom. rewrite <- (Hs E atom). now apply forallb_same_elements.
  - exists t, new', false. split; [reflexivity|exact Hs].
Qed.

(** What one pass does to a list that holds [Not[Implies[a, b]]]: the
    assumption stays and a change is reported. *)
Lemma expand_loop_keeps_Not_Implies (h a b : BaseElement)
  (assumptions_list : list BaseElement) :
  get_name h = "System`Implies" ->
  let x := Not_ (Expression h [a; b]) in
  forall (new : list BaseElement) (changed : bool) (ev : Evaluation U),
    x ∈ assumptions_list \/ (x ∈ new /\ changed = true) ->
    exists ev' new',
      expand_loop assumptions_list new changed ev = (ev', Return (new', true))
      /\ x ∈ new'.
Proof.
  intros Hname x.
  induction assumptions_list as [|assumption rest IH]; intros new changed ev Hx.
  - destruct Hx as [Hx|[Hx ->]]; [inversion Hx|].
    exists ev, new. now split.
  - assert (Hgo : forall new0 changed0 (ev0 : Evaluation U),
              (assumption = x -> x ∈ new0 /\ changed0 = true) ->
              (x ∈ new /\ changed = true -> x ∈ new0 /\ changed0 = true) ->
              exists ev' new',
                expand_loop rest new0 changed0 ev0 = (ev', Return (new', true))
                /\ x ∈ new').
    { intros new0 changed0 ev0 H1 H2. apply IH.
      destruct Hx as [Hx|Hx]; [|right; now apply H2].
      apply elem_of_cons in Hx as [->|Hx]; [right; now apply H1|now left]. }
    cbn [expand_loop].
    destruct assumption as [v|v|n|h0 es|l].
    + apply Hgo; [discriminate|]. intros [H ->]. split; [|reflexivity].
      apply elem_of_app. now left.
    + apply Hgo; [discriminate|]. intros [H ->]. split; [|reflexivity].
      apply elem_of_app. now left.
    + destruct (sameQ (Symbol n) SymbolTrue).
      { apply Hgo; [discriminate|]. now intros [H _]. }
      destruct (sameQ (Symbol n) SymbolFalse).
      { unfold bind, evaluation_message. apply Hgo; [discriminate|].
        now intros [H _]. }
      destruct (is_numeric (Symbol n)).
      { unfold bind, evaluation_message. apply Hgo; [discriminate|].
        now intros [H _]. }
      apply Hgo; [discriminate|]. intros [H ->]. split; [|reflexivity].
      apply elem_of_app. now left.
    + destruct (has_form_any (Expression h0 es) "System`And") eqn:EA.
      { apply Hgo.
        - intros E. rewrite E in EA. discriminate EA.
        - intros [H _]. split; [|reflexivity]. apply elem_of_app. now left. }
      destruct (has_form (Expression h0 es) "System`Not" [1]) eqn:EN.
      * destruct (has_form_Not _ EN) as (h1 & sentence & [= <- ->] & Hn0).
        assert (HNor : has_form_any (Expression h0 [sentence]) "System`Nor" = false).
        { cbn [has_form_any]. now rewrite Hn0. }
        unfold expand_Not. cbn [get_elements].
        destruct (has_form_any sentence "System`Or") eqn:EO.
        { apply Hgo.
          - intros [= -> ->]. cbn [has_form_any] in EO. rewrite Hname in EO.
            discriminate EO.
          - intros [H _]. split; [|reflexivity]. apply elem_of_app. now left. }
        destruct (has_form_any sentence "System`And") eqn:EA'.
        { apply Hgo.
          - intros [= -> ->]. cbn [has_form_any] in EA'. rewrite Hname in EA'.
            discriminate EA'.
          - intros [H ->]. split; [|reflexivity]. apply elem_of_app. now left. }
        destruct (has_form sentence "System`Implies" [2]) eqn:EI.
        { destruct (has_form_Implies _ EI) as (h2 & a2 & b2 & -> & Hn2).
          cbn [get_elements]. rewrite HNor. apply Hgo.
          - intros E. split; [|reflexivity]. rewrite E.
            apply elem_of_app. right. constructor.
          - intros [H _]. split; [|reflexivity].
            apply elem_of_app. left. apply elem_of_app. now left. }
        rewrite HNor. apply Hgo.
        -- intros [= -> ->]. cbn [has_form] in EI. rewrite Hname in EI.
           discriminate EI.
        -- intros [H ->]. split; [|reflexivity]. apply elem_of_app. now left.
      * destruct (has_form_any (Expression h0 es) "System`Nor") eqn:ENor.
        { apply Hgo.
          - intros E. rewrite E in EN. cbn in EN. discriminate EN.
          - intros [H _]. split; [|reflexivity]. apply elem_of_app. now left. }
        apply Hgo.
        -- intros E. rewrite E in EN. cbn in EN. discriminate EN.
        -- intros [H ->]. split; [|reflexivity]. apply elem_of_app. now left.
    + apply Hgo; [discriminate|]. intros [H ->]. split; [|reflexivity].
      apply elem_of_app. now left.
Qed.

(** X26.  The logical expansion never settles on [Not[Implies[a, b]]].
    For such an assumption the pass adds [a] and [Not[b]], reports a
    change and keeps the assumption in the list, so every further pass
    reports a change again: the loop [while cont] of
    [get_assumption_rules_dispatch] does not end, whatever the number of
    passes. *)
Theorem expand_logically_never_ends (h a b : BaseElement)
  (assumptions_list : list BaseElement) :
  get_name h = "System`Implies" ->
  Not_ (Expression h [a; b]) ∈ assumptions_list ->
  (forall ev : Evaluation U,
     exists ev' new_assumptions_list,
       logical_expand_assumptions assumptions_list ev
       = (ev', Return (new_assumptions_list, true))
       /\ Not_ (Expression h [a; b]) ∈ new_assumptions_list)
  /\ (forall fuel (ev : Evaluation U),
        expand_logically fuel assumptions_list ev = None).
Proof.
  intros Hname.
  assert (Hstep : forall l (ev : Evaluation U),
            Not_ (Expression h [a; b]) ∈ l ->
            exists ev' l',
              logical_expand_assumptions l ev = (ev', Return (l', true))
              /\ Not_ (Expression h [a; b]) ∈ l').
  { intros l ev Hin. unfold logical_expand_assumptions, bind.
    destruct (expand_loop_keeps_Not_Implies h a b l Hname [] false ev)
      as (ev' & new' & Hr & Hin'); [now left|].
    rewrite Hr.
    destruct (remove_duplicated_assumptions_elements new' sorted_permutes)
      as (unique & Hu & Hiff).
    unfold lift. rewrite Hu. exists ev', unique. split; [reflexivity|].
    now apply Hiff. }
  intros Hin. split; [intros ev; now apply Hstep|].
  intros fuel. revert assumptions_list Hin.
  induction fuel as [|fuel IH]; intros l Hin ev; [reflexivity|].
  cbn [expand_logically].
  destruct (Hstep l ev Hin) as (ev' & l' & -> & Hin'). now apply IH.
Qed.

End Expansion.

(** ** Repeating decimals *)

Lemma mod_is_remainder (x denominator : Z) :
  denominator <> 0%Z -> is_remainder denominator (x mod denominator).
Proof.
  intros H. unfold is_remainder.
  destruct (Z.lt_trichotomy denominator 0) as [Hd|[Hd|Hd]]; [|contradiction|].
  - right. apply Z.mod_neg_bound. exact Hd.
  - left. apply Z.mod_pos_bound. exact Hd.
Qed.

(** Distinct remainders are fewer than the denominator is large. *)
Lemma remainders_bounded (denominator : Z) (l : list Z) :
  NoDup l -> Forall (is_remainder denominator) l ->
  length l <= Z.abs_nat denominator.
Proof.
  intros Hnd Hall.
  assert (Hinj : NoDup (Z.abs_nat <$> l)).
  { induction Hnd as [|x l Hx Hnd IH]; [constructor|].
    inversion Hall as [|? ? Hrx Hrl]; subst. cbn [fmap list_fmap]. constructor.
    - intros Hin. apply list_elem_of_fmap in Hin as (y & Hy & Hin).
      assert (x = y); [|subst; contradiction].
      rewrite Forall_forall in Hrl. specialize (Hrl y Hin).
      unfold is_remainder in *. lia.
    - now apply IH. }
  apply NoDup_ListNoDup in Hinj.
  rewrite <- (length_fmap Z.abs_nat l).
  replace (Z.abs_nat denominator)
    with (length (seq 0 (Z.abs_nat denominator))) by apply List.length_seq.
  apply List.NoDup_incl_length; [exact Hinj|].
  intros n Hn. apply list_elem_of_In, list_elem_of_fmap in Hn as (x & -> & Hx).
  apply in_seq. rewrite Forall_forall in Hall.
  specialize (Hall x Hx). unfold is_remainder in Hall. lia.
Qed.

Lemma existsb_eqb_elem_of (x : Z) (l : list Z) :
  existsb (Z.eqb x) l = true <-> x ∈ l.
Proof.
  rewrite existsb_exists. split.
  - intros (y & Hy & E). apply Z.eqb_eq in E. subst. now apply list_elem_of_In.
  - intros H. exists x. split; [now apply list_elem_of_In|apply Z.eqb_refl].
Qed.

(** The loop ends before the distinct remainders run out. *)
Lemma digits_loop_terminates (denominator base : Z) (fuel : nat) :
  denominator <> 0%Z ->
  forall numerator tails subresults,
    NoDup subresults -> Forall (is_remainder denominator) subresults ->
    Z.abs_nat denominator < fuel + length subresults ->
    exists r, digits_loop fuel numerator denominator base tails subresults = Some r.
Proof.
  intros Hd. induction fuel as [|fuel IH]; intros numerator tails subresults Hnd Hall Hf.
  - pose proof (remainders_bounded denominator subresults Hnd Hall). lia.
  - cbn [digits_loop]. destruct (Z.eqb numerator 0); [now eexists|]. cbv zeta.
    destruct (existsb _ subresults) eqn:E; cbn [negb]; [now eexists|].
    apply IH.
    + apply NoDup_app. split; [exact Hnd|]. split; [|apply NoDup_singleton].
      intros x Hx Hx'. apply list_elem_of_singleton in Hx'. subst x.
      apply existsb_eqb_elem_of in Hx. congruence.
    + apply Forall_app. split; [exact Hall|]. constructor; [|constructor].
      now apply mod_is_remainder.
    + rewrite length_app. cbn [length]. lia.
Qed.

(** X27.  [convert_repeating_decimal] terminates: the loop runs until
    the remainder is zero or was seen before, and the remainders of a
    division by [denominator] are fewer than [|denominator|], so
    [|denominator| + 1] tests of the loop condition always suffice,
    whatever the numerator and the base. *)
Theorem convert_repeating_decimal_terminates (numerator denominator base : Z)
  (fuel : nat) :
  Z.abs_nat denominator < fuel ->
  exists result,
    convert_repeating_decimal fuel numerator denominator base = Some result.
Proof.
  intros Hf. unfold convert_repeating_decimal.
  destruct (Z.eqb_spec denominator 0) as [Hd|Hd]; [now eexists|]. cbv zeta.
  destruct (digits_loop_terminates denominator base fuel Hd
              (numerator mod denominator) [] [(numerator mod denominator)%Z])
    as [[tails sub] ->].
  - apply NoDup_singleton.
  - constructor; [now apply mod_is_remainder|constructor].
  - cbn [length]. lia.
  - destruct (rotate _ tails) as [head' tails'|e]; [|now eexists].
    destruct (forallb _ head'); now eexists.
Qed.

Lemma str_not_empty (z : Z) : characters (str z) <> [].
Proof.
  unfold str, DecimalString.NilZero.string_of_int, DecimalString.NilZero.string_of_uint.
  destruct (Z.to_int z) as [d|d]; destruct d; discriminate.
Qed.

(** [rotate] raises only when [tails] is empty and [head] is not. *)
Lemma rotate_Failed (rev_head : list string) :
  forall tails e,
    rotate rev_head tails = Failed e
    <-> e = TailsIndexError /\ tails = [] /\ rev_head <> [].
Proof.
  induction rev_head as [|head_i others IH]; intros tails e.
  - cbn. split; [discriminate|]. now intros (_ & _ & H).
  - cbn [rotate]. destruct (last tails) as [tails_j|] eqn:El.
    + assert (tails <> []) as Hne.
      { intros ->. discriminate. }
      destruct (negb (String.eqb head_i tails_j)).
      * split; [discriminate|]. now intros (_ & H & _).
      * rewrite IH. split; [now intros (_ & H & _)|]. now intros (_ & H & _).
    + apply last_None in El. subst tails. split.
      * intros [= <-]. now repeat split.
      * intros (-> & _ & _). reflexivity.
Qed.

(** The loop only appends to [tails], and appends at least one digit
    when it starts from a remainder that is not zero. *)
Lemma digits_loop_appends (denominator base : Z) (fuel : nat) :
  forall numerator tails subresults tails' subresults',
    digits_loop fuel numerator denominator base tails subresults
    = Some (tails', subresults') ->
    length tails <= length tails'
    /\ (numerator <> 0%Z -> length tails < length tails').
Proof.
  induction fuel as [|fuel IH]; intros numerator tails subresults tails' subresults';
    [discriminate|].
  cbn [digits_loop]. destruct (Z.eqb_spec numerator 0) as [Hn|Hn].
  - intros [= <- <-]. split; [lia|contradiction].
  - cbv zeta. destruct (negb _).
    + intros H. apply IH in H as [H _]. rewrite length_app in H. cbn [length] in H.
      split; [lia|intros _; lia].
    + intros [= <- <-]. rewrite length_app. cbn [length]. split; [lia|intros _; lia].
Qed.

(** X28.  The exceptions of [convert_repeating_decimal]: it raises
    [ZeroDivisionError] exactly for the denominator 0, and [IndexError]
    (from [tails[j]] on the empty list of digits) exactly when the
    denominator is not 0 and divides the numerator; in every other case
    it returns a pair of digit lists. *)
Theorem convert_repeating_decimal_exceptions (numerator denominator base : Z)
  (fuel : nat) (result : conversion) :
  convert_repeating_decimal fuel numerator denominator base = Some result ->
  (result = Failed ZeroDivisionError <-> denominator = 0%Z)
  /\ (result = Failed TailsIndexError
      <-> denominator <> 0%Z /\ (numerator mod denominator)%Z = 0%Z).
Proof.
  unfold convert_repeating_decimal.
  destruct (Z.eqb_spec denominator 0) as [Hd|Hd].
  { intros [= <-]. split; [tauto|]. split; [discriminate|tauto]. }
  cbv zeta.
  destruct (digits_loop fuel _ denominator base [] _) as [[tails sub]|] eqn:El;
    [|discriminate].
  destruct (Z.eqb_spec (numerator mod denominator) 0) as [Hr|Hr].
  - destruct fuel as [|fuel]; [discriminate|].
    rewrite Hr in El. cbn in El. injection El as <- _.
    assert (rotate (rev (characters (str (numerator / denominator)))) []
            = Failed TailsIndexError) as ->.
    { apply rotate_Failed. repeat split.
      intros H. apply (f_equal (@rev string)) in H. rewrite rev_involutive in H.
      now apply str_not_empty in H. }
    intros [= <-]. split; [split; [discriminate|contradiction]|tauto].
  - apply digits_loop_appends in El as [_ Hlen]. specialize (Hlen Hr).
    destruct (rotate (rev (characters (str (numerator / denominator)))) tails)
      as [head' tails'|e] eqn:Er.
    + assert (forall r, Some r = Some result -> forall e, r = Digits head' (e r) ->
                (result = Failed ZeroDivisionError <-> denominator = 0%Z)
                /\ (result = Failed TailsIndexError
                    <-> denominator <> 0%Z /\ (numerator mod denominator)%Z = 0%Z))
        as Hfin.
      { intros r [= <-] e ->. split; [split; [discriminate|contradiction]|].
        split; [discriminate|]. intros [_ H]. contradiction. }
      destruct (forallb _ head'); intros H.
      * exact (Hfin _ H (fun _ => truncate_zeros (length tails') tails') eq_refl).
      * exact (Hfin _ H (fun _ => tails') eq_refl).
    + apply rotate_Failed in Er as (_ & -> & _). cbn in Hlen. lia.
Qed.

Lemma numeral_snoc (base : Z) (ds : list Z) (d : Z) :
  numeral base (ds ++ [d]) = (numeral base ds * base + d)%Z.
Proof. unfold numeral. now rewrite fold_left_app. Qed.

(** The invariant of long division: after the digits [ds], the
    remainder [numerator] is what is left of [start * base ^ length ds]. *)
Lemma digits_loop_long_division (start denominator base : Z) (fuel : nat) :
  denominator <> 0%Z ->
  forall numerator tails subresults ds tails' subresults',
    tails = map str ds ->
    (start * base ^ Z.of_nat (length ds)
     = denominator * numeral base ds + numerator)%Z ->
    is_remainder denominator numerator ->
    digits_loop fuel numerator denominator base tails subresults
    = Some (tails', subresults') ->
    exists ds' numerator',
      tails' = map str ds'
      /\ (start * base ^ Z.of_nat (length ds')
          = denominator * numeral base ds' + numerator')%Z
      /\ is_remainder denominator numerator'
      /\ (numerator' = 0%Z \/ numerator' ∈ subresults')
      /\ ((0 < denominator)%Z -> (0 < base)%Z ->
          Forall (fun d => 0 <= d < base)%Z ds ->
          Forall (fun d => 0 <= d < base)%Z ds').
Proof.
  intros Hd. induction fuel as [|fuel IH];
    intros numerator tails subresults ds tails' subresults' Ht Hinv Hrem;
    [discriminate|].
  cbn [digits_loop]. destruct (Z.eqb_spec numerator 0) as [Hn|Hn].
  - intros [= <- <-]. exists ds, numerator. repeat split; auto.
  - cbv zeta. set (digit := (numerator * base / denominator)%Z).
    set (rem := ((numerator * base) mod denominator)%Z).
    assert (Hinv' : (start * base ^ Z.of_nat (length (ds ++ [digit]))
                     = denominator * numeral base (ds ++ [digit]) + rem)%Z).
    { rewrite length_app, numeral_snoc. cbn [length].
      replace (Z.of_nat (length ds + 1)) with (Z.succ (Z.of_nat (length ds))) by lia.
      rewrite Z.pow_succ_r by lia.
      pose proof (Z.div_mod (numerator * base) denominator Hd) as Hdm.
      fold digit rem in Hdm. nia. }
    assert (Hrem' : is_remainder denominator rem) by now apply mod_is_remainder.
    assert (Hrange : (0 < denominator)%Z -> (0 < base)%Z ->
                     Forall (fun d => 0 <= d < base)%Z ds ->
                     Forall (fun d => 0 <= d < base)%Z (ds ++ [digit])).
    { intros Hdp Hb Hds. apply Forall_app. split; [exact Hds|].
      constructor; [|constructor]. unfold is_remainder in Hrem.
      unfold digit. split.
      - apply Z.div_pos; nia.
      - apply Z.div_lt_upper_bound; nia. }
    destruct (existsb (Z.eqb rem) subresults) eqn:E; cbn [negb].
    + intros [= <- <-]. exists (ds ++ [digit]), rem.
      split; [now rewrite map_app, Ht|]. split; [exact Hinv'|].
      split; [exact Hrem'|]. split; [|exact Hrange].
      right. now apply existsb_eqb_elem_of.
    + intros H. apply (IH rem _ _ (ds ++ [digit])) in H;
        [|now rewrite map_app, Ht|exact Hinv'|exact Hrem'].
      destruct H as (ds' & numerator' & H1 & H2 & H3 & H4 & H5).
      exists ds', numerator'. repeat (split; [assumption|]).
      intros Hdp Hb Hds. apply H5; auto.
Qed.

(** X29.  The digits are those of long division.  The strings that
    the loop of [convert_repeating_decimal] collects for
    [numerator % denominator] are the numerals of digits [ds] which, read
    in the base, are the integer part of
    [(numerator % denominator) * base ^ length ds / denominator]; the loop
    stops when what is left of that division is zero or a remainder seen
    before; and for a positive denominator and base every digit lies in
    [[0, base)]. *)
Theorem digits_loop_is_long_division (numerator denominator base : Z)
  (fuel : nat) (tails : list string) (subresults : list Z) :
  denominator <> 0%Z ->
  let start := (numerator mod denominator)%Z in
  digits_loop fuel start denominator base [] [start] = Some (tails, subresults) ->
  exists ds,
    tails = map str ds
    /\ numeral base ds = (start * base ^ Z.of_nat (length ds) / denominator)%Z
    /\ (let left := ((start * base ^ Z.of_nat (length ds)) mod denominator)%Z in
        left = 0%Z \/ left ∈ subresults)
    /\ ((0 < denominator)%Z -> (0 < base)%Z ->
        Forall (fun d => 0 <= d < base)%Z ds).
Proof.
  intros Hd start Hrun.
  destruct (digits_loop_long_division start denominator base fuel Hd start [] [start]
              [] tails subresults eq_refl) as (ds & left & Ht & Hinv & Hrem & Hend & Hr).
  - cbn. lia.
  - now apply mod_is_remainder.
  - exact Hrun.
  - exists ds. split; [exact Ht|].
    assert (Hq : numeral base ds = (start * base ^ Z.of_nat (length ds) / denominator)%Z).
    { apply (Z.div_unique _ _ _ left); [exact Hrem|exact Hinv]. }
    assert (Hm : left = ((start * base ^ Z.of_nat (length ds)) mod denominator)%Z).
    { apply (Z.mod_unique _ _ (numeral base ds)); [exact Hrem|exact Hinv]. }
    split; [exact Hq|]. split; [cbv zeta; now rewrite <- Hm|].
    intros Hdp Hb. apply Hr; [exact Hdp|exact Hb|constructor].
Qed.

Lemma remove_duplicated_assumptions_keeps_elements_witness :
  exists unique_assumptions,
    remove_duplicated_assumptions (Ord := plain_ordering)
      [Symbol "p"; Symbol "p"; Symbol "q"] = Return unique_assumptions
    /\ (forall x, x ∈ unique_assumptions
                  <-> x ∈ [Symbol "p"; Symbol "p"; Symbol "q"])
    /\ no_repeat unique_assumptions = true.
Proof.
  apply (remove_duplicated_assumptions_keeps_elements (Ord := plain_ordering)
           [Symbol "p"; Symbol "p"; Symbol "q"]).
  intros l. reflexivity.
Defined.

(** The assumptions [p && q] and [!(r || s)]. *)
Lemma logical_expand_assumptions_sound_witness :
  let assumptions_list :=
    [Expression (Symbol "System`And") [Symbol "p"; Symbol "q"];
     Not_ (Expression SymbolOr [Symbol "r"; Symbol "s"])] in
  exists t new_assumptions_list changed,
    logical_expand_assumptions (U := unit) (K := plain_kernel)
      (Ord := plain_ordering) assumptions_list (mkEvaluation [] tt)
    = (mkEvaluation ([] ++ t) tt, Return (new_assumptions_list, changed))
    /\ (t = [] ->
        forall atom,
          forallb (truth atom) new_assumptions_list
          = forallb (truth atom) assumptions_list).
Proof.
  cbv zeta.
  apply (logical_expand_assumptions_sound (U := unit) (K := plain_kernel)
           (Ord := plain_ordering)).
  intros l. reflexivity.
Defined.

Lemma expand_logically_never_ends_witness :
  expand_logically (U := unit) (K := plain_kernel) (Ord := plain_ordering) 100
    [Not_ (Expression (Symbol "System`Implies") [Symbol "a"; Symbol "b"])]
    (mkEvaluation [] tt)
  = None.
Proof.
  apply (expand_logically_never_ends (U := unit) (K := plain_kernel)
           (Ord := plain_ordering) (fun l => Permutation_refl l)
           (Symbol "System`Implies") (Symbol "a") (Symbol "b")
           [Not_ (Expression (Symbol "System`Implies") [Symbol "a"; Symbol "b"])]).
  - reflexivity.
  - constructor.
Defined.

Lemma convert_repeating_decimal_terminates_witness :
  exists result, convert_repeating_decimal 8 1 7 10 = Some result.
Proof.
  apply (convert_repeating_decimal_terminates 1 7 10 8). simpl. lia.
Defined.

(** [convert_repeating_decimal(4, 2, 10)] raises [IndexError]. *)
Lemma convert_repeating_decimal_exceptions_witness :
  (Failed TailsIndexError = Failed ZeroDivisionError <-> 2%Z = 0%Z)
  /\ (Failed TailsIndexError = Failed TailsIndexError
      <-> 2%Z <> 0%Z /\ (4 mod 2)%Z = 0%Z).
Proof.
  apply (convert_repeating_decimal_exceptions 4 2 10 3 (Failed TailsIndexError)).
  vm_compute. reflexivity.
Defined.

(** The digits of 1/7 in base 10. *)
Lemma digits_loop_is_long_division_witness :
  exists ds,
    ["1"; "4"; "2"; "8"; "5"; "7"]%string = map str ds
    /\ numeral 10 ds = ((1 mod 7) * 10 ^ Z.of_nat (length ds) / 7)%Z
    /\ (let left := (((1 mod 7) * 10 ^ Z.of_nat (length ds)) mod 7)%Z in
        left = 0%Z \/ left ∈ [1%Z; 3%Z; 2%Z; 6%Z; 4%Z; 5%Z])
    /\ ((0 < 7)%Z -> (0 < 10)%Z -> Forall (fun d => 0 <= d < 10)%Z ds).
Proof.
  apply (digits_loop_is_long_division 1 7 10 10
           ["1"; "4"; "2"; "8"; "5"; "7"]%string [1%Z; 3%Z; 2%Z; 6%Z; 4%Z; 5%Z]).
  - discriminate.
  - vm_compute. reflexivity.
Defined.

(** ** An atom in the place of a rule *)

Section Atomic_rule.
Context {U : Type} {K : Kernel}.

(** The pattern compiler fails with a [PatternError] only. *)
Hypothesis create_raises_PatternError :
  forall e x, create e = Raise x -> exists n t, x = PatternError n t.




End Atomic_rule.


(** [x /. {a -> b, 1}] evaluated: [AttributeError], and nothing is
    emitted. *)
Example atom_in_rules_example :
  ReplaceAll_eval (U := unit) (K := plain_kernel) (Symbol "x")
    (ListExpression [rule_expr (Symbol "a") (Symbol "b"); Integer 1])
    (mkEvaluation [] tt)
  = (mkEvaluation [] tt, Raise AttributeError).
Proof. reflexivity. Qed.

(** ** [Dispatch] of a list of lists *)

Section Dispatch_lists.
Context {U : Type} {K : Kernel}.

Lemma eval_create_all_lists (es : list BaseElement) (ev : Evaluation U) :
  forallb (fun rule => has_form_any rule "System`List") es = true ->
  eval_create (ListExpression es) ev
  = bind (eval_create_each es)
      (fun elements => lift (ListExpression_created elements)) ev.
Proof.
  intros H. unfold eval_create, ListExpression, SymbolList.
  cbn [evaluate_if_Symbol eval_create_list get_name String.eqb Ascii.eqb Bool.eqb].
  now rewrite H.
Qed.

Lemma eval_create_list_ListExpression (items : list BaseElement) :
  eval_create_list (U := U) (ListExpression items) = eval_create (ListExpression items).
Proof. reflexivity. Qed.

Lemma eval_create_compilable (items : list BaseElement) (ev : Evaluation U) :
  compilable_rules items ->
  eval_create (ListExpression items) ev
  = (ev, Return (CreatedElement (Dispatch items))).
Proof.
  intros (Hne & Hall & rs & Hrs).
  destruct (valid_rules_accepted items Hall) as [Hacc Hflat].
  rewrite eval_create_flat_list.
  - rewrite (flatten_rules_accepted items Hacc). cbn [app]. rewrite Hflat.
    unfold try_Dispatch. now rewrite Hrs.
  - destruct items as [|item rest]; [contradiction|].
    cbn [forallb] in *. apply andb_true_iff in Hall as [Hitem _].
    destruct (is_rule_inv item Hitem) as (h & lhs & rhs & -> & _ & Hn).
    unfold head_in in Hn. cbn [existsb get_head] in Hn.
    apply orb_false_iff in Hn as [Hn _].
    cbn [has_form_any]. destruct h as [| |n| |]; try reflexivity.
    cbn [sameQ SymbolList get_name] in *. now rewrite Hn.
Qed.

Lemma eval_create_each_compilable (lists : list (list BaseElement))
  (ev : Evaluation U) :
  Forall compilable_rules lists ->
  eval_create_each (map ListExpression lists) ev
  = (ev, Return (map (fun items => CreatedElement (Dispatch items)) lists)).
Proof.
  induction 1 as [|items rest Hitems _ IH]; [reflexivity|].
  cbn [map eval_create_each]. fold (eval_create_each (U := U)).
  rewrite eval_create_list_ListExpression. unfold bind at 1.
  rewrite (eval_create_compilable items ev Hitems).
  unfold bind. rewrite IH. reflexivity.
Qed.

Lemma all_lists_map_ListExpression (lists : list (list BaseElement)) :
  forallb (fun rule => has_form_any rule "System`List") (map ListExpression lists)
  = true.
Proof. induction lists as [|items rest IH]; [reflexivity|exact IH]. Qed.

Lemma no_CreatedNone_elements (lists : list (list BaseElement)) :
  existsb is_CreatedNone
    (map (fun items => CreatedElement (Dispatch items)) lists) = false.
Proof. induction lists as [|items rest IH]; [reflexivity|exact IH]. Qed.

(** X31.  [Dispatch] of a list of lists is threaded over the lists.
    When every element of the argument is a non-empty list of rules of
    arity 2 whose left-hand sides compile, the result is the list of the
    [Dispatch] atoms of these lists, and nothing is emitted.  When one of
    the lists holds an element that [Dispatch] does not take, the call
    for that list emits [invrpl] and gives [None], and the list of the
    results cannot be built: the call ends with [AttributeError] after
    the message, whatever lists of rules come before and after. *)
Theorem Dispatch_threads_over_lists (lists : list (list BaseElement))
  (ev : Evaluation U) :
  Forall compilable_rules lists ->
  eval_create (ListExpression (map ListExpression lists)) ev
  = (ev, Return (CreatedList
                   (map (fun items => CreatedElement (Dispatch items)) lists)))
  /\ (forall good bad rest more,
        Forall compilable_rules more ->
        forallb (fun rule => accepted (evaluate_if_Symbol rule)) good = true ->
        accepted (evaluate_if_Symbol bad) = false ->
        eval_create
          (ListExpression
             (map ListExpression lists
              ++ ListExpression (good ++ bad :: rest) :: map ListExpression more))
          ev
        = (add_message ev (mkMessage "Dispatch" "invrpl"
                             [ArgExpr (evaluate_if_Symbol bad)]),
           Raise AttributeError)).
Proof.
  intros Hlists. split.
  - rewrite eval_create_all_lists by apply all_lists_map_ListExpression.
    unfold bind. rewrite (eval_create_each_compilable lists ev Hlists).
    unfold lift, ListExpression_created.
    now rewrite no_CreatedNone_elements.
  - intros good bad rest more Hmore Hgood Hbad.
    rewrite eval_create_all_lists.
    2:{ rewrite forallb_app. rewrite all_lists_map_ListExpression.
        cbn [forallb andb]. change (has_form_any (ListExpression (good ++ bad :: rest)) "System`List") with true.
        cbn [andb]. apply all_lists_map_ListExpression. }
    assert (Heach : forall ev0 : Evaluation U,
      eval_create_each
        (map ListExpression lists
         ++ ListExpression (good ++ bad :: rest) :: map ListExpression more) ev0
      = (add_message ev0 (mkMessage "Dispatch" "invrpl"
                            [ArgExpr (evaluate_if_Symbol bad)]),
         Return (map (fun items => CreatedElement (Dispatch items)) lists
                 ++ CreatedNone
                    :: map (fun items => CreatedElement (Dispatch items)) more))).
    { clear ev. induction Hlists as [|items others Hitems _ IH]; intros ev0.
      - cbn [map app eval_create_each]. fold (eval_create_each (U := U)).
        rewrite eval_create_list_ListExpression. unfold bind at 1.
        rewrite (eval_create_reports_invalid_flat good bad rest ev0 Hgood Hbad).
        unfold bind.
        rewrite (eval_create_each_compilable more _ Hmore). reflexivity.
      - cbn [map app eval_create_each]. fold (eval_create_each (U := U)).
        rewrite eval_create_list_ListExpression. unfold bind at 1.
        rewrite (eval_create_compilable items ev0 Hitems).
        unfold bind. rewrite IH. reflexivity. }
    unfold bind. rewrite Heach. unfold lift, ListExpression_created.
    rewrite existsb_app. cbn [existsb is_CreatedNone]. now rewrite orb_true_r.
Qed.

End Dispatch_lists.

(** [Dispatch[{{a -> b}, {c -> d}}]] is the list of two atoms. *)
Lemma Dispatch_threads_over_lists_witness :
  eval_create (U := unit) (K := plain_kernel)
    (ListExpression [ListExpression [rule_expr (Symbol "a") (Symbol "b")];
                     ListExpression [rule_expr (Symbol "c") (Symbol "d")]])
    (mkEvaluation [] tt)
  = (mkEvaluation [] tt,
     Return (CreatedList
               [CreatedElement (Dispatch [rule_expr (Symbol "a") (Symbol "b")]);
                CreatedElement (Dispatch [rule_expr (Symbol "c") (Symbol "d")])])).
Proof.
  apply (Dispatch_threads_over_lists (U := unit) (K := plain_kernel)
           [[rule_expr (Symbol "a") (Symbol "b")];
            [rule_expr (Symbol "c") (Symbol "d")]] (mkEvaluation [] tt)).
  repeat constructor; try discriminate; eexists; reflexivity.
Defined.

(** [Dispatch[{{1}}]]: the message for [1], then [AttributeError]; and
    [Dispatch[{}]] is the empty list. *)
Example Dispatch_nested_invalid :
  eval_create (U := unit) (K := plain_kernel)
    (ListExpression [ListExpression [Integer 1]]) (mkEvaluation [] tt)
  = (mkEvaluation [mkMessage "Dispatch" "invrpl" [ArgExpr (Integer 1)]] tt,
     Raise AttributeError)
  /\ eval_create (U := unit) (K := plain_kernel)
       (ListExpression []) (mkEvaluation [] tt)
     = (mkEvaluation [] tt, Return (CreatedList [])).
Proof. split; reflexivity. Qed.
